(** * The in-memory retrieval engine of the knowledge-base bot

    A shallow embedding of [SimpleVectorStore] (document ingestion,
    tokenization, the two scorers and the fused search) with the properties
    its specification states, and of its callers, the [RAGPipeline] class
    and the two chat handlers, with further properties read off the code.

    Modelling choices, all visible in the definitions below:
    - a JavaScript string is the list of its code units; the character type
      is the 8-bit [ascii], read as the code units U+0000 to U+00FF (Basic
      Latin and Latin-1), on which [toLowerCase], [trim] and the regular
      expression classes [\w] and [\s] are written out in full.  The
      tokenizer is written again over 16-bit code units (module [UTF16]),
      for the questions that hold a code unit above U+00FF;
    - a JavaScript number is a rational, or [NaN].  The scorers and the
      searches are written twice: with exact arithmetic, and in binary64
      (module [Binary64]), where every operation gives the exact result
      rounded to 53 significant bits.  Which documents reach a threshold and
      which of two scores is the greater depends on the rounding, so the
      properties of the scores, the thresholds and the order of the results
      are stated in binary64;
    - the object's mutable fields ([documents], [initialized]) are a record
      threaded through a state-and-exception monad.  What reading the CSV
      file gives is an input of every operation that may trigger a load:
      the records, an error of the parser, which rejects the promise of
      [loadCSV], or an error of the read stream, for which the source has no
      listener, so that the promise never settles and the error ends the
      process;
    - the requests to the model server and the posts to Slack are inputs as
      well: each resolves or rejects;
    - [Array.prototype.sort] is stable, so with the comparator
      [(a, b) => b.similarity - a.similarity] on finite scores its result is
      the stable descending arrangement, computed here by insertion. *)

From Stdlib Require Import String Ascii.
From Stdlib Require Import List Bool Arith NArith ZArith Lia QArith Qminmax.
From Stdlib Require Import Sorted Permutation DecimalString DecimalNat.
From Stdlib Require SpecFloat.
Import ListNotations.

Local Open Scope nat_scope.
Local Open Scope list_scope.

(** ** The fragment of the JavaScript runtime the program uses *)

Module JS.

Definition str := list ascii.

(** A string literal of the source. *)
Definition lit (s : string) : str := list_ascii_of_string s.

Definition str_eq_dec : forall a b : str, {a = b} + {a <> b} :=
  list_eq_dec ascii_dec.

Definition code (c : ascii) : N := N_of_ascii c.

Definition between (lo hi n : N) : bool := (N.leb lo n && N.leb n hi)%bool.

(** [\s]: TAB, LF, VT, FF, CR, SPACE and NO-BREAK SPACE are the white space
    and line terminator code units below U+0100. *)
Definition is_space (c : ascii) : bool :=
  (between 9 13 (code c) || N.eqb (code c) 32 || N.eqb (code c) 160)%bool.

(** [\w]: [A-Za-z0-9_]. *)
Definition is_word (c : ascii) : bool :=
  (between 48 57 (code c) || between 65 90 (code c) || N.eqb (code c) 95
   || between 97 122 (code c))%bool.

(** The lower-case mapping of one code unit: A-Z, and the Latin-1 capitals
    U+00C0 to U+00DE without the multiplication sign U+00D7, move up by 32. *)
Definition lower_char (c : ascii) : ascii :=
  if (between 65 90 (code c) || between 192 214 (code c)
      || between 216 222 (code c))%bool
  then ascii_of_N (code c + 32) else c.

(** [String.prototype.toLowerCase]. *)
Definition toLowerCase (s : str) : str := map lower_char s.

Fixpoint trimStart (s : str) : str :=
  match s with
  | c :: s' => if is_space c then trimStart s' else s
  | [] => []
  end.

(** [String.prototype.trim]. *)
Definition trim (s : str) : str := rev (trimStart (rev (trimStart s))).

Fixpoint startsWith (s sub : str) : bool :=
  match sub, s with
  | [], _ => true
  | _ :: _, [] => false
  | a :: sub', b :: s' => if ascii_dec a b then startsWith s' sub' else false
  end.

(** [String.prototype.includes]: [sub] occurs in [s] as a contiguous
    substring (the empty string occurs in every string). *)
Fixpoint includes (s sub : str) : bool :=
  (startsWith s sub ||
   match s with
   | [] => false
   | _ :: s' => includes s' sub
   end)%bool.

(** [Array.prototype.includes] on an array of strings. *)
Definition array_includes (l : list str) (t : str) : bool :=
  if in_dec str_eq_dec t l then true else false.

(** [text.replace(/[^\w\s]/g, ' ')]. *)
Definition replace_non_word_space (text : str) : str :=
  map (fun c => if (is_word c || is_space c)%bool then c else " "%char) text.

(** [text.split(/\s+/)]: the pieces between the maximal runs of white space.
    The result is never empty: the empty string yields one empty piece, and
    white space at either end yields an empty piece there. *)
Fixpoint split_ws (s : str) : list str :=
  match s with
  | [] => [[]]
  | c :: s' =>
    if is_space c then
      match s' with
      | c' :: _ => if is_space c' then split_ws s' else [] :: split_ws s'
      | [] => [] :: split_ws s'
      end
    else
      match split_ws s' with
      | piece :: pieces => (c :: piece) :: pieces
      | [] => [[c]]
      end
  end.

(** [[...new Set(l)]]: a set keeps its distinct values in insertion order,
    and adding a value that is already there changes nothing. *)
Definition set_add (set : list str) (t : str) : list str :=
  if array_includes set t then set else set ++ [t].

Definition set_of (l : list str) : list str := fold_left set_add l [].

(** The truth value of a property that holds a string or is missing. *)
Definition truthy (v : option str) : bool :=
  match v with
  | Some (_ :: _) => true
  | Some [] | None => false
  end.

(** [v || d]. *)
Definition or_else (v : option str) (d : str) : str :=
  match v with
  | Some (c :: s) => c :: s
  | Some [] | None => d
  end.

(** A template literal's rendering of a non-negative integer. *)
Definition decimal (n : nat) : str :=
  lit (NilEmpty.string_of_uint (Nat.to_uint n)).

(** A number: a finite value, or the result of [0 / 0]. *)
Inductive number : Type :=
| Fin (q : Q)
| NaN.

(** [a / b] on two array lengths.  The source divides by the size of a
    union that contains the dividend's elements, so a zero divisor comes with
    a zero dividend (lemma [union_empty_intersection_empty] below) and the
    quotient is [NaN]. *)
Definition length_ratio (a b : nat) : number :=
  match b with
  | O => NaN
  | S _ => Fin (Z.of_nat a # Pos.of_nat b)
  end.

(** [x + y] with a finite right operand. *)
Definition add (x : number) (y : Q) : number :=
  match x with
  | Fin q => Fin (q + y)
  | NaN => NaN
  end.

(** [Math.min(x, y)] with a finite [y]: [NaN] is contagious. *)
Definition Math_min (x : number) (y : Q) : number :=
  match x with
  | Fin q => Fin (Qmin q y)
  | NaN => NaN
  end.

(** [Array.prototype.slice(0, k)] for a non-negative integer [k]. *)
Definition slice0 {A : Type} (l : list A) (k : nat) : list A := firstn k l.

End JS.

Import JS.

(** ** Data model *)

(** One parsed CSV record: a column that the file lacks is a missing
    property. *)
Module Row.
Record t : Type := mk {
  question : option str;
  answer : option str;
  source : option str
}.
End Row.

Module Metadata.
Record t : Type := mk {
  source : str;
  question : str;
  answer : str;
  qa_pair_id : nat;
  question_length : nat;
  answer_length : nat;
  type : str
}.
End Metadata.

Module Document.
Record t : Type := mk {
  id : str;
  content : str;
  metadata : Metadata.t;
  tokens : list str
}.
End Document.

(** An entry of a result list.  A score is stored only after it passed a
    comparison that [NaN] fails, or was computed from finite summands, so the
    field holds a finite number. *)
Module ScoredResult.
Record t : Type := mk {
  document : str;
  metadata : Metadata.t;
  similarity : Q
}.
Definition qa_pair_id (r : t) : nat := Metadata.qa_pair_id (metadata r).
End ScoredResult.

(** The fields of a [SimpleVectorStore] object that change. *)
Record store : Type := mkStore {
  documents : list Document.t;
  initialized : bool
}.

(** [new SimpleVectorStore()]. *)
Definition SimpleVectorStore_new : store :=
  {| documents := []; initialized := false |}.

(** ** Effects: state and exceptions *)

Inductive error : Type :=
| Error (message : str).

(** How a call ends.  It returns a value; or it throws, and the nearest
    enclosing [catch] of a caller handles the error (for an [async] function:
    its promise rejects); or an error is raised where no caller can catch
    it, as the ['error'] event of a stream that has no listener for it: Node
    rethrows it outside every promise, no [catch] of the program runs, and
    the process ends. *)
Inductive outcome (A : Type) : Type :=
| Returned (a : A)
| Thrown (e : error)
| Uncaught (e : error).
Arguments Returned {A} a.
Arguments Thrown {A} e.
Arguments Uncaught {A} e.

(** How an awaited request ends (a request made with axios, a post to
    Slack): its promise resolves with the response, or rejects. *)
Inductive reply (A : Type) : Type :=
| Resolved (a : A)
| Rejected (e : error).
Arguments Resolved {A} a.
Arguments Rejected {A} e.

Definition M (A : Type) : Type := store -> outcome A * store.

Definition ret {A : Type} (a : A) : M A := fun st => (Returned a, st).

Definition throw {A : Type} (e : error) : M A := fun st => (Thrown e, st).

Definition bind {A B : Type} (m : M A) (k : A -> M B) : M B :=
  fun st =>
    match m st with
    | (Returned a, st') => k a st'
    | (Thrown e, st') => (Thrown e, st')
    | (Uncaught e, st') => (Uncaught e, st')
    end.

(** [try { m } catch (e) { h e }]: the handler runs in the state the body
    left behind.  An uncaught error is not the handler's to see. *)
Definition try_catch {A : Type} (m : M A) (h : error -> M A) : M A :=
  fun st =>
    match m st with
    | (Returned a, st') => (Returned a, st')
    | (Thrown e, st') => h e st'
    | (Uncaught e, st') => (Uncaught e, st')
    end.

Definition get : M store := fun st => (Returned st, st).

Definition set_documents (docs : list Document.t) : M unit :=
  fun st => (Returned tt, {| documents := docs; initialized := initialized st |}).

Definition set_initialized (b : bool) : M unit :=
  fun st => (Returned tt, {| documents := documents st; initialized := b |}).

Notation "x <- m ;; k" := (bind m (fun x => k))
  (at level 61, m at next level, right associativity).
Notation "m ;;; k" := (bind m (fun _ => k))
  (at level 61, right associativity).

(** ** The program: [class SimpleVectorStore] *)

(** [loadCSV]: [file] is what reading [this.csvFile] gives when the call is
    made.  The source pipes the read stream into the CSV parser and puts its
    three listeners on what [pipe] returns, the parser:
    - [Returned data]: the parser ends, and the promise resolves with the
      records;
    - [Thrown e]: the parser emits ['error'], and the promise rejects;
    - [Uncaught e]: the read stream emits ['error'] (the file is missing or
      cannot be read).  [pipe] forwards no errors and the read stream has no
      listener, so the promise never settles and the error ends the
      process. *)
Definition loadCSV (file : outcome (list Row.t)) : M (list Row.t) :=
  fun st => (file, st).

Definition tokenize (text : str) : list str :=
  map (fun token => toLowerCase token)
    (filter (fun token => 2 <? length token)
       (split_ws (replace_non_word_space text))).

(** The body of the loading loop for the record at [index]: the document to
    push, or [None] where the source says [continue]. *)
Definition load_row (index : nat) (row : Row.t) : option Document.t :=
  if (truthy (Row.question row) && truthy (Row.answer row))%bool then
    let question := trim (or_else (Row.question row) []) in
    let answer := trim (or_else (Row.answer row) []) in
    let source := or_else (Row.source row) (lit "unknown") in
    if (negb (truthy (Some question))
        || (if str_eq_dec question (lit "nan") then true else false)
        || (length question <? 10))%bool then None
    else if (negb (truthy (Some answer))
        || (if str_eq_dec answer (lit "nan") then true else false)
        || (length answer <? 10))%bool then None
    else
      let docId := lit "question_" ++ decimal index in
      let questionContent := question in
      let metadata :=
        {| Metadata.source := source;
           Metadata.question := question;
           Metadata.answer := answer;
           Metadata.qa_pair_id := index;
           Metadata.question_length := length question;
           Metadata.answer_length := length answer;
           Metadata.type := lit "qa" |} in
      Some {| Document.id := docId;
              Document.content := questionContent;
              Document.metadata := metadata;
              Document.tokens := tokenize (toLowerCase questionContent) |}
  else None.

(** The loop [for (let index = 0; index < data.length; index++)], entered at
    [index] with the records from there on and the documents pushed so far. *)
Fixpoint load_loop (index : nat) (data : list Row.t)
    (documents : list Document.t) : list Document.t :=
  match data with
  | [] => documents
  | row :: rest =>
    load_loop (S index) rest
      (match load_row index row with
       | Some doc => documents ++ [doc]
       | None => documents
       end)
  end.

Definition loadDocuments (file : outcome (list Row.t)) : M unit :=
  try_catch
    (data <- loadCSV file ;;
     set_documents (load_loop 0 data []))
    (fun error => throw error).

Definition initialize (file : outcome (list Row.t)) : M unit :=
  this <- get ;;
  if negb (initialized this) then
    loadDocuments file ;;;
    set_initialized true
  else ret tt.

Definition questionWords : list str :=
  map lit ["how"; "what"; "where"; "when"; "why"; "who"; "which"]%string.

(** The locals of [calculateQuestionSimilarity], by their names there.  The
    intersection filters the query tokens, so a token the query repeats is
    kept as often as it occurs; the union is a set. *)
Definition intersection (queryTokens docTokens : list str) : list str :=
  filter (fun token => array_includes docTokens token) queryTokens.

Definition union (queryTokens docTokens : list str) : list str :=
  set_of (queryTokens ++ docTokens).

Definition jaccard (queryTokens docTokens : list str) : number :=
  length_ratio (length (intersection queryTokens docTokens))
    (length (union queryTokens docTokens)).

Definition questionBoost (queryTokens docTokens : list str) : Q :=
  fold_left
    (fun questionBoost word =>
       if (array_includes queryTokens word
           && array_includes docTokens word)%bool
       then (questionBoost + 0.1)%Q else questionBoost)
    questionWords 0%Q.

Definition calculateQuestionSimilarity (queryTokens docTokens : list str)
    : number :=
  Math_min
    (add (jaccard queryTokens docTokens)
       (questionBoost queryTokens docTokens)) 1.

(** The comparator both sorts pass: [(a, b) => b.similarity - a.similarity]. *)
Definition by_similarity (a b : ScoredResult.t) : Q :=
  (ScoredResult.similarity b - ScoredResult.similarity a)%Q.

(** [results.sort(by_similarity)]: an entry moves behind the entries it is
    compared positive with, and stays in front of the others. *)
Fixpoint sort_insert (a : ScoredResult.t) (sorted : list ScoredResult.t)
    : list ScoredResult.t :=
  match sorted with
  | [] => [a]
  | b :: rest =>
    match (by_similarity a b ?= 0)%Q with
    | Gt => b :: sort_insert a rest
    | _ => a :: sorted
    end
  end.

Definition sort (results : list ScoredResult.t) : list ScoredResult.t :=
  fold_right sort_insert [] results.

(** The scan of [similaritySearch]: the entries pushed for [docs], in
    order. *)
Fixpoint similarity_scan (queryTokens : list str) (threshold : Q)
    (docs : list Document.t) : list ScoredResult.t :=
  match docs with
  | [] => []
  | doc :: rest =>
    match calculateQuestionSimilarity queryTokens (Document.tokens doc) with
    | Fin similarity =>
      if Qle_bool threshold similarity then
        {| ScoredResult.document := Document.content doc;
           ScoredResult.metadata := Document.metadata doc;
           ScoredResult.similarity := similarity |}
        :: similarity_scan queryTokens threshold rest
      else similarity_scan queryTokens threshold rest
    | NaN => similarity_scan queryTokens threshold rest
    end
  end.

Definition similaritySearch (file : outcome (list Row.t)) (query : str)
    (k : nat) (threshold : Q) : M (list ScoredResult.t) :=
  try_catch
    (initialize file ;;;
     this <- get ;;
     let queryTokens := tokenize (toLowerCase query) in
     let results := similarity_scan queryTokens threshold (documents this) in
     let topResults := slice0 (sort results) k in
     ret topResults)
    (fun error => ret []).

(** The score [keywordSearch] accumulates for one document. *)
Definition keyword_score (queryLower : str) (queryWords : list str)
    (doc : Document.t) : Q :=
  let questionLower :=
    toLowerCase (Metadata.question (Document.metadata doc)) in
  let answerLower := toLowerCase (Metadata.answer (Document.metadata doc)) in
  let score := 0%Q in
  let score :=
    if includes questionLower queryLower then (score + 3)%Q else score in
  let score :=
    if includes answerLower queryLower then (score + 2)%Q else score in
  let score :=
    fold_left
      (fun score word =>
         let score :=
           if includes questionLower word then (score + 2)%Q else score in
         if includes answerLower word then (score + 1)%Q else score)
      queryWords score in
  if includes (toLowerCase (Metadata.source (Document.metadata doc)))
       queryLower
  then (score + 0.5)%Q else score.

Fixpoint keyword_scan (queryLower : str) (queryWords : list str)
    (docs : list Document.t) : list ScoredResult.t :=
  match docs with
  | [] => []
  | doc :: rest =>
    let score := keyword_score queryLower queryWords doc in
    match (score ?= 0)%Q with
    | Gt =>
      {| ScoredResult.document := Document.content doc;
         ScoredResult.metadata := Document.metadata doc;
         ScoredResult.similarity := (score / 10)%Q |}
      :: keyword_scan queryLower queryWords rest
    | _ => keyword_scan queryLower queryWords rest
    end
  end.

Definition keywordSearch (file : outcome (list Row.t)) (query : str)
    (k : nat) : M (list ScoredResult.t) :=
  try_catch
    (initialize file ;;;
     this <- get ;;
     let queryLower := toLowerCase query in
     let queryWords :=
       filter (fun word => 2 <? length word) (split_ws queryLower) in
     let results := keyword_scan queryLower queryWords (documents this) in
     let topResults := slice0 (sort results) k in
     ret topResults)
    (fun error => ret []).

(** The loop of [questionSearch] over [allResults] with the identifiers seen
    so far: the entries pushed to [uniqueResults]. *)
Fixpoint unique_scan (seenIds : list nat) (allResults : list ScoredResult.t)
    : list ScoredResult.t :=
  match allResults with
  | [] => []
  | result :: rest =>
    let id := ScoredResult.qa_pair_id result in
    if negb (existsb (Nat.eqb id) seenIds)
    then result :: unique_scan (id :: seenIds) rest
    else unique_scan seenIds rest
  end.

Definition questionSearch (file : outcome (list Row.t)) (query : str)
    (k : nat) (threshold : Q) : M (list ScoredResult.t) :=
  try_catch
    (similarityResults <- similaritySearch file query k threshold ;;
     keywordResults <- keywordSearch file query k ;;
     let allResults := similarityResults ++ keywordResults in
     let uniqueResults := unique_scan [] allResults in
     let finalResults := slice0 (sort uniqueResults) k in
     ret finalResults)
    (fun error => ret []).

(** The stores the program can be in: the fresh object, and whatever a
    method call leaves behind. *)
Inductive reachable : store -> Prop :=
| reach_new : reachable SimpleVectorStore_new
| reach_loadDocuments file st :
    reachable st -> reachable (snd (loadDocuments file st))
| reach_initialize file st :
    reachable st -> reachable (snd (initialize file st))
| reach_similaritySearch file query k threshold st :
    reachable st ->
    reachable (snd (similaritySearch file query k threshold st))
| reach_keywordSearch file query k st :
    reachable st -> reachable (snd (keywordSearch file query k st))
| reach_questionSearch file query k threshold st :
    reachable st ->
    reachable (snd (questionSearch file query k threshold st)).

(** ** The scorers and the searches in binary64

    The numbers of the source are IEEE 754 doubles.  Which documents reach
    the threshold and which of two scores is the greater depends on how a
    quotient or a sum is rounded, so the scorers and the three searches are
    read again with every arithmetic operation giving the exact result
    rounded to 53 significant bits, ties to the even neighbour.  The
    exponent range of the format is not written out: a quotient of two array
    lengths (below 2^32), the sum of such a quotient with at most seven
    tenths, a keyword score and the difference of two scores stay far inside
    it.  The example [round_agrees_with_SpecFloat] below compares the
    rounding with the Standard Library's specification of the format. *)

Module Binary64.

(** The exponent of the leading bit of the positive fraction [n / d]:
    [2 ^ ilog2 n d <= n / d < 2 ^ (ilog2 n d + 1)]. *)
Definition ilog2 (n d : Z) : Z :=
  let a := Z.log2 n in
  let b := Z.log2 d in
  if (d * 2 ^ a <=? n * 2 ^ b)%Z then (a - b)%Z else (a - b - 1)%Z.

(** The integer nearest to [n / d]; of two that are equally near, the even
    one. *)
Definition nearest_even (n d : Z) : Z :=
  let f := (n / d)%Z in
  match (2 * (n mod d) ?= d)%Z with
  | Lt => f
  | Gt => (f + 1)%Z
  | Eq => if Z.even f then f else (f + 1)%Z
  end.

(** [m * 2 ^ e]. *)
Definition scaled (m e : Z) : Q :=
  if (0 <=? e)%Z then inject_Z (m * 2 ^ e) else m # Z.to_pos (2 ^ (- e)).

(** The positive fraction [n / d] rounded to 53 significant bits. *)
Definition round_positive (n d : Z) : Q :=
  let e := (ilog2 n d - 52)%Z in
  let m :=
    if (0 <=? e)%Z then nearest_even n (d * 2 ^ e)
    else nearest_even (n * 2 ^ (- e)) d in
  scaled m e.

(** The double nearest to [q], with [q] taken in lowest terms: also what a
    decimal literal of the source denotes. *)
Definition round (q : Q) : Q :=
  let r := Qred q in
  match Qnum r with
  | Z0 => 0
  | Zpos n => round_positive (Zpos n) (Zpos (Qden r))
  | Zneg n => - round_positive (Zpos n) (Zpos (Qden r))
  end.

(** [a / b] on two array lengths. *)
Definition length_ratio (a b : nat) : number :=
  match b with
  | O => NaN
  | S _ => Fin (round (Z.of_nat a # Pos.of_nat b))
  end.

(** [x + y] with a finite right operand. *)
Definition add (x : number) (y : Q) : number :=
  match x with
  | Fin q => Fin (round (q + y))
  | NaN => NaN
  end.

Definition jaccard (queryTokens docTokens : list str) : number :=
  length_ratio (length (intersection queryTokens docTokens))
    (length (union queryTokens docTokens)).

Definition questionBoost (queryTokens docTokens : list str) : Q :=
  fold_left
    (fun questionBoost word =>
       if (array_includes queryTokens word
           && array_includes docTokens word)%bool
       then round (questionBoost + round 0.1) else questionBoost)
    questionWords 0%Q.

Definition calculateQuestionSimilarity (queryTokens docTokens : list str)
    : number :=
  Math_min
    (add (jaccard queryTokens docTokens)
       (questionBoost queryTokens docTokens)) 1.

(** The comparator [(a, b) => b.similarity - a.similarity]. *)
Definition by_similarity (a b : ScoredResult.t) : Q :=
  round (ScoredResult.similarity b - ScoredResult.similarity a).

Fixpoint sort_insert (a : ScoredResult.t) (sorted : list ScoredResult.t)
    : list ScoredResult.t :=
  match sorted with
  | [] => [a]
  | b :: rest =>
    match (by_similarity a b ?= 0)%Q with
    | Gt => b :: sort_insert a rest
    | _ => a :: sorted
    end
  end.

Definition sort (results : list ScoredResult.t) : list ScoredResult.t :=
  fold_right sort_insert [] results.

Fixpoint similarity_scan (queryTokens : list str) (threshold : Q)
    (docs : list Document.t) : list ScoredResult.t :=
  match docs with
  | [] => []
  | doc :: rest =>
    match calculateQuestionSimilarity queryTokens (Document.tokens doc) with
    | Fin similarity =>
      if Qle_bool threshold similarity then
        {| ScoredResult.document := Document.content doc;
           ScoredResult.metadata := Document.metadata doc;
           ScoredResult.similarity := similarity |}
        :: similarity_scan queryTokens threshold rest
      else similarity_scan queryTokens threshold rest
    | NaN => similarity_scan queryTokens threshold rest
    end
  end.

Definition similaritySearch (file : outcome (list Row.t)) (query : str)
    (k : nat) (threshold : Q) : M (list ScoredResult.t) :=
  try_catch
    (initialize file ;;;
     this <- get ;;
     let queryTokens := tokenize (toLowerCase query) in
     let results := similarity_scan queryTokens threshold (documents this) in
     let topResults := slice0 (sort results) k in
     ret topResults)
    (fun error => ret []).

(** The score [keywordSearch] accumulates for one document, every [+=]
    rounded. *)
Definition keyword_score (queryLower : str) (queryWords : list str)
    (doc : Document.t) : Q :=
  let questionLower :=
    toLowerCase (Metadata.question (Document.metadata doc)) in
  let answerLower := toLowerCase (Metadata.answer (Document.metadata doc)) in
  let score := 0%Q in
  let score :=
    if includes questionLower queryLower then round (score + 3) else score in
  let score :=
    if includes answerLower queryLower then round (score + 2) else score in
  let score :=
    fold_left
      (fun score word =>
         let score :=
           if includes questionLower word then round (score + 2) else score in
         if includes answerLower word then round (score + 1) else score)
      queryWords score in
  if includes (toLowerCase (Metadata.source (Document.metadata doc)))
       queryLower
  then round (score + round 0.5) else score.

Fixpoint keyword_scan (queryLower : str) (queryWords : list str)
    (docs : list Document.t) : list ScoredResult.t :=
  match docs with
  | [] => []
  | doc :: rest =>
    let score := keyword_score queryLower queryWords doc in
    match (score ?= 0)%Q with
    | Gt =>
      {| ScoredResult.document := Document.content doc;
         ScoredResult.metadata := Document.metadata doc;
         ScoredResult.similarity := round (score / 10) |}
      :: keyword_scan queryLower queryWords rest
    | _ => keyword_scan queryLower queryWords rest
    end
  end.

Definition keywordSearch (file : outcome (list Row.t)) (query : str)
    (k : nat) : M (list ScoredResult.t) :=
  try_catch
    (initialize file ;;;
     this <- get ;;
     let queryLower := toLowerCase query in
     let queryWords :=
       filter (fun word => 2 <? length word) (split_ws queryLower) in
     let results := keyword_scan queryLower queryWords (documents this) in
     let topResults := slice0 (sort results) k in
     ret topResults)
    (fun error => ret []).

Definition questionSearch (file : outcome (list Row.t)) (query : str)
    (k : nat) (threshold : Q) : M (list ScoredResult.t) :=
  try_catch
    (similarityResults <- similaritySearch file query k threshold ;;
     keywordResults <- keywordSearch file query k ;;
     let allResults := similarityResults ++ keywordResults in
     let uniqueResults := unique_scan [] allResults in
     let finalResults := slice0 (sort uniqueResults) k in
     ret finalResults)
    (fun error => ret []).

End Binary64.

(** The value of a finite float of the Standard Library's specification of
    IEEE 754 arithmetic, and the double of an integer. *)
Definition float_value (x : SpecFloat.spec_float) : option Q :=
  match x with
  | SpecFloat.S754_zero _ => Some 0%Q
  | SpecFloat.S754_finite s m e =>
    Some (Binary64.scaled (SpecFloat.cond_Zopp s (Z.pos m)) e)
  | _ => None
  end.

Definition float_of_Z (z : Z) : SpecFloat.spec_float :=
  SpecFloat.binary_normalize 53 1024 z 0 false.

Definition is_value (x : SpecFloat.spec_float) (q : Q) : bool :=
  match float_value x with
  | Some v => Qeq_bool v q
  | None => false
  end.

(** ** Notions the statements use *)

(** The documents [load_loop] pushes for the records from [index] on. *)
Fixpoint load_from (index : nat) (data : list Row.t) : list Document.t :=
  match data with
  | [] => []
  | row :: rest =>
    match load_row index row with
    | Some doc => doc :: load_from (S index) rest
    | None => load_from (S index) rest
    end
  end.

Definition doc_id (doc : Document.t) : nat :=
  Metadata.qa_pair_id (Document.metadata doc).

(** The entry a scorer pushes for [doc] with score [score]. *)
Definition entry (doc : Document.t) (score : Q) : ScoredResult.t :=
  {| ScoredResult.document := Document.content doc;
     ScoredResult.metadata := Document.metadata doc;
     ScoredResult.similarity := score |}.

(** No entry is followed by one with a higher score. *)
Definition descending (results : list ScoredResult.t) : Prop :=
  StronglySorted
    (fun a b => (ScoredResult.similarity b <= ScoredResult.similarity a)%Q)
    results.

(** [a] ranks before [b]: a higher score, or the same score and an earlier
    place in the corpus. *)
Definition ranks_before (a b : ScoredResult.t) : Prop :=
  (ScoredResult.similarity b < ScoredResult.similarity a)%Q
  \/ ((ScoredResult.similarity a == ScoredResult.similarity b)%Q
      /\ ScoredResult.qa_pair_id a < ScoredResult.qa_pair_id b).

(** The Jaccard index as the specification words it: both sizes are taken
    of sets of tokens. *)
Definition jaccard_of_sets (queryTokens docTokens : list str) : number :=
  length_ratio
    (length (filter (fun token => array_includes docTokens token)
               (set_of queryTokens)))
    (length (set_of (queryTokens ++ docTokens))).

Definition points (hit : bool) (p : Q) : Q := if hit then p else 0%Q.

(** The keyword score as a sum of independent clauses, over the texts the
    clauses are matched against. *)
Definition keyword_formula (question answer source : str)
    (queryLower : str) : Q :=
  ((points (includes question queryLower) 3
    + points (includes answer queryLower) 2
    + fold_right Qplus 0
        (map (fun word =>
                points (includes question word) 2
                + points (includes answer word) 1)
           (filter (fun word => 2 <? length word) (split_ws queryLower)))
    + points (includes source queryLower) 0.5) / 10)%Q.

(** The clauses matched against the fields as stored. *)
Definition keyword_formula_stored_fields (query : str) (doc : Document.t)
    : Q :=
  keyword_formula
    (Metadata.question (Document.metadata doc))
    (Metadata.answer (Document.metadata doc))
    (Metadata.source (Document.metadata doc))
    (toLowerCase query).

(** The clauses matched against the lower-cased fields. *)
Definition keyword_formula_lower_fields (query : str) (doc : Document.t)
    : Q :=
  keyword_formula
    (toLowerCase (Metadata.question (Document.metadata doc)))
    (toLowerCase (Metadata.answer (Document.metadata doc)))
    (toLowerCase (Metadata.source (Document.metadata doc)))
    (toLowerCase query).

(** A record the loader keeps: both texts present, and after trimming at
    least ten code units long and not the placeholder. *)
Definition kept (row : Row.t) : Prop :=
  exists question answer,
    Row.question row = Some question /\ Row.answer row = Some answer
    /\ 10 <= length (trim question) /\ 10 <= length (trim answer)
    /\ trim question <> lit "nan" /\ trim answer <> lit "nan".

(** The store a successful load of [data] leaves. *)
Definition loaded (data : list Row.t) (st : store) : store :=
  {| documents := load_from 0 data; initialized := initialized st |}.

(** Sorting and truncating, and the list each search returns once the
    index is there. *)
Definition top (k : nat) (results : list ScoredResult.t)
    : list ScoredResult.t :=
  slice0 (sort results) k.

Definition similarity_results (query : str) (k : nat) (threshold : Q)
    (docs : list Document.t) : list ScoredResult.t :=
  top k (similarity_scan (tokenize (toLowerCase query)) threshold docs).

Definition keyword_results (query : str) (k : nat) (docs : list Document.t)
    : list ScoredResult.t :=
  top k
    (keyword_scan (toLowerCase query)
       (filter (fun word => 2 <? length word) (split_ws (toLowerCase query)))
       docs).

Definition fused (k : nat) (similarityResults keywordResults
    : list ScoredResult.t) : list ScoredResult.t :=
  top k (unique_scan [] (similarityResults ++ keywordResults)).

(** What a scan pushes for one document: its score, if it passes. *)
Definition similarity_pick (queryTokens : list str) (threshold : Q)
    (doc : Document.t) : option Q :=
  match calculateQuestionSimilarity queryTokens (Document.tokens doc) with
  | Fin similarity =>
    if Qle_bool threshold similarity then Some similarity else None
  | NaN => None
  end.

Definition keyword_pick (queryLower : str) (queryWords : list str)
    (doc : Document.t) : option Q :=
  match (keyword_score queryLower queryWords doc ?= 0)%Q with
  | Gt => Some (keyword_score queryLower queryWords doc / 10)%Q
  | _ => None
  end.

Fixpoint scan_with (pick : Document.t -> option Q) (docs : list Document.t)
    : list ScoredResult.t :=
  match docs with
  | [] => []
  | doc :: rest =>
    match pick doc with
    | Some score => entry doc score :: scan_with pick rest
    | None => scan_with pick rest
    end
  end.

(** The same for the scorer in binary64. *)
Definition binary64_pick (queryTokens : list str) (threshold : Q)
    (doc : Document.t) : option Q :=
  match Binary64.calculateQuestionSimilarity queryTokens
          (Document.tokens doc) with
  | Fin similarity =>
    if Qle_bool threshold similarity then Some similarity else None
  | NaN => None
  end.

Definition binary64_results (query : str) (k : nat) (threshold : Q)
    (docs : list Document.t) : list ScoredResult.t :=
  top k
    (Binary64.similarity_scan (tokenize (toLowerCase query)) threshold docs).

Definition binary64_keyword_pick (queryLower : str) (queryWords : list str)
    (doc : Document.t) : option Q :=
  match (Binary64.keyword_score queryLower queryWords doc ?= 0)%Q with
  | Gt =>
    Some (Binary64.round
            (Binary64.keyword_score queryLower queryWords doc / 10))
  | _ => None
  end.

Definition binary64_keyword_results (query : str) (k : nat)
    (docs : list Document.t) : list ScoredResult.t :=
  top k
    (Binary64.keyword_scan (toLowerCase query)
       (filter (fun word => 2 <? length word) (split_ws (toLowerCase query)))
       docs).

(** Sample inputs. *)
Definition row (question answer : string) (source : option string) : Row.t :=
  {| Row.question := Some (lit question);
     Row.answer := Some (lit answer);
     Row.source := option_map lit source |}.

Definition ENOENT : error := Error (lit "ENOENT: no such file or directory").

Definition ECONNREFUSED : error :=
  Error (lit "connect ECONNREFUSED 127.0.0.1:11434").

(** The one-record corpus of the specification's example. *)
Definition password_corpus : list Row.t :=
  [row "How do I reset my password?" "Go to settings and click reset."
     (Some "wiki"%string)].

(** A record whose answer is too short, between two that are kept. *)
Definition gapped_corpus : list Row.t :=
  [row "How do I reset my password?" "Go to settings and click reset." None;
   row "Where is the deploy log?" "In CI" (Some "wiki"%string);
   row "Which team owns the build cluster?"
     "The platform team owns the build cluster." (Some "handbook"%string)].

(** A short question, and a longer one that contains it. *)
Definition portal_corpus : list Row.t :=
  [row "reset password now" "go to the settings page" None;
   row "how can one reset password now after being locked out from the portal"
     "reset password now by email" None].

(** Against the query "how and what signing keys rotate safely quarterly":
    the first question shares seven of ten tokens and one question word, the
    second six of ten and two question words. *)
Definition boundary_corpus : list Row.t :=
  [row "how and signing keys rotate safely quarterly every year"
     "Follow the rotation runbook." None;
   row "how what signing keys rotate safely every year"
     "Follow the rotation runbook." None].

(** ** More of the runtime, for the callers and the further properties *)

(** [Array.prototype.join]. *)
Fixpoint join (sep : str) (l : list str) : str :=
  match l with
  | [] => []
  | t :: rest =>
    match rest with
    | [] => t
    | _ :: _ => t ++ sep ++ join sep rest
    end
  end.

(** The characters [a-z0-9_]. *)
Definition is_token_char (c : ascii) : bool :=
  (between 97 122 (code c) || between 48 57 (code c) || N.eqb (code c) 95)%bool.

(** [s.replace(/\*\*/g, '')]: the occurrences of two asterisks are removed
    from left to right, and what a removal brings together is not looked at
    again. *)
Definition is_asterisk (c : ascii) : bool := N.eqb (code c) 42.

Fixpoint remove_double_asterisks (s : str) : str :=
  match s with
  | [] => []
  | c :: s' =>
    match s' with
    | c' :: s'' =>
      if (is_asterisk c && is_asterisk c')%bool
      then remove_double_asterisks s''
      else c :: remove_double_asterisks s'
    | [] => [c]
    end
  end.

(** The character class [[A-Z0-9]]. *)
Definition is_upper_or_digit (c : ascii) : bool :=
  (between 65 90 (code c) || between 48 57 (code c))%bool.

(** The length of a match of [[A-Z0-9]+>] at the start of [s], having read
    [n] characters of the class: the run is read to its end, since no
    shorter run is followed by [>]. *)
Fixpoint user_id_length (n : nat) (s : str) : option nat :=
  match s with
  | [] => None
  | c :: s' =>
    if is_upper_or_digit c then user_id_length (S n) s'
    else if (N.eqb (code c) 62 && (0 <? n))%bool then Some (S n)
    else None
  end.

(** The length of a match of [/<@[A-Z0-9]+>/] at the start of [s]. *)
Definition mention_length (s : str) : option nat :=
  match s with
  | c :: c' :: s' =>
    if (N.eqb (code c) 60 && N.eqb (code c') 64)%bool
    then option_map (fun n => 2 + n) (user_id_length 0 s')
    else None
  | _ => None
  end.

(** [s.replace(/<@[A-Z0-9]+>/g, '')], with [skip] characters of a match
    still to drop. *)
Fixpoint remove_mentions_from (skip : nat) (s : str) : str :=
  match s with
  | [] => []
  | c :: s' =>
    match skip with
    | S n => remove_mentions_from n s'
    | O =>
      match mention_length s with
      | Some (S n) => remove_mentions_from n s'
      | _ => c :: remove_mentions_from 0 s'
      end
    end
  end.

Definition remove_mentions (s : str) : str := remove_mentions_from 0 s.

(** A line feed, [\n] in the source's literals. *)
Definition nl : str := ["010"%char].

(** The index is there, or the file can be read. *)
Definition available (file : outcome (list Row.t)) (st : store) : Prop :=
  initialized st = true \/ exists data, file = Returned data.

(** The load, if one is due, settles: the index is there, or the read
    stream delivers the file and the promise of [loadCSV] resolves or
    rejects. *)
Definition settles (file : outcome (list Row.t)) (st : store) : Prop :=
  initialized st = true \/ forall e, file <> Uncaught e.

(** ** The tokenizer over 16-bit code units

    The functions that decide a document's tokens, written again over code
    units as numbers, for the code units the 8-bit character type lacks. *)

Module UTF16.

(** A string as the list of its 16-bit code units. *)
Definition str := list N.

(** [\s] over all code units: the white space and line terminators of
    ECMAScript. *)
Definition is_space (c : N) : bool :=
  (between 9 13 c || N.eqb c 32 || N.eqb c 160 || N.eqb c 5760
   || between 8192 8202 c || N.eqb c 8232 || N.eqb c 8233 || N.eqb c 8239
   || N.eqb c 8287 || N.eqb c 12288 || N.eqb c 65279)%bool.

(** [\w]: [A-Za-z0-9_], whatever the other code units are. *)
Definition is_word (c : N) : bool :=
  (between 48 57 c || between 65 90 c || N.eqb c 95 || between 97 122 c)%bool.

(** The lower-case form of one code unit, for the code units written out
    here: U+0000 to U+00FF as in [lower_char], and the two code units above
    them whose lower-case form holds a word character, U+0130 LATIN CAPITAL
    LETTER I WITH DOT ABOVE (to "i" and U+0307) and U+212A KELVIN SIGN (to
    "k").  About the other code units nothing is said. *)
Definition lower_unit (c : N) : option str :=
  if N.leb c 255 then Some [code (lower_char (ascii_of_N c))]
  else if N.eqb c 304 then Some [105; 775]%N
  else if N.eqb c 8490 then Some [107]%N
  else None.

(** [String.prototype.toLowerCase], where every code unit is written out. *)
Fixpoint toLowerCase (s : str) : option str :=
  match s with
  | [] => Some []
  | c :: s' =>
    match lower_unit c, toLowerCase s' with
    | Some l, Some rest => Some (l ++ rest)
    | _, _ => None
    end
  end.

Definition replace_non_word_space (text : str) : str :=
  map (fun c => if (is_word c || is_space c)%bool then c else 32%N) text.

Fixpoint split_ws (s : str) : list str :=
  match s with
  | [] => [[]]
  | c :: s' =>
    if is_space c then
      match s' with
      | c' :: _ => if is_space c' then split_ws s' else [] :: split_ws s'
      | [] => [] :: split_ws s'
      end
    else
      match split_ws s' with
      | piece :: pieces => (c :: piece) :: pieces
      | [] => [[c]]
      end
  end.

Fixpoint all {A : Type} (l : list (option A)) : option (list A) :=
  match l with
  | [] => Some []
  | Some a :: rest => option_map (cons a) (all rest)
  | None :: _ => None
  end.

Definition tokenize (text : str) : option (list str) :=
  all (map (fun token => toLowerCase token)
         (filter (fun token => 2 <? length token)
            (split_ws (replace_non_word_space text)))).



End UTF16.

(** ** The caller: [class RAGPipeline] *)

Module RAGPipeline.

(** The fields of a [RAGPipeline] object that change; the vector store is
    the object's own. *)
Record t : Type := mk {
  vectorStore : store;
  initialized : bool
}.

(** [new RAGPipeline()]. *)
Definition new : t :=
  {| vectorStore := SimpleVectorStore_new; initialized := false |}.

Definition modelName : str := lit "llama3.2:1b".

(** State and exceptions over the pipeline object. *)
Definition P (A : Type) : Type := t -> outcome A * t.

Definition ret {A : Type} (a : A) : P A := fun this => (Returned a, this).

Definition throw {A : Type} (e : error) : P A :=
  fun this => (Thrown e, this).

Definition bind {A B : Type} (m : P A) (k : A -> P B) : P B :=
  fun this =>
    match m this with
    | (Returned a, this') => k a this'
    | (Thrown e, this') => (Thrown e, this')
    | (Uncaught e, this') => (Uncaught e, this')
    end.

Definition try_catch {A : Type} (m : P A) (h : error -> P A) : P A :=
  fun this =>
    match m this with
    | (Returned a, this') => (Returned a, this')
    | (Thrown e, this') => h e this'
    | (Uncaught e, this') => (Uncaught e, this')
    end.

Definition get : P t := fun this => (Returned this, this).

Definition set_initialized (b : bool) : P unit :=
  fun this =>
    (Returned tt, {| vectorStore := vectorStore this; initialized := b |}).

(** [await] on the promise of a request. *)
Definition await {A : Type} (r : reply A) : P A :=
  fun this =>
    (match r with
     | Resolved a => Returned a
     | Rejected e => Thrown e
     end, this).

(** A method call on [this.vectorStore]. *)
Definition on_vectorStore {A : Type} (m : M A) : P A :=
  fun this =>
    match m (vectorStore this) with
    | (result, store') =>
      (result,
       {| vectorStore := store'; initialized := initialized this |})
    end.

Notation "x <~ m ;; k" := (bind m (fun x => k))
  (at level 61, m at next level, right associativity).
Notation "m ;;~ k" := (bind m (fun _ => k))
  (at level 61, right associativity).

Definition message (e : error) : str :=
  match e with
  | Error message => message
  end.

Section World.

(** What the methods get from outside: the outcome of reading the CSV
    file; for each prompt, the outcome of the POST to the model, a response
    whose [data.response] is a string or is missing, or a failed request;
    the outcome of the GET of the model list, the names of the models (or no
    list), or a failed request.  The literal of the sources line starts with
    the character U+1F4DA, which lies outside the character type: its code
    units are a parameter. *)
Variable file : outcome (list Row.t).
Variable post : str -> reply (option str).
Variable tags : reply (option (list str)).
Variable books : str.

Definition initialize : P unit :=
  this <~ get ;;
  if negb (initialized this) then
    on_vectorStore (initialize file) ;;~
    set_initialized true
  else ret tt.

Definition callLocalAI (prompt : str) : P str :=
  try_catch
    (response <~ await (post prompt) ;;
     if truthy response then ret (trim (or_else response []))
     else throw (Error (lit "Invalid response format from AI model")))
    (fun error =>
       throw (Error (lit "Unable to connect to local AI model: "
                     ++ message error))).

Definition createPrompt (userQuestion : str)
    (contextQA : list ScoredResult.t) : str :=
  let context :=
    fold_left
      (fun context result =>
         let metadata := ScoredResult.metadata result in
         let question := Metadata.question metadata in
         let answer := Metadata.answer metadata in
         let source := Metadata.source metadata in
         context ++ lit "Source: " ++ source ++ nl ++ lit "Q: " ++ question
           ++ nl ++ nl ++ lit "A: " ++ answer ++ nl ++ nl)
      contextQA [] in
  lit "You are a helpful AI assistant for the platform team's knowledge base. Answer questions based ONLY on the provided context."
  ++ nl ++ nl
  ++ lit "Be concise and helpful. If you don't have enough information, say so clearly."
  ++ nl ++ nl
  ++ lit "Context from knowledge base:" ++ nl
  ++ context ++ nl ++ nl
  ++ lit "Question: " ++ userQuestion ++ nl ++ nl
  ++ lit "Answer:".

Definition getBotResponse (query : str) : P str :=
  try_catch
    (initialize ;;~
     relevantQuestions <~ on_vectorStore (questionSearch file query 5 0.3) ;;
     match relevantQuestions with
     | [] =>
       ret (lit "Sorry, I couldn't find relevant information in the knowledge base for your question. Please contact the platform team directly.")
     | bestMatch :: _ =>
       let prompt := createPrompt query relevantQuestions in
       try_catch
         (aiResponse <~ callLocalAI prompt ;;
          let sources :=
            map (fun result =>
                   Metadata.source (ScoredResult.metadata result))
              (slice0 relevantQuestions 3) in
          let uniqueSources := set_of sources in
          let sourcesInfo :=
            if 0 <? length uniqueSources
            then nl ++ nl ++ books ++ lit " Sources: "
                 ++ join (lit ", ") (slice0 uniqueSources 2)
            else [] in
          let fullResponse := aiResponse ++ sourcesInfo in
          ret fullResponse)
         (fun aiError =>
            let metadata := ScoredResult.metadata bestMatch in
            let fallbackResponse :=
              lit "Based on the knowledge base:" ++ nl ++ nl
              ++ Metadata.answer metadata in
            let fallbackResponse :=
              if truthy (Some (Metadata.source metadata))
              then fallbackResponse ++ nl ++ nl ++ books ++ lit " Source: "
                   ++ Metadata.source metadata
              else fallbackResponse in
            ret fallbackResponse)
     end)
    (fun error => ret (lit "Sorry, I encountered an error: " ++ message error)).

Definition checkModelStatus : P bool :=
  try_catch
    (response <~ await tags ;;
     let models :=
       match response with
       | Some models => models
       | None => []
       end in
     let hasModel := existsb (fun name => includes name modelName) models in
     if hasModel then ret true else ret false)
    (fun error => ret false).

End World.

End RAGPipeline.

(** ** The module function [getBotResponse] of the pipeline file, on the
    singleton [ragPipeline] *)
Definition getBotResponse (file : outcome (list Row.t))
    (post : str -> reply (option str)) (tags : reply (option (list str)))
    (books : str) (query : str) : RAGPipeline.P str :=
  RAGPipeline.try_catch
    (RAGPipeline.bind (RAGPipeline.checkModelStatus tags)
       (fun modelAvailable =>
          RAGPipeline.getBotResponse file post books query))
    (fun error =>
       RAGPipeline.ret
         (lit "Sorry, I encountered an error: " ++ RAGPipeline.message error)).

(** A result entry for the specification's example document. *)
Definition password_entry : ScoredResult.t :=
  {| ScoredResult.document := lit "How do I reset my password?";
     ScoredResult.metadata :=
       {| Metadata.source := lit "wiki";
          Metadata.question := lit "How do I reset my password?";
          Metadata.answer := lit "Go to settings and click reset.";
          Metadata.qa_pair_id := 0;
          Metadata.question_length := 27;
          Metadata.answer_length := 31;
          Metadata.type := lit "qa" |};
     ScoredResult.similarity := 1 |}.

(** ** The chat handlers *)

(** The fields of a Slack event the handlers read; each may be missing. *)
Module SlackEvent.
Record t : Type := mk {
  text : option str;
  channel_type : option str;
  user : option str;
  bot_id : option str
}.
End SlackEvent.

(** A destructuring default: [const { field = d } = event]. *)
Definition or_default (v : option str) (d : str) : str :=
  match v with
  | Some s => s
  | None => d
  end.

(** What a run of a handler has done so far: the pipeline as it is now, and
    the calls of [say] in order, each with whether Slack accepted the
    message. *)
Module Chat.

Record t : Type := mk {
  pipeline : RAGPipeline.t;
  said : list (str * bool)
}.

Definition H (A : Type) : Type := t -> outcome A * t.

Definition ret {A : Type} (a : A) : H A := fun chat => (Returned a, chat).

Definition bind {A B : Type} (m : H A) (k : A -> H B) : H B :=
  fun chat =>
    match m chat with
    | (Returned a, chat') => k a chat'
    | (Thrown e, chat') => (Thrown e, chat')
    | (Uncaught e, chat') => (Uncaught e, chat')
    end.

Definition try_catch {A : Type} (m : H A) (h : error -> H A) : H A :=
  fun chat =>
    match m chat with
    | (Returned a, chat') => (Returned a, chat')
    | (Thrown e, chat') => h e chat'
    | (Uncaught e, chat') => (Uncaught e, chat')
    end.

(** A call into the pipeline module. *)
Definition on_pipeline {A : Type} (m : RAGPipeline.P A) : H A :=
  fun chat =>
    match m (pipeline chat) with
    | (result, pipeline') =>
      (result, {| pipeline := pipeline'; said := said chat |})
    end.

(** The messages Slack accepted. *)
Definition delivered (chat : t) : list str :=
  map fst (filter snd (said chat)).

(** A handler starts with nothing said. *)
Definition start (pipeline : RAGPipeline.t) : t :=
  {| pipeline := pipeline; said := [] |}.

End Chat.

Section Handlers.

(** The world of the pipeline; the code units of the character U+1F44B in
    the two greetings; and Slack: [slack said text] is how the post of
    [text] ends after the calls of [say] recorded in [said]. *)
Variable file : outcome (list Row.t).
Variable post : str -> reply (option str).
Variable tags : reply (option (list str)).
Variable books : str.
Variable wave : str.
Variable slack : list (str * bool) -> str -> reply unit.

(** [await say(text)]: the post succeeds, or its promise rejects. *)
Definition say (text : str) : Chat.H unit :=
  fun chat =>
    match slack (Chat.said chat) text with
    | Resolved _ =>
      (Returned tt,
       {| Chat.pipeline := Chat.pipeline chat;
          Chat.said := Chat.said chat ++ [(text, true)] |})
    | Rejected e =>
      (Thrown e,
       {| Chat.pipeline := Chat.pipeline chat;
          Chat.said := Chat.said chat ++ [(text, false)] |})
    end.

(** The handler of [message] events. *)
Definition message_handler (event : SlackEvent.t) : Chat.H unit :=
  Chat.try_catch
    (let text := or_default (SlackEvent.text event) [] in
     let channel_type := or_default (SlackEvent.channel_type event) [] in
     if truthy (SlackEvent.bot_id event) then Chat.ret tt
     else if ((if str_eq_dec channel_type (lit "im") then true else false)
              || includes text (lit "<@"))%bool then
       let lowerText := toLowerCase text in
       if (includes lowerText (lit "hello")
           || includes lowerText (lit "hi"))%bool then
         say (lit "Hi there! " ++ wave
              ++ lit " Ask me anything about the platform knowledge base!")
       else
         Chat.try_catch
           (Chat.bind
              (Chat.on_pipeline (getBotResponse file post tags books text))
              (fun response => say response))
           (fun error =>
              say (lit "Sorry, I encountered an error processing your message."))
     else Chat.ret tt)
    (fun error =>
       say (lit "Sorry, I encountered an error processing your message.")).

(** The handler of [app_mention] events. *)
Definition app_mention_handler (event : SlackEvent.t) : Chat.H unit :=
  Chat.try_catch
    (let text := or_default (SlackEvent.text event) [] in
     let user := or_default (SlackEvent.user event) [] in
     let cleanText := trim (remove_mentions text) in
     if truthy (Some cleanText) then
       let lowerText := toLowerCase cleanText in
       if (includes lowerText (lit "hello")
           || includes lowerText (lit "hi"))%bool then
         say (lit "Hi there! " ++ wave
              ++ lit " How can I assist you with the platform knowledge base?")
       else
         Chat.try_catch
           (Chat.bind
              (Chat.on_pipeline
                 (getBotResponse file post tags books cleanText))
              (fun response =>
                 let cleanResponse := remove_double_asterisks response in
                 say (lit "<@" ++ user ++ lit "> " ++ cleanResponse)))
           (fun error =>
              say (lit "<@" ++ user
                   ++ lit "> Sorry, I encountered an error processing your request."))
     else
       say (lit "<@" ++ user
            ++ lit "> Hi! How can I help you with the platform knowledge base?"))
    (fun error => say (lit "Sorry, I encountered an error.")).

End Handlers.

(** The conditions the handlers branch on, for the statements below. *)

(** The message is a direct message or contains the start of a mention. *)
Definition addressed (event : SlackEvent.t) : bool :=
  ((if str_eq_dec (or_default (SlackEvent.channel_type event) [])
         (lit "im") then true else false)
   || includes (or_default (SlackEvent.text event) []) (lit "<@"))%bool.

(** The lower-cased text contains "hello" or "hi" somewhere. *)
Definition has_greeting (text : str) : bool :=
  (includes (toLowerCase text) (lit "hello")
   || includes (toLowerCase text) (lit "hi"))%bool.

(** The apology of the [message] handler's two [catch] blocks. *)
Definition sorry_message : str :=
  lit "Sorry, I encountered an error processing your message.".

(** Slack accepted the message. *)
Definition accepted (r : reply unit) : bool :=
  match r with
  | Resolved _ => true
  | Rejected _ => false
  end.

(** A post and, when it fails, the posts of the handlers that catch the
    failure in turn: what is said, and how the run ends. *)
Fixpoint say_with_retries (slack : list (str * bool) -> str -> reply unit)
    (text : str) (retries : list str) (said : list (str * bool))
    : outcome unit * list (str * bool) :=
  match slack said text with
  | Resolved _ => (Returned tt, said ++ [(text, true)])
  | Rejected e =>
    match retries with
    | [] => (Thrown e, said ++ [(text, false)])
    | next :: rest =>
      say_with_retries slack next rest (said ++ [(text, false)])
    end
  end.

(** ** Characters and the tokenizer *)

Ltac each_char c :=
  destruct c as [[] [] [] [] [] [] [] []]; vm_compute; reflexivity.



Lemma lower_char_idem (c : ascii) : lower_char (lower_char c) = lower_char c.
Proof. each_char c. Qed.

Lemma toLowerCase_idem (s : str) : toLowerCase (toLowerCase s) = toLowerCase s.
Proof.
  unfold toLowerCase. rewrite map_map.
  apply map_ext. intro c. apply lower_char_idem.
Qed.

Lemma toLowerCase_length (s : str) : length (toLowerCase s) = length s.
Proof. apply length_map. Qed.


Lemma split_ws_cons (c : ascii) (s : str) :
  split_ws (c :: s)
  = if is_space c then
      match s with
      | c' :: _ => if is_space c' then split_ws s else [] :: split_ws s
      | [] => [] :: split_ws s
      end
    else
      match split_ws s with
      | piece :: pieces => (c :: piece) :: pieces
      | [] => [[c]]
      end.
Proof. reflexivity. Qed.




Lemma tokenize_tokens (text : str) :
  Forall (fun token => toLowerCase token = token /\ 2 < length token)
    (tokenize text).
Proof.
  unfold tokenize. apply Forall_forall. intros t Ht.
  apply in_map_iff in Ht. destruct Ht as [p [<- Hp]].
  apply filter_In in Hp. destruct Hp as [_ Hp].
  apply Nat.ltb_lt in Hp.
  split; [apply toLowerCase_idem | rewrite toLowerCase_length; exact Hp].
Qed.











(** ** Loading *)

Lemma load_loop_from (data : list Row.t) :
  forall index documents,
    load_loop index data documents = documents ++ load_from index data.
Proof.
  induction data as [|row rest IH]; intros index docs; cbn [load_loop load_from].
  - symmetry. apply app_nil_r.
  - rewrite IH. destruct (load_row index row); [|reflexivity].
    rewrite <- app_assoc. reflexivity.
Qed.

Lemma truthy_some (v : option str) :
  truthy v = true -> exists s, v = Some s /\ or_else v [] = s.
Proof.
  destruct v as [[|c s]|]; cbn; try discriminate.
  intros _. eexists. split; reflexivity.
Qed.

(** What the loop body stores for a record it keeps. *)
Lemma load_row_some (index : nat) (row : Row.t) (doc : Document.t) :
  load_row index row = Some doc ->
  exists question answer,
    Row.question row = Some question /\ Row.answer row = Some answer
    /\ 10 <= length (trim question) /\ 10 <= length (trim answer)
    /\ trim question <> lit "nan" /\ trim answer <> lit "nan"
    /\ doc =
       {| Document.id := lit "question_" ++ decimal index;
          Document.content := trim question;
          Document.metadata :=
            {| Metadata.source := or_else (Row.source row) (lit "unknown");
               Metadata.question := trim question;
               Metadata.answer := trim answer;
               Metadata.qa_pair_id := index;
               Metadata.question_length := length (trim question);
               Metadata.answer_length := length (trim answer);
               Metadata.type := lit "qa" |};
          Document.tokens := tokenize (toLowerCase (trim question)) |}.
Proof.
  unfold load_row.
  destruct (truthy (Row.question row)) eqn:Hq; [|discriminate].
  destruct (truthy (Row.answer row)) eqn:Ha; [|discriminate].
  apply truthy_some in Hq. destruct Hq as [q [Hq Hq']].
  apply truthy_some in Ha. destruct Ha as [a [Ha Ha']].
  rewrite Hq', Ha'. cbn [andb].
  destruct (str_eq_dec (trim q) (lit "nan")) as [|Hqn];
    [rewrite orb_true_r; discriminate|].
  destruct (length (trim q) <? 10) eqn:Hql;
    [rewrite orb_true_r; discriminate|].
  destruct (negb (truthy (Some (trim q)))); [discriminate|].
  destruct (str_eq_dec (trim a) (lit "nan")) as [|Han];
    [rewrite orb_true_r; discriminate|].
  destruct (length (trim a) <? 10) eqn:Hal;
    [rewrite orb_true_r; discriminate|].
  destruct (negb (truthy (Some (trim a)))); [discriminate|].
  cbn [orb]. intro H. injection H as <-.
  apply Nat.ltb_ge in Hql, Hal.
  exists q, a. repeat split; assumption.
Qed.

Lemma load_row_some_kept (index : nat) (row : Row.t) (doc : Document.t) :
  load_row index row = Some doc -> kept row.
Proof.
  intro H. apply load_row_some in H.
  destruct H as [q [a [Hq [Ha [H1 [H2 [H3 [H4 _]]]]]]]].
  exists q, a. repeat split; assumption.
Qed.

Lemma trim_length (s : str) : length (trim s) <= length s.
Proof.
  assert (Hstart : forall t, length (trimStart t) <= length t).
  { induction t as [|c t IH]; cbn; [lia|].
    destruct (is_space c); cbn; lia. }
  unfold trim. rewrite length_rev.
  etransitivity; [apply Hstart|]. rewrite length_rev. apply Hstart.
Qed.

Lemma kept_load_row (index : nat) (row : Row.t) :
  kept row -> exists doc, load_row index row = Some doc.
Proof.
  intros [q [a [Hq [Ha [H1 [H2 [H3 H4]]]]]]].
  assert (Hq' : truthy (Row.question row) = true /\ or_else (Row.question row) [] = q).
  { rewrite Hq. pose proof (trim_length q).
    destruct q; cbn in *; [lia | split; reflexivity]. }
  assert (Ha' : truthy (Row.answer row) = true /\ or_else (Row.answer row) [] = a).
  { rewrite Ha. pose proof (trim_length a).
    destruct a; cbn in *; [lia | split; reflexivity]. }
  destruct Hq' as [Tq Oq]. destruct Ha' as [Ta Oa].
  unfold load_row. rewrite Tq, Ta, Oq, Oa. cbn [andb].
  assert (Nq : truthy (Some (trim q)) = true)
    by (destruct (trim q); cbn in *; [lia | reflexivity]).
  assert (Na : truthy (Some (trim a)) = true)
    by (destruct (trim a); cbn in *; [lia | reflexivity]).
  rewrite Nq, Na.
  destruct (str_eq_dec (trim q) (lit "nan")); [contradiction|].
  destruct (str_eq_dec (trim a) (lit "nan")); [contradiction|].
  apply Nat.ltb_ge in H1, H2. rewrite H1, H2. cbn.
  eexists. reflexivity.
Qed.

Lemma load_row_id (index : nat) (row : Row.t) (doc : Document.t) :
  load_row index row = Some doc -> doc_id doc = index.
Proof.
  intro H. apply load_row_some in H.
  destruct H as [q [a [_ [_ [_ [_ [_ [_ ->]]]]]]]]. reflexivity.
Qed.

(** A stored document comes from the record at the index it is labelled
    with, and every kept record is stored. *)
Lemma load_from_In (data : list Row.t) :
  forall index doc,
    In doc (load_from index data) <->
    exists j row,
      nth_error data j = Some row /\ load_row (index + j) row = Some doc.
Proof.
  induction data as [|row rest IH]; intros index doc; cbn [load_from].
  - split; [contradiction|].
    intros [j [r [H _]]]. destruct j; discriminate.
  - assert (Hrest :
      In doc (load_from (S index) rest) <->
      exists j r, nth_error (row :: rest) (S j) = Some r
                  /\ load_row (index + S j) r = Some doc).
    { rewrite IH. split; intros [j [r [H1 H2]]]; exists j, r; split; auto.
      - rewrite Nat.add_succ_r. exact H2.
      - rewrite Nat.add_succ_r in H2. exact H2. }
    split.
    + intro H.
      assert (Hcase : load_row index row = Some doc
                      \/ In doc (load_from (S index) rest)).
      { destruct (load_row index row) as [d|]; [|right; exact H].
        destruct H as [->|H]; [left; reflexivity | right; exact H]. }
      destruct Hcase as [H0|H'].
      * exists 0, row. rewrite Nat.add_0_r. split; [reflexivity | exact H0].
      * apply Hrest in H'. destruct H' as [j [r H']]. exists (S j), r. exact H'.
    + intros [j [r [H1 H2]]].
      destruct j as [|j].
      * cbn in H1. injection H1 as <-. rewrite Nat.add_0_r in H2.
        rewrite H2. left. reflexivity.
      * assert (H' : In doc (load_from (S index) rest))
          by (apply Hrest; exists j, r; split; assumption).
        destruct (load_row index row); [right|]; exact H'.
Qed.

Lemma load_from_ids_from (data : list Row.t) :
  forall index, Forall (fun doc => index <= doc_id doc) (load_from index data).
Proof.
  intros index. apply Forall_forall. intros doc H.
  apply load_from_In in H. destruct H as [j [r [_ H]]].
  apply load_row_id in H. lia.
Qed.

(** Identifiers grow strictly along the stored documents. *)
Lemma load_from_ids_increasing (data : list Row.t) :
  forall index, StronglySorted lt (map doc_id (load_from index data)).
Proof.
  induction data as [|row rest IH]; intro index; cbn [load_from].
  - constructor.
  - destruct (load_row index row) as [doc|] eqn:Hrow; [|apply IH].
    cbn [map]. constructor; [apply IH|].
    apply Forall_map.
    eapply Forall_impl; [|apply (load_from_ids_from rest (S index))].
    intros d Hd. cbn beta in Hd. rewrite (load_row_id _ _ _ Hrow). lia.
Qed.

Lemma increasing_NoDup (l : list nat) : StronglySorted lt l -> NoDup l.
Proof.
  induction 1 as [|a l Hl IH Ha]; constructor; [|exact IH].
  intro Hin. rewrite Forall_forall in Ha. specialize (Ha _ Hin). lia.
Qed.

(** ** Runs of the methods *)

Lemma loadDocuments_returned (data : list Row.t) (st : store) :
  loadDocuments (Returned data) st = (Returned tt, loaded data st).
Proof.
  unfold loadDocuments, try_catch, bind, loadCSV, set_documents, loaded.
  rewrite load_loop_from. reflexivity.
Qed.

Lemma loadDocuments_thrown (e : error) (st : store) :
  loadDocuments (Thrown e) st = (Thrown e, st).
Proof. reflexivity. Qed.

Lemma loadDocuments_uncaught (e : error) (st : store) :
  loadDocuments (Uncaught e) st = (Uncaught e, st).
Proof. reflexivity. Qed.

Lemma initialize_done (file : outcome (list Row.t)) (st : store) :
  initialized st = true -> initialize file st = (Returned tt, st).
Proof.
  intro H. unfold initialize, bind, get. rewrite H. reflexivity.
Qed.

Lemma initialize_returned (data : list Row.t) (st : store) :
  initialized st = false ->
  initialize (Returned data) st
  = (Returned tt, {| documents := load_from 0 data; initialized := true |}).
Proof.
  intro H. unfold initialize, bind at 1, get. rewrite H. cbn [negb].
  unfold bind. rewrite loadDocuments_returned. reflexivity.
Qed.

Lemma initialize_thrown (e : error) (st : store) :
  initialized st = false -> initialize (Thrown e) st = (Thrown e, st).
Proof.
  intro H. unfold initialize, bind at 1, get. rewrite H. reflexivity.
Qed.

Lemma initialize_uncaught (e : error) (st : store) :
  initialized st = false -> initialize (Uncaught e) st = (Uncaught e, st).
Proof.
  intro H. unfold initialize, bind at 1, get. rewrite H. reflexivity.
Qed.

(** The four ways a call of [initialize] ends. *)
Lemma initialize_cases (file : outcome (list Row.t)) (st : store) :
  (initialized st = true /\ initialize file st = (Returned tt, st))
  \/ (exists data,
        initialized st = false /\ file = Returned data
        /\ initialize file st
           = (Returned tt,
              {| documents := load_from 0 data; initialized := true |}))
  \/ (exists e,
        initialized st = false /\ file = Thrown e
        /\ initialize file st = (Thrown e, st))
  \/ (exists e,
        initialized st = false /\ file = Uncaught e
        /\ initialize file st = (Uncaught e, st)).
Proof.
  destruct (initialized st) eqn:H.
  - left. split; [reflexivity | apply initialize_done; exact H].
  - right. destruct file as [data|e|e].
    + left. exists data. repeat split. apply initialize_returned. exact H.
    + right. left. exists e. repeat split. apply initialize_thrown. exact H.
    + right. right. exists e. repeat split. apply initialize_uncaught. exact H.
Qed.

Lemma similaritySearch_run file query k threshold st :
  similaritySearch file query k threshold st
  = match initialize file st with
    | (Returned _, st') =>
      (Returned (similarity_results query k threshold (documents st')), st')
    | (Thrown _, st') => (Returned [], st')
    | (Uncaught e, st') => (Uncaught e, st')
    end.
Proof.
  unfold similaritySearch, try_catch, bind.
  destruct (initialize file st) as [[[]|e|e] st']; reflexivity.
Qed.

Lemma keywordSearch_run file query k st :
  keywordSearch file query k st
  = match initialize file st with
    | (Returned _, st') =>
      (Returned (keyword_results query k (documents st')), st')
    | (Thrown _, st') => (Returned [], st')
    | (Uncaught e, st') => (Uncaught e, st')
    end.
Proof.
  unfold keywordSearch, try_catch, bind.
  destruct (initialize file st) as [[[]|e|e] st']; reflexivity.
Qed.

(** When the load, if one is due, settles, [initialize] returns or throws,
    and in both cases the searches return. *)
Lemma settles_initialize file st :
  settles file st ->
  (exists st',
     initialize file st = (Returned tt, st') /\ initialized st' = true)
  \/ (exists e,
        initialize file st = (Thrown e, st) /\ initialized st = false).
Proof.
  intro Hs.
  destruct (initialize_cases file st)
    as [[Hi E]|[[d [Hi [_ E]]]|[[e [Hi [_ E]]]|[e [Hi [Hf _]]]]]]; eauto.
  destruct Hs as [Hs|Hs]; [congruence | contradiction (Hs e)].
Qed.

Lemma similaritySearch_returns file query k threshold st :
  settles file st ->
  exists results st',
    similaritySearch file query k threshold st = (Returned results, st').
Proof.
  intro Hs. rewrite similaritySearch_run.
  destruct (settles_initialize file st Hs) as [[st' [E _]]|[e [E _]]];
    rewrite E; eauto.
Qed.

Lemma keywordSearch_returns file query k st :
  settles file st ->
  exists results st', keywordSearch file query k st = (Returned results, st').
Proof.
  intro Hs. rewrite keywordSearch_run.
  destruct (settles_initialize file st Hs) as [[st' [E _]]|[e [E _]]];
    rewrite E; eauto.
Qed.

Lemma questionSearch_run file query k threshold st
    similarityResults st1 keywordResults st2 :
  similaritySearch file query k threshold st
    = (Returned similarityResults, st1) ->
  keywordSearch file query k st1 = (Returned keywordResults, st2) ->
  questionSearch file query k threshold st
  = (Returned (fused k similarityResults keywordResults), st2).
Proof.
  intros H1 H2. unfold questionSearch, try_catch, bind.
  rewrite H1, H2. reflexivity.
Qed.

Lemma initialize_again (file : outcome (list Row.t)) (st : store) :
  initialize file (snd (initialize file st)) = initialize file st.
Proof.
  destruct (initialize_cases file st)
    as [[Hi E]|[[d [Hi [-> E]]]|[[e [Hi [-> E]]]|[e [Hi [-> E]]]]]];
    rewrite E; cbn [snd].
  - exact E.
  - apply initialize_done. reflexivity.
  - exact E.
  - exact E.
Qed.


(** A search leaves the store as [initialize] leaves it. *)
Lemma similaritySearch_state file query k threshold st :
  snd (similaritySearch file query k threshold st) = snd (initialize file st).
Proof.
  rewrite similaritySearch_run.
  destruct (initialize file st) as [[[]|e|e] st']; reflexivity.
Qed.

Lemma keywordSearch_state file query k st :
  snd (keywordSearch file query k st) = snd (initialize file st).
Proof.
  rewrite keywordSearch_run.
  destruct (initialize file st) as [[[]|e|e] st']; reflexivity.
Qed.

Lemma questionSearch_state file query k threshold st :
  snd (questionSearch file query k threshold st) = snd (initialize file st).
Proof.
  pose proof (similaritySearch_run file query k threshold st) as H1.
  pose proof (keywordSearch_run file query k (snd (initialize file st))) as H2.
  rewrite initialize_again in H2.
  unfold questionSearch, try_catch, bind.
  destruct (initialize file st) as [[[]|e|e] st'] eqn:E; cbn [snd] in *;
    rewrite H1; try rewrite H2; reflexivity.
Qed.

(** Every reachable store holds the documents of some sequence of records
    (none, before the first load). *)
Lemma reachable_loaded (st : store) :
  reachable st -> exists data, documents st = load_from 0 data.
Proof.
  assert (Hinit : forall file st0,
    (exists data, documents st0 = load_from 0 data) ->
    exists data, documents (snd (initialize file st0)) = load_from 0 data).
  { intros file st0 H.
    destruct (initialize_cases file st0)
      as [[_ E]|[[d [_ [_ E]]]|[[e [_ [_ E]]]|[e [_ [_ E]]]]]];
      rewrite E; cbn [snd documents]; eauto. }
  induction 1 as [|file st _ IH|file st _ IH|file q k t st _ IH
                  |file q k st _ IH|file q k t st _ IH].
  - exists []. reflexivity.
  - destruct file as [data|e|e].
    + rewrite loadDocuments_returned. exists data. reflexivity.
    + rewrite loadDocuments_thrown. exact IH.
    + rewrite loadDocuments_uncaught. exact IH.
  - apply Hinit, IH.
  - rewrite similaritySearch_state. apply Hinit, IH.
  - rewrite keywordSearch_state. apply Hinit, IH.
  - rewrite questionSearch_state. apply Hinit, IH.
Qed.

(** ** Sorting and truncation *)

Lemma by_similarity_positive (a b : ScoredResult.t) :
  (by_similarity a b ?= 0)%Q = Gt
  <-> (ScoredResult.similarity a < ScoredResult.similarity b)%Q.
Proof.
  unfold by_similarity. rewrite <- Qgt_alt.
  split; intro H.
  - apply Qlt_minus_iff. exact H.
  - apply Qlt_minus_iff in H. exact H.
Qed.

Lemma by_similarity_not_positive (a b : ScoredResult.t) :
  (by_similarity a b ?= 0)%Q <> Gt
  <-> (ScoredResult.similarity b <= ScoredResult.similarity a)%Q.
Proof.
  rewrite by_similarity_positive. split.
  - apply Qnot_lt_le.
  - intros H H'. exact (Qlt_not_le _ _ H' H).
Qed.

Lemma sort_insert_cases (a b : ScoredResult.t) (rest : list ScoredResult.t) :
  ((ScoredResult.similarity a < ScoredResult.similarity b)%Q
   /\ sort_insert a (b :: rest) = b :: sort_insert a rest)
  \/ ((ScoredResult.similarity b <= ScoredResult.similarity a)%Q
      /\ sort_insert a (b :: rest) = a :: b :: rest).
Proof.
  cbn [sort_insert].
  destruct (by_similarity a b ?= 0)%Q eqn:E.
  - right. split; [|reflexivity].
    apply by_similarity_not_positive. congruence.
  - right. split; [|reflexivity].
    apply by_similarity_not_positive. congruence.
  - left. split; [|reflexivity]. apply by_similarity_positive. exact E.
Qed.

Lemma sort_insert_perm (a : ScoredResult.t) (l : list ScoredResult.t) :
  Permutation (sort_insert a l) (a :: l).
Proof.
  induction l as [|b rest IH]; [reflexivity|].
  destruct (sort_insert_cases a b rest) as [[_ ->]|[_ ->]]; [|reflexivity].
  rewrite IH. apply perm_swap.
Qed.

Lemma sort_perm (l : list ScoredResult.t) : Permutation (sort l) l.
Proof.
  induction l as [|a l IH]; [reflexivity|].
  cbn [sort fold_right]. fold (sort l).
  rewrite sort_insert_perm, IH. reflexivity.
Qed.

Lemma sort_insert_descending (a : ScoredResult.t) (l : list ScoredResult.t) :
  descending l -> descending (sort_insert a l).
Proof.
  unfold descending.
  induction l as [|b rest IH]; intro H.
  - repeat constructor.
  - apply StronglySorted_inv in H. destruct H as [Hrest Hb].
    destruct (sort_insert_cases a b rest) as [[Hab ->]|[Hba ->]].
    + constructor; [apply IH; exact Hrest|].
      rewrite (sort_insert_perm a rest).
      constructor; [apply Qlt_le_weak; exact Hab | exact Hb].
    + constructor; [constructor; assumption|].
      constructor; [exact Hba|].
      eapply Forall_impl; [|exact Hb].
      intros c Hc. cbn beta in Hc. eapply Qle_trans; eassumption.
Qed.

Lemma sort_descending (l : list ScoredResult.t) : descending (sort l).
Proof.
  induction l as [|a l IH]; [constructor|].
  cbn [sort fold_right]. fold (sort l). apply sort_insert_descending, IH.
Qed.

(** Stability: an entry inserted in front of entries of later documents
    stays in front of those it ties with. *)
Lemma sort_insert_ranks (a : ScoredResult.t) (l : list ScoredResult.t) :
  Forall (fun b => ScoredResult.qa_pair_id a < ScoredResult.qa_pair_id b) l ->
  StronglySorted ranks_before l ->
  StronglySorted ranks_before (sort_insert a l).
Proof.
  induction l as [|b rest IH]; intros Hid H.
  - repeat constructor.
  - apply StronglySorted_inv in H. destruct H as [Hrest Hb].
    apply Forall_cons_iff in Hid. destruct Hid as [Hidb Hidrest].
    destruct (sort_insert_cases a b rest) as [[Hab ->]|[Hba ->]].
    + constructor; [apply IH; assumption|].
      rewrite (sort_insert_perm a rest).
      constructor; [left; exact Hab | exact Hb].
    + constructor; [constructor; assumption|].
      assert (Hlow : forall c,
        (ScoredResult.similarity c <= ScoredResult.similarity a)%Q ->
        ScoredResult.qa_pair_id a < ScoredResult.qa_pair_id c ->
        ranks_before a c).
      { intros c Hle Hlt.
        destruct (Qlt_le_dec (ScoredResult.similarity c)
                    (ScoredResult.similarity a)) as [Hs|Hs].
        - left. exact Hs.
        - right. split; [apply Qle_antisym; assumption | exact Hlt]. }
      constructor; [apply Hlow; assumption|].
      rewrite Forall_forall in Hb, Hidrest |- *.
      intros c Hc. apply Hlow; [|apply Hidrest; exact Hc].
      destruct (Hb c Hc) as [Hlt|[Heq _]].
      * eapply Qle_trans; [apply Qlt_le_weak; exact Hlt | exact Hba].
      * rewrite <- Heq. exact Hba.
Qed.

Lemma sort_ranks (l : list ScoredResult.t) :
  StronglySorted lt (map ScoredResult.qa_pair_id l) ->
  StronglySorted ranks_before (sort l).
Proof.
  induction l as [|a l IH]; intro H; [constructor|].
  cbn [map] in H. apply StronglySorted_inv in H. destruct H as [Hl Ha].
  cbn [sort fold_right]. fold (sort l).
  apply sort_insert_ranks; [|apply IH; exact Hl].
  rewrite (sort_perm l). rewrite Forall_map in Ha. exact Ha.
Qed.

Section Truncation.
Context {A : Type}.

Lemma slice0_length (l : list A) (k : nat) : length (slice0 l k) <= k.
Proof. unfold slice0. apply firstn_le_length. Qed.

Lemma slice0_In (l : list A) (k : nat) (x : A) : In x (slice0 l k) -> In x l.
Proof.
  unfold slice0. revert k.
  induction l as [|a l IH]; intros [|k] H; try contradiction.
  cbn [firstn] in H. destruct H as [->|H]; [left; reflexivity|].
  right. exact (IH k H).
Qed.

Lemma slice0_sorted (R : A -> A -> Prop) (l : list A) (k : nat) :
  StronglySorted R l -> StronglySorted R (slice0 l k).
Proof.
  unfold slice0. intro H. revert k.
  induction H as [|a l Hl IH Ha]; intros [|k]; cbn [firstn]; try constructor.
  - apply IH.
  - rewrite Forall_forall in Ha |- *. intros x Hx.
    apply Ha. exact (slice0_In l k x Hx).
Qed.

Lemma slice0_map {B : Type} (f : A -> B) (l : list A) (k : nat) :
  map f (slice0 l k) = slice0 (map f l) k.
Proof.
  unfold slice0. revert k.
  induction l as [|a l IH]; intros [|k]; cbn [firstn map]; try reflexivity.
  rewrite IH. reflexivity.
Qed.

Lemma slice0_NoDup (l : list A) (k : nat) : NoDup l -> NoDup (slice0 l k).
Proof.
  intro H. revert k.
  induction H as [|a l Ha Hl IH]; intros [|k]; try constructor.
  - intro Hin. apply Ha. exact (slice0_In l k a Hin).
  - apply IH.
Qed.

Lemma slice0_nil (k : nat) : slice0 (@nil A) k = [].
Proof. destruct k; reflexivity. Qed.

End Truncation.

Lemma top_length k results : length (top k results) <= k.
Proof. apply slice0_length. Qed.

Lemma top_In k results r : In r (top k results) -> In r results.
Proof.
  intro H. apply slice0_In in H.
  eapply Permutation_in; [apply sort_perm | exact H].
Qed.

Lemma top_descending k results : descending (top k results).
Proof. apply slice0_sorted, sort_descending. Qed.

Lemma top_nil k : top k [] = [].
Proof. apply slice0_nil. Qed.

Lemma top_NoDup_ids k results :
  NoDup (map ScoredResult.qa_pair_id results) ->
  NoDup (map ScoredResult.qa_pair_id (top k results)).
Proof.
  intro H. unfold top. rewrite slice0_map. apply slice0_NoDup.
  eapply Permutation_NoDup; [|exact H].
  apply Permutation_map. symmetry. apply sort_perm.
Qed.

Lemma top_ranks k results :
  StronglySorted lt (map ScoredResult.qa_pair_id results) ->
  StronglySorted ranks_before (top k results).
Proof. intro H. apply slice0_sorted, sort_ranks, H. Qed.

(** Cutting a sorted list after [k] entries keeps an entry, or keeps [k]
    entries that all come before it. *)
Lemma firstn_sorted_keeps {A : Type} (R : A -> A -> Prop) (l : list A) :
  StronglySorted R l ->
  forall k r, In r l ->
    In r (firstn k l)
    \/ (length (firstn k l) = k /\ Forall (fun kept => R kept r) (firstn k l)).
Proof.
  induction 1 as [|a l Hl IH Ha]; intros k r Hr; [contradiction|].
  destruct k as [|k]; [right; split; [reflexivity | constructor]|].
  cbn [firstn]. destruct Hr as [->|Hr]; [left; left; reflexivity|].
  destruct (IH k r Hr) as [H|[Hlen Hall]]; [left; right; exact H|].
  right. split; [cbn [length]; rewrite Hlen; reflexivity|].
  constructor; [|exact Hall].
  rewrite Forall_forall in Ha. exact (Ha r Hr).
Qed.

(** Truncation keeps the best: an entry of the list that [top] leaves out
    scores no more than each of the [k] entries it keeps. *)
Lemma top_keeps_best k results r :
  In r results ->
  In r (top k results)
  \/ (length (top k results) = k
      /\ Forall
           (fun kept =>
              (ScoredResult.similarity r <= ScoredResult.similarity kept)%Q)
           (top k results)).
Proof.
  intro Hr. unfold top, slice0.
  apply (firstn_sorted_keeps _ _ (sort_descending results)).
  eapply Permutation_in; [symmetry; apply sort_perm | exact Hr].
Qed.

(** With identifiers growing along the list, ties are cut in its order: the
    [k] entries kept all rank before an entry left out. *)
Lemma top_keeps_first k results r :
  StronglySorted lt (map ScoredResult.qa_pair_id results) ->
  In r results ->
  In r (top k results)
  \/ (length (top k results) = k
      /\ Forall (fun kept => ranks_before kept r) (top k results)).
Proof.
  intros Hids Hr. unfold top, slice0.
  apply (firstn_sorted_keeps _ _ (sort_ranks results Hids)).
  eapply Permutation_in; [symmetry; apply sort_perm | exact Hr].
Qed.

Lemma ranks_before_score (a b : ScoredResult.t) :
  ranks_before a b ->
  (ScoredResult.similarity b <= ScoredResult.similarity a)%Q.
Proof.
  intros [H|[H _]]; [apply Qlt_le_weak; exact H|].
  rewrite H. apply Qle_refl.
Qed.

(** The sorted list is determined by what [sort] is required to do, not by
    how it is computed: entries whose identifiers grow along the input have
    one arrangement that is descending and keeps ties in input order. *)
Lemma ranks_before_asym (a b : ScoredResult.t) :
  ranks_before a b -> ranks_before b a -> False.
Proof.
  intros [H1|[E1 H1]] [H2|[E2 H2]].
  - exact (Qlt_irrefl _ (Qlt_trans _ _ _ H1 H2)).
  - rewrite E2 in H1. exact (Qlt_irrefl _ H1).
  - rewrite E1 in H2. exact (Qlt_irrefl _ H2).
  - lia.
Qed.

Lemma ranked_arrangement_unique (l1 : list ScoredResult.t) :
  forall l2,
    StronglySorted ranks_before l1 -> StronglySorted ranks_before l2 ->
    Permutation l1 l2 -> l1 = l2.
Proof.
  induction l1 as [|a t1 IH]; intros l2 H1 H2 HP.
  - apply Permutation_nil in HP. symmetry. exact HP.
  - destruct l2 as [|b t2].
    + apply Permutation_sym, Permutation_nil in HP. discriminate.
    + apply StronglySorted_inv in H1. destruct H1 as [Ht1 Ha].
      apply StronglySorted_inv in H2. destruct H2 as [Ht2 Hb].
      rewrite Forall_forall in Ha, Hb.
      assert (E : a = b).
      { assert (Hab : In a (b :: t2))
          by (eapply Permutation_in; [exact HP | left; reflexivity]).
        assert (Hba : In b (a :: t1))
          by (eapply Permutation_in;
              [symmetry; exact HP | left; reflexivity]).
        destruct Hab as [E|Hab]; [symmetry; exact E|].
        destruct Hba as [E|Hba]; [exact E|].
        exfalso. exact (ranks_before_asym a b (Ha b Hba) (Hb a Hab)). }
      subst b. f_equal. apply IH; try assumption.
      exact (Permutation_cons_inv HP).
Qed.

Lemma sort_determined (results arranged : list ScoredResult.t) :
  StronglySorted lt (map ScoredResult.qa_pair_id results) ->
  Permutation arranged results ->
  StronglySorted ranks_before arranged ->
  arranged = sort results.
Proof.
  intros Hids HP Hsorted.
  apply ranked_arrangement_unique;
    [exact Hsorted | apply sort_ranks; exact Hids |].
  rewrite HP. symmetry. apply sort_perm.
Qed.

(** ** Rounding *)

Local Open Scope Z_scope.

Lemma ilog2_lower (n d : Z) :
  0 < n -> 0 < d ->
  (0 <= Binary64.ilog2 n d -> d * 2 ^ Binary64.ilog2 n d <= n)
  /\ (Binary64.ilog2 n d < 0 -> d <= n * 2 ^ (- Binary64.ilog2 n d)).
Proof.
  intros Hn Hd. unfold Binary64.ilog2.
  pose proof (Z.log2_spec n Hn) as [Hn1 Hn2].
  pose proof (Z.log2_spec d Hd) as [Hd1 Hd2].
  pose proof (Z.log2_nonneg n) as Ha. pose proof (Z.log2_nonneg d) as Hb.
  set (a := Z.log2 n) in *. set (b := Z.log2 d) in *.
  rewrite Z.pow_succ_r in Hn2, Hd2 by assumption.
  destruct (Z.leb_spec (d * 2 ^ a) (n * 2 ^ b)) as [Hle|Hgt].
  - split; intro Hl.
    + replace a with ((a - b) + b) in Hle at 1 by lia.
      rewrite Z.pow_add_r in Hle by lia.
      assert (0 < 2 ^ b) by (apply Z.pow_pos_nonneg; lia). nia.
    + replace (- (a - b)) with (b - a) by lia.
      replace b with ((b - a) + a) in Hle at 1 by lia.
      rewrite Z.pow_add_r in Hle by lia.
      assert (0 < 2 ^ a) by (apply Z.pow_pos_nonneg; lia). nia.
  - split; intro Hl.
    + assert (E : 2 ^ a = 2 ^ (a - b - 1) * (2 * 2 ^ b)).
      { rewrite <- Z.pow_succ_r by lia. rewrite <- Z.pow_add_r by lia.
        f_equal. lia. }
      assert (0 < 2 ^ (a - b - 1)) by (apply Z.pow_pos_nonneg; lia).
      nia.
    + replace (- (a - b - 1)) with (b + 1 - a) by lia.
      assert (E : 2 * 2 ^ b = 2 ^ (b + 1 - a) * 2 ^ a).
      { rewrite <- Z.pow_succ_r by lia. rewrite <- Z.pow_add_r by lia.
        f_equal. lia. }
      assert (0 < 2 ^ (b + 1 - a)) by (apply Z.pow_pos_nonneg; lia).
      nia.
Qed.

Lemma nearest_even_floor (n d : Z) :
  0 < d -> n / d <= Binary64.nearest_even n d.
Proof.
  intro Hd. unfold Binary64.nearest_even.
  destruct (2 * (n mod d) ?= d); [destruct (Z.even (n / d))|..]; lia.
Qed.

Lemma round_positive_positive (n d : Z) :
  0 < n -> 0 < d -> (0 < Binary64.round_positive n d)%Q.
Proof.
  intros Hn Hd. unfold Binary64.round_positive.
  destruct (ilog2_lower n d Hn Hd) as [Hl1 Hl2].
  set (l := Binary64.ilog2 n d) in *.
  assert (Hm : 1 <=
    (if 0 <=? l - 52 then Binary64.nearest_even n (d * 2 ^ (l - 52))
     else Binary64.nearest_even (n * 2 ^ (- (l - 52))) d)).
  { destruct (Z.leb_spec 0 (l - 52)) as [He|He].
    - assert (Hp : 0 < 2 ^ (l - 52)) by (apply Z.pow_pos_nonneg; lia).
      etransitivity; [|apply nearest_even_floor; nia].
      apply Z.div_le_lower_bound; [nia|].
      rewrite Z.mul_1_r.
      etransitivity; [|apply Hl1; lia].
      apply Z.mul_le_mono_nonneg_l; [lia|].
      apply Z.pow_le_mono_r; lia.
    - etransitivity; [|apply nearest_even_floor; exact Hd].
      apply Z.div_le_lower_bound; [exact Hd|].
      rewrite Z.mul_1_r.
      destruct (Z.leb_spec 0 l) as [Hl|Hl].
      + specialize (Hl1 Hl).
        assert (1 <= 2 ^ l) by (apply (Z.pow_le_mono_r 2 0 l); lia).
        assert (1 <= 2 ^ (- (l - 52)))
          by (apply (Z.pow_le_mono_r 2 0); lia).
        nia.
      + specialize (Hl2 Hl).
        etransitivity; [exact Hl2|].
        apply Z.mul_le_mono_nonneg_l; [lia|].
        apply Z.pow_le_mono_r; lia. }
  revert Hm. generalize (if 0 <=? l - 52
    then Binary64.nearest_even n (d * 2 ^ (l - 52))
    else Binary64.nearest_even (n * 2 ^ (- (l - 52))) d).
  intros m Hm. unfold Binary64.scaled.
  destruct (Z.leb_spec 0 (l - 52)) as [He|He].
  - assert (Hp : 0 < 2 ^ (l - 52)) by (apply Z.pow_pos_nonneg; lia).
    unfold Qlt. cbn. nia.
  - unfold Qlt. cbn. lia.
Qed.

(** Rounding keeps the sign, so a difference of two scores compares with 0
    as the scores compare with each other. *)
Lemma round_compare_zero (q : Q) :
  (Binary64.round q ?= 0)%Q = (q ?= 0)%Q.
Proof.
  rewrite <- (Qred_correct q) at 2.
  unfold Binary64.round. cbv zeta.
  destruct (Qred q) as [n d]. cbn [Qnum Qden].
  destruct n as [|n|n].
  - reflexivity.
  - pose proof (round_positive_positive (Z.pos n) (Z.pos d) eq_refl eq_refl) as H.
    assert (E : (Binary64.round_positive (Z.pos n) (Z.pos d) ?= 0)%Q = Gt)
      by (apply -> Qgt_alt; exact H).
    rewrite E. reflexivity.
  - pose proof (round_positive_positive (Z.pos n) (Z.pos d) eq_refl eq_refl) as H.
    assert (H' : (- Binary64.round_positive (Z.pos n) (Z.pos d) < 0)%Q).
    { apply (Qplus_lt_l _ _ (Binary64.round_positive (Z.pos n) (Z.pos d))).
      rewrite Qplus_0_l. setoid_replace (- Binary64.round_positive (Z.pos n) (Z.pos d) + Binary64.round_positive (Z.pos n) (Z.pos d))%Q with 0%Q by ring.
      exact H. }
    assert (E : (- Binary64.round_positive (Z.pos n) (Z.pos d) ?= 0)%Q = Lt)
      by (apply -> Qlt_alt; exact H').
    rewrite E. reflexivity.
Qed.

Local Close Scope Z_scope.

Lemma Binary64_sort_insert (a : ScoredResult.t) (l : list ScoredResult.t) :
  Binary64.sort_insert a l = sort_insert a l.
Proof.
  induction l as [|b rest IH]; [reflexivity|].
  cbn [Binary64.sort_insert sort_insert].
  unfold Binary64.by_similarity. rewrite round_compare_zero.
  fold (by_similarity a b). rewrite IH. reflexivity.
Qed.

Lemma Binary64_sort (l : list ScoredResult.t) : Binary64.sort l = sort l.
Proof.
  induction l as [|a l IH]; [reflexivity|].
  cbn [Binary64.sort sort fold_right]. fold (Binary64.sort l). fold (sort l).
  rewrite IH. apply Binary64_sort_insert.
Qed.

(** Rounding depends on the value alone. *)
Lemma round_morphism (q q' : Q) :
  (q == q')%Q -> Binary64.round q = Binary64.round q'.
Proof.
  intro H. unfold Binary64.round. rewrite (Qred_complete _ _ H). reflexivity.
Qed.

Local Open Scope Z_scope.

Lemma nearest_even_exact (m d : Z) :
  0 < d -> Binary64.nearest_even (m * d) d = m.
Proof.
  intro Hd. unfold Binary64.nearest_even.
  rewrite Z.div_mul, Z.mod_mul by lia.
  replace (2 * 0) with 0 by lia.
  destruct (Z.compare_spec 0 d); [lia | reflexivity | lia].
Qed.

(** A multiple of one half below 2^52 is a double. *)
Lemma round_positive_half (n d : positive) (k : Z) :
  2 * Z.pos n = k * Z.pos d -> k < 2 ^ 53 ->
  (Binary64.round_positive (Z.pos n) (Z.pos d) == Z.pos n # d)%Q.
Proof.
  intros Hk Hlt. unfold Binary64.round_positive.
  destruct (ilog2_lower (Z.pos n) (Z.pos d) eq_refl eq_refl) as [Hl _].
  set (l := Binary64.ilog2 (Z.pos n) (Z.pos d)) in *.
  assert (Hl52 : l < 52).
  { destruct (Z.ltb_spec l 52) as [H|H]; [exact H|]. exfalso.
    specialize (Hl ltac:(lia)).
    assert (2 ^ 52 <= 2 ^ l) by (apply Z.pow_le_mono_r; lia).
    change (2 ^ 53) with (2 * 2 ^ 52) in Hlt. nia. }
  destruct (Z.leb_spec 0 (l - 52)) as [He|He]; [lia|].
  replace (- (l - 52)) with (Z.succ (51 - l)) by lia.
  rewrite Z.pow_succ_r by lia.
  assert (Hp : 0 < 2 ^ (51 - l)) by (apply Z.pow_pos_nonneg; lia).
  replace (Z.pos n * (2 * 2 ^ (51 - l)))
    with (k * 2 ^ (51 - l) * Z.pos d) by nia.
  rewrite nearest_even_exact by lia.
  unfold Binary64.scaled.
  destruct (Z.leb_spec 0 (l - 52)) as [He'|He']; [lia|].
  replace (- (l - 52)) with (Z.succ (51 - l)) by lia.
  rewrite Z.pow_succ_r by lia.
  unfold Qeq. cbn [Qnum Qden].
  rewrite Z2Pos.id by lia. nia.
Qed.

Lemma round_half (q : Q) (k : Z) :
  (q == k # 2)%Q -> 0 <= k < 2 ^ 53 -> (Binary64.round q == q)%Q.
Proof.
  intros Hq Hk. unfold Binary64.round. cbv zeta.
  pose proof (Qred_correct q) as Hr.
  destruct (Qred q) as [n d]. cbn [Qnum Qden].
  assert (E : n * 2 = k * Z.pos d).
  { rewrite <- Hr in Hq. exact Hq. }
  destruct n as [|n|n].
  - rewrite <- Hr. reflexivity.
  - rewrite <- Hr. apply (round_positive_half n d k); lia.
  - lia.
Qed.

Lemma ilog2_nonneg (n d : Z) :
  0 < d -> d <= n -> 0 <= Binary64.ilog2 n d.
Proof.
  intros Hd Hle. unfold Binary64.ilog2.
  pose proof (Z.log2_le_mono d n Hle) as Hab.
  destruct (Z.leb_spec (d * 2 ^ Z.log2 n) (n * 2 ^ Z.log2 d)) as [H|H];
    [lia|].
  destruct (Z.eq_dec (Z.log2 n) (Z.log2 d)) as [E|E]; [|lia].
  rewrite E in H.
  assert (0 < 2 ^ Z.log2 d) by (apply Z.pow_pos_nonneg; [lia|apply Z.log2_nonneg]).
  nia.
Qed.

Lemma round_positive_ge_one (n d : Z) :
  0 < d -> d <= n -> (1 <= Binary64.round_positive n d)%Q.
Proof.
  intros Hd Hle. unfold Binary64.round_positive.
  pose proof (ilog2_nonneg n d Hd Hle) as Hl0.
  destruct (ilog2_lower n d ltac:(lia) Hd) as [Hl _]. specialize (Hl Hl0).
  set (l := Binary64.ilog2 n d) in *.
  unfold Binary64.scaled.
  destruct (Z.leb_spec 0 (l - 52)) as [He|He].
  - assert (Hp : 0 < 2 ^ (l - 52)) by (apply Z.pow_pos_nonneg; lia).
    assert (Hm : 1 <= Binary64.nearest_even n (d * 2 ^ (l - 52))).
    { etransitivity; [|apply nearest_even_floor; nia].
      apply Z.div_le_lower_bound; [nia|]. rewrite Z.mul_1_r.
      etransitivity; [|exact Hl].
      apply Z.mul_le_mono_nonneg_l; [lia|].
      apply Z.pow_le_mono_r; lia. }
    unfold Qle, inject_Z. cbn [Qnum Qden]. nia.
  - assert (Hp : 0 < 2 ^ (- (l - 52))) by (apply Z.pow_pos_nonneg; lia).
    assert (Hm : 2 ^ (- (l - 52)) <= Binary64.nearest_even (n * 2 ^ (- (l - 52))) d).
    { etransitivity; [|apply nearest_even_floor; exact Hd].
      apply Z.div_le_lower_bound; [exact Hd|].
      assert (1 <= 2 ^ l) by (apply (Z.pow_le_mono_r 2 0 l); lia).
      nia. }
    unfold Qle. cbn [Qnum Qden]. rewrite Z2Pos.id by lia. lia.
Qed.

Local Close Scope Z_scope.

Lemma round_ge_one (q : Q) : (1 <= q)%Q -> (1 <= Binary64.round q)%Q.
Proof.
  intro H. rewrite <- (Qred_correct q) in H.
  unfold Binary64.round. cbv zeta.
  destruct (Qred q) as [n d]. cbn [Qnum Qden].
  unfold Qle in H. cbn [Qnum Qden] in H.
  destruct n as [|n|n]; [lia| |lia].
  apply round_positive_ge_one; lia.
Qed.

Lemma round_nonneg (q : Q) : (0 <= q)%Q -> (0 <= Binary64.round q)%Q.
Proof.
  intro H. apply Qnot_lt_le. intro Hlt.
  assert (E : (Binary64.round q ?= 0)%Q = Lt) by (apply -> Qlt_alt; exact Hlt).
  rewrite round_compare_zero in E.
  assert (Hq : (q < 0)%Q) by (apply <- Qlt_alt; exact E).
  exact (Qlt_not_le _ _ Hq H).
Qed.

Lemma round_positive_iff (q : Q) : (0 < Binary64.round q)%Q <-> (0 < q)%Q.
Proof.
  split; intro H.
  - assert (E : (Binary64.round q ?= 0)%Q = Gt) by (apply -> Qgt_alt; exact H).
    rewrite round_compare_zero in E. apply <- Qgt_alt. exact E.
  - assert (E : (q ?= 0)%Q = Gt) by (apply -> Qgt_alt; exact H).
    rewrite <- round_compare_zero in E. apply <- Qgt_alt. exact E.
Qed.

(** The rounding of [Binary64] against the Standard Library's binary64
    (precision 53, exponents up to 1024), on the operations of the two
    scorers: the quotient of two lengths, two boosts added to it, the
    difference the comparator takes, and a tenth of a multiple of one
    half. *)
Example round_agrees_with_SpecFloat :
  forallb
    (fun '(a, b) =>
       let x := SpecFloat.SFdiv 53 1024 (float_of_Z a) (float_of_Z b) in
       let t := SpecFloat.SFdiv 53 1024 (float_of_Z 1) (float_of_Z 10) in
       let y := SpecFloat.SFadd 53 1024 (SpecFloat.SFadd 53 1024 x t) t in
       let q := Binary64.round (a # Z.to_pos b) in
       let r :=
         Binary64.round
           (Binary64.round (q + Binary64.round 0.1) + Binary64.round 0.1) in
       is_value x q
       && is_value y r
       && is_value (SpecFloat.SFsub 53 1024 y x) (Binary64.round (r - q))
       && is_value
            (SpecFloat.SFdiv 53 1024
               (SpecFloat.SFdiv 53 1024 (float_of_Z a) (float_of_Z 2))
               (float_of_Z 10))
            (Binary64.round ((a # 2) / 10)))
    (list_prod (map Z.of_nat (seq 0 30)) (map Z.of_nat (seq 1 30)))
  = true.
Proof. vm_compute. reflexivity. Qed.

(** ** The two scans *)

Lemma similarity_scan_with queryTokens threshold docs :
  similarity_scan queryTokens threshold docs
  = scan_with (similarity_pick queryTokens threshold) docs.
Proof.
  induction docs as [|doc rest IH]; [reflexivity|].
  cbn [similarity_scan scan_with]. unfold similarity_pick at 1.
  destruct (calculateQuestionSimilarity queryTokens (Document.tokens doc))
    as [s|]; [|exact IH].
  destruct (Qle_bool threshold s); [|exact IH].
  unfold entry. rewrite IH. reflexivity.
Qed.

Lemma keyword_scan_with queryLower queryWords docs :
  keyword_scan queryLower queryWords docs
  = scan_with (keyword_pick queryLower queryWords) docs.
Proof.
  induction docs as [|doc rest IH]; [reflexivity|].
  cbn [keyword_scan scan_with]. unfold keyword_pick at 1.
  destruct (keyword_score queryLower queryWords doc ?= 0)%Q;
    try exact IH.
  unfold entry. rewrite IH. reflexivity.
Qed.

Lemma Binary64_similarity_scan_with queryTokens threshold docs :
  Binary64.similarity_scan queryTokens threshold docs
  = scan_with (binary64_pick queryTokens threshold) docs.
Proof.
  induction docs as [|doc rest IH]; [reflexivity|].
  cbn [Binary64.similarity_scan scan_with]. unfold binary64_pick at 1.
  destruct (Binary64.calculateQuestionSimilarity queryTokens
              (Document.tokens doc)) as [s|]; [|exact IH].
  destruct (Qle_bool threshold s); [|exact IH].
  unfold entry. rewrite IH. reflexivity.
Qed.

Lemma scan_with_In pick docs r :
  In r (scan_with pick docs) <->
  exists doc score, In doc docs /\ pick doc = Some score /\ r = entry doc score.
Proof.
  induction docs as [|doc rest IH]; cbn [scan_with].
  - split; [contradiction | intros [d [s [[] _]]]].
  - split.
    + intro H.
      assert (Hcase : (exists s, pick doc = Some s /\ r = entry doc s)
                      \/ In r (scan_with pick rest)).
      { destruct (pick doc) as [s|]; [|right; exact H].
        destruct H as [<-|H]; [left; eauto | right; exact H]. }
      destruct Hcase as [[s [Hs ->]]|H'].
      * exists doc, s. repeat split; [left; reflexivity | exact Hs].
      * apply IH in H'. destruct H' as [d [s [Hd Hs]]].
        exists d, s. split; [right; exact Hd | exact Hs].
    + intros [d [s [[<-|Hd] [Hs ->]]]].
      * rewrite Hs. left. reflexivity.
      * assert (H' : In (entry d s) (scan_with pick rest))
          by (apply IH; eauto).
        destruct (pick doc); [right|]; exact H'.
Qed.

(** A scan keeps the corpus order: identifiers that grow along the documents
    grow along the entries. *)
Lemma scan_with_ids_increasing pick docs :
  StronglySorted lt (map doc_id docs) ->
  StronglySorted lt (map ScoredResult.qa_pair_id (scan_with pick docs)).
Proof.
  induction docs as [|doc rest IH]; intro H; [constructor|].
  cbn [map] in H. apply StronglySorted_inv in H. destruct H as [Hrest Hdoc].
  cbn [scan_with]. destruct (pick doc) as [s|]; [|apply IH; exact Hrest].
  cbn [map]. constructor; [apply IH; exact Hrest|].
  rewrite Forall_map in Hdoc. rewrite Forall_forall in Hdoc.
  apply Forall_map. apply Forall_forall. intros r Hr.
  apply scan_with_In in Hr. destruct Hr as [d [s' [Hd [_ ->]]]].
  exact (Hdoc d Hd).
Qed.

(** ** Removing duplicates *)

Lemma seen_iff (id : nat) (seenIds : list nat) :
  existsb (Nat.eqb id) seenIds = true <-> In id seenIds.
Proof.
  rewrite existsb_exists. split.
  - intros [x [Hx E]]. apply Nat.eqb_eq in E. subst x. exact Hx.
  - intro H. exists id. split; [exact H | apply Nat.eqb_refl].
Qed.

Lemma unique_scan_cases seenIds result rest :
  (In (ScoredResult.qa_pair_id result) seenIds
   /\ unique_scan seenIds (result :: rest) = unique_scan seenIds rest)
  \/ (~ In (ScoredResult.qa_pair_id result) seenIds
      /\ unique_scan seenIds (result :: rest)
         = result
           :: unique_scan (ScoredResult.qa_pair_id result :: seenIds) rest).
Proof.
  cbn [unique_scan].
  destruct (existsb (Nat.eqb (ScoredResult.qa_pair_id result)) seenIds) eqn:E.
  - left. split; [apply seen_iff; exact E | reflexivity].
  - right. split; [|reflexivity].
    intro H. apply seen_iff in H. congruence.
Qed.

Lemma unique_scan_In allResults :
  forall seenIds r,
    In r (unique_scan seenIds allResults) ->
    In r allResults /\ ~ In (ScoredResult.qa_pair_id r) seenIds.
Proof.
  induction allResults as [|x rest IH]; intros seen r H; [contradiction|].
  destruct (unique_scan_cases seen x rest) as [[_ E]|[Hx E]];
    rewrite E in H.
  - destruct (IH _ _ H). split; [right|]; assumption.
  - destruct H as [<-|H]; [split; [left; reflexivity | exact Hx]|].
    destruct (IH _ _ H) as [H1 H2].
    split; [right; exact H1|]. intro H3. apply H2. right. exact H3.
Qed.

Lemma unique_scan_NoDup allResults :
  forall seenIds,
    NoDup (map ScoredResult.qa_pair_id (unique_scan seenIds allResults)).
Proof.
  induction allResults as [|x rest IH]; intro seen; [constructor|].
  destruct (unique_scan_cases seen x rest) as [[_ ->]|[_ ->]]; [apply IH|].
  cbn [map]. constructor; [|apply IH].
  intro H. apply in_map_iff in H. destruct H as [r [E H]].
  apply unique_scan_In in H. destruct H as [_ H].
  apply H. left. symmetry. exact E.
Qed.

(** First occurrence wins: an entry kept from the second of two
    concatenated lists has an identifier the first list lacks. *)
Lemma unique_scan_app first second :
  forall seenIds r,
    In r (unique_scan seenIds (first ++ second)) ->
    In r first
    \/ (In r second
        /\ ~ In (ScoredResult.qa_pair_id r)
               (map ScoredResult.qa_pair_id first)).
Proof.
  induction first as [|x rest IH]; intros seen r H.
  - right. apply unique_scan_In in H. destruct H as [H _].
    split; [exact H | intros []].
  - change ((x :: rest) ++ second) with (x :: (rest ++ second)) in H.
    destruct (unique_scan_cases seen x (rest ++ second)) as [[Hx E]|[Hx E]];
      rewrite E in H.
    + pose proof (unique_scan_In _ _ _ H) as [_ Hr].
      destruct (IH _ _ H) as [H1|[H1 H2]]; [left; right; exact H1|].
      right. split; [exact H1|]. cbn [map]. intros [E'|H3]; [|exact (H2 H3)].
      apply Hr. rewrite <- E'. exact Hx.
    + destruct H as [<-|H]; [left; left; reflexivity|].
      pose proof (unique_scan_In _ _ _ H) as [_ Hr].
      destruct (IH _ _ H) as [H1|[H1 H2]]; [left; right; exact H1|].
      right. split; [exact H1|]. cbn [map]. intros [E'|H3]; [|exact (H2 H3)].
      apply Hr. left. exact E'.
Qed.

(** The scan over two concatenated lists, each without a repeated
    identifier: the first list, then the entries of the second whose
    identifier the first lacks. *)
Lemma unique_scan_fresh (allResults : list ScoredResult.t) :
  forall seenIds r,
    NoDup (map ScoredResult.qa_pair_id allResults) ->
    In r allResults -> ~ In (ScoredResult.qa_pair_id r) seenIds ->
    In r (unique_scan seenIds allResults).
Proof.
  induction allResults as [|x rest IH]; intros seen r Hnd Hr Hseen;
    [contradiction|].
  cbn [map] in Hnd. apply NoDup_cons_iff in Hnd. destruct Hnd as [Hx Hrest].
  destruct (unique_scan_cases seen x rest) as [[Hin ->]|[_ ->]].
  - destruct Hr as [->|Hr]; [contradiction|]. apply IH; assumption.
  - destruct Hr as [->|Hr]; [left; reflexivity|]. right.
    apply IH; [exact Hrest | exact Hr |].
    intros [E|H]; [|exact (Hseen H)].
    apply Hx. rewrite E. apply in_map. exact Hr.
Qed.

Lemma unique_scan_app_In first second r :
  NoDup (map ScoredResult.qa_pair_id first) ->
  NoDup (map ScoredResult.qa_pair_id second) ->
  In r (unique_scan [] (first ++ second))
  <-> In r first
      \/ (In r second
          /\ ~ In (ScoredResult.qa_pair_id r)
                 (map ScoredResult.qa_pair_id first)).
Proof.
  intros H1 H2. split; [apply unique_scan_app|].
  assert (Hgen : forall first seen,
    NoDup (map ScoredResult.qa_pair_id first) ->
    (forall x, In x first -> ~ In (ScoredResult.qa_pair_id x) seen) ->
    (In r first
     \/ (In r second
         /\ ~ In (ScoredResult.qa_pair_id r)
                (map ScoredResult.qa_pair_id first)
         /\ ~ In (ScoredResult.qa_pair_id r) seen)) ->
    In r (unique_scan seen (first ++ second))).
  { clear first H1. induction first as [|x rest IH]; intros seen Hnd Hseen Hr.
    - cbn [app]. destruct Hr as [[]|[Hr [_ Hs]]].
      apply unique_scan_fresh; assumption.
    - cbn [map] in Hnd. apply NoDup_cons_iff in Hnd. destruct Hnd as [Hx Hrest].
      change ((x :: rest) ++ second) with (x :: (rest ++ second)).
      destruct (unique_scan_cases seen x (rest ++ second)) as [[Hin _]|[_ ->]].
      + contradiction (Hseen x (or_introl eq_refl) Hin).
      + destruct Hr as [[->|Hr]|[Hr [Hf Hs]]].
        * left. reflexivity.
        * right. apply IH; [exact Hrest | | left; exact Hr].
          intros y Hy [E|Hin].
          -- apply Hx. rewrite E. apply in_map. exact Hy.
          -- exact (Hseen y (or_intror Hy) Hin).
        * right. apply IH; [exact Hrest | |].
          -- intros y Hy [E|Hin].
             ++ apply Hx. rewrite E. apply in_map. exact Hy.
             ++ exact (Hseen y (or_intror Hy) Hin).
          -- right. split; [exact Hr|]. split.
             ++ intro H. apply Hf. right. exact H.
             ++ intros [E|H]; [|exact (Hs H)].
                apply Hf. left. exact E. }
  intros [Hr|[Hr Hf]]; apply (Hgen first []); auto.
Qed.

Lemma NoDup_map_inj {A B : Type} (f : A -> B) (l : list A) (a b : A) :
  NoDup (map f l) -> In a l -> In b l -> f a = f b -> a = b.
Proof.
  induction l as [|x l IH]; intros H Ha Hb E; [contradiction|].
  cbn [map] in H. apply NoDup_cons_iff in H. destruct H as [Hx Hl].
  destruct Ha as [->|Ha], Hb as [->|Hb].
  - reflexivity.
  - exfalso. apply Hx. rewrite E. apply in_map. exact Hb.
  - exfalso. apply Hx. rewrite <- E. apply in_map. exact Ha.
  - exact (IH Hl Ha Hb E).
Qed.

(** ** The similarity scorer *)

Lemma array_includes_iff (l : list str) (t : str) :
  array_includes l t = true <-> In t l.
Proof.
  unfold array_includes. destruct (in_dec str_eq_dec t l); split; auto.
  discriminate.
Qed.

Lemma set_add_In (set : list str) (t x : str) :
  In x (set_add set t) <-> In x set \/ x = t.
Proof.
  unfold set_add. destruct (array_includes set t) eqn:E.
  - apply array_includes_iff in E. split; [auto|]. intros [H| ->]; assumption.
  - rewrite in_app_iff. cbn [In]. split.
    + intros [H|[H|[]]]; [left; exact H | right; symmetry; exact H].
    + intros [H| ->]; [left; exact H | right; left; reflexivity].
Qed.

Lemma set_add_NoDup (set : list str) (t : str) :
  NoDup set -> NoDup (set_add set t).
Proof.
  intro H. unfold set_add. destruct (array_includes set t) eqn:E; [exact H|].
  assert (Ht : ~ In t set).
  { intro Hin. apply array_includes_iff in Hin. congruence. }
  apply NoDup_app; [exact H | repeat constructor; intros [] |].
  intros x Hx [<-|[]]. exact (Ht Hx).
Qed.

Lemma fold_set_add (l : list str) :
  forall set,
    NoDup set ->
    NoDup (fold_left set_add l set)
    /\ forall x, In x (fold_left set_add l set) <-> In x set \/ In x l.
Proof.
  induction l as [|t l IH]; intros set H; cbn [fold_left].
  - split; [exact H|]. intro x. split; [auto | intros [Hx|[]]; exact Hx].
  - destruct (IH (set_add set t) (set_add_NoDup set t H)) as [H1 H2].
    split; [exact H1|]. intro x. rewrite H2, set_add_In. cbn [In].
    split.
    + intros [[Hx| ->]|Hx]; auto.
    + intros [Hx|[<-|Hx]]; auto.
Qed.

Lemma set_of_NoDup (l : list str) : NoDup (set_of l).
Proof. apply (fold_set_add l []). constructor. Qed.

Lemma set_of_In (l : list str) (x : str) : In x (set_of l) <-> In x l.
Proof.
  unfold set_of. destruct (fold_set_add l [] (NoDup_nil _)) as [_ H].
  rewrite H. cbn [In]. split; [intros [[]|Hx]; exact Hx | auto].
Qed.

Lemma union_empty (queryTokens docTokens : list str) :
  union queryTokens docTokens = [] -> queryTokens = [] /\ docTokens = [].
Proof.
  unfold union. intro H. apply app_eq_nil.
  destruct (queryTokens ++ docTokens) as [|t l]; [reflexivity|].
  assert (Hin : In t (set_of (t :: l))) by (apply set_of_In; left; reflexivity).
  rewrite H in Hin. contradiction.
Qed.

(** The divisor of the Jaccard quotient is zero only when the dividend is. *)
Lemma union_empty_intersection_empty (queryTokens docTokens : list str) :
  length (union queryTokens docTokens) = 0 ->
  length (intersection queryTokens docTokens) = 0.
Proof.
  intro H. apply length_zero_iff_nil in H.
  apply union_empty in H. destruct H as [-> _]. reflexivity.
Qed.

Lemma questionBoost_nonneg (queryTokens docTokens : list str) :
  (0 <= questionBoost queryTokens docTokens)%Q.
Proof.
  unfold questionBoost.
  assert (H : forall words boost, (0 <= boost)%Q ->
    (0 <= fold_left
            (fun questionBoost word =>
               if (array_includes queryTokens word
                   && array_includes docTokens word)%bool
               then (questionBoost + 0.1)%Q else questionBoost)
            words boost)%Q).
  { induction words as [|w words IH]; intros boost Hb; [exact Hb|].
    cbn [fold_left]. apply IH.
    destruct (array_includes queryTokens w && array_includes docTokens w)%bool;
      [|exact Hb].
    apply (Qle_trans _ (boost + 0)); [rewrite Qplus_0_r; exact Hb|].
    apply Qplus_le_r. discriminate. }
  apply H. apply Qle_refl.
Qed.

Lemma length_ratio_fin (a b : nat) :
  0 < b -> length_ratio a b = Fin (Z.of_nat a # Pos.of_nat b).
Proof. destruct b; [lia | reflexivity]. Qed.

Lemma ratio_nonneg (a b : nat) : (0 <= Z.of_nat a # Pos.of_nat b)%Q.
Proof. unfold Qle. cbn. lia. Qed.

Lemma ratio_at_least_one (a b : nat) :
  0 < b -> b <= a -> (1 <= Z.of_nat a # Pos.of_nat b)%Q.
Proof.
  intros Hb Hab. unfold Qle. cbn [Qnum Qden].
  rewrite Z.mul_1_l, Z.mul_1_r.
  replace (Z.pos (Pos.of_nat b)) with (Z.of_nat b); [lia|].
  destruct b as [|b]; [lia|].
  rewrite <- Pos.of_nat_succ, Zpos_P_of_succ_nat. lia.
Qed.

(** The scorer's value: [NaN] exactly when both token lists are empty, and
    otherwise a number between 0 and 1. *)
Lemma calculateQuestionSimilarity_cases (queryTokens docTokens : list str) :
  (queryTokens = [] /\ docTokens = []
   /\ calculateQuestionSimilarity queryTokens docTokens = NaN)
  \/ (queryTokens ++ docTokens <> []
      /\ exists s,
           calculateQuestionSimilarity queryTokens docTokens = Fin s
           /\ (0 <= s)%Q /\ (s <= 1)%Q).
Proof.
  unfold calculateQuestionSimilarity, jaccard.
  destruct (length (union queryTokens docTokens)) as [|u] eqn:Hu.
  - left. apply length_zero_iff_nil, union_empty in Hu.
    destruct Hu as [-> ->]. repeat split.
  - right. split.
    + intro H. unfold union in Hu. rewrite H in Hu. discriminate.
    + rewrite length_ratio_fin by lia. cbn [add Math_min].
      eexists. split; [reflexivity|]. split.
      * apply Q.min_glb; [|discriminate].
        apply (Qle_trans _ (0 + 0)); [discriminate|].
        apply Qplus_le_compat;
          [apply ratio_nonneg | apply questionBoost_nonneg].
      * apply Q.le_min_r.
Qed.

Lemma intersection_self (tokens : list str) :
  intersection tokens tokens = tokens.
Proof.
  unfold intersection. apply forallb_filter_id.
  apply forallb_forall. intros t Ht. apply array_includes_iff. exact Ht.
Qed.

Lemma union_self_length (tokens : list str) :
  length (union tokens tokens) <= length tokens.
Proof.
  unfold union. apply NoDup_incl_length; [apply set_of_NoDup|].
  intros x Hx. apply set_of_In, in_app_iff in Hx. tauto.
Qed.

(** A token list scored against itself reaches the cap. *)
Lemma calculateQuestionSimilarity_self (tokens : list str) :
  tokens <> [] ->
  exists s, calculateQuestionSimilarity tokens tokens = Fin s /\ (s == 1)%Q.
Proof.
  intro Hne. unfold calculateQuestionSimilarity, jaccard.
  rewrite intersection_self.
  pose proof (union_self_length tokens) as Hle.
  assert (Hpos : 0 < length (union tokens tokens)).
  { destruct (length (union tokens tokens)) eqn:E; [|lia].
    apply length_zero_iff_nil, union_empty in E. tauto. }
  rewrite length_ratio_fin by exact Hpos. cbn [add Math_min].
  eexists. split; [reflexivity|]. apply Q.min_r.
  apply (Qle_trans _ (1 + 0)); [discriminate|].
  apply Qplus_le_compat;
    [apply ratio_at_least_one; assumption | apply questionBoost_nonneg].
Qed.

(** ** The keyword scorer *)

Lemma points_nonneg (hit : bool) (p : Q) : (0 <= p)%Q -> (0 <= points hit p)%Q.
Proof. destruct hit; cbn; [auto | intros _; apply Qle_refl]. Qed.

Lemma word_loop_sum (question answer : str) (words : list str) :
  forall score,
    (fold_left
       (fun score word =>
          let score :=
            if includes question word then (score + 2)%Q else score in
          if includes answer word then (score + 1)%Q else score)
       words score
     == score
        + fold_right Qplus 0
            (map (fun word =>
                    points (includes question word) 2
                    + points (includes answer word) 1) words))%Q.
Proof.
  induction words as [|w words IH]; intro score; cbn [fold_left map fold_right].
  - ring.
  - rewrite IH. cbv zeta. unfold points.
    destruct (includes question w), (includes answer w); ring.
Qed.

(** The accumulated score is the sum of the clauses, each matched against a
    lower-cased field. *)
Lemma keyword_score_formula (query : str) (doc : Document.t) :
  (keyword_score (toLowerCase query)
     (filter (fun word => 2 <? length word) (split_ws (toLowerCase query)))
     doc / 10
   == keyword_formula_lower_fields query doc)%Q.
Proof.
  unfold keyword_formula_lower_fields, keyword_formula, keyword_score.
  cbv zeta. apply Qmult_comp; [|reflexivity].
  set (ql := toLowerCase query).
  set (qL := toLowerCase (Metadata.question (Document.metadata doc))).
  set (aL := toLowerCase (Metadata.answer (Document.metadata doc))).
  set (sL := toLowerCase (Metadata.source (Document.metadata doc))).
  assert (Hloop := word_loop_sum qL aL
    (filter (fun word => 2 <? length word) (split_ws ql))).
  cbv zeta in Hloop.
  destruct (includes sL ql); rewrite Hloop; unfold points;
    destruct (includes qL ql), (includes aL ql); ring.
Qed.

Lemma keyword_formula_nonneg (question answer source queryLower : str) :
  (0 <= keyword_formula question answer source queryLower)%Q.
Proof.
  unfold keyword_formula. apply Qle_shift_div_l; [reflexivity|].
  rewrite Qmult_0_l.
  assert (Hsum : forall words,
    (0 <= fold_right Qplus 0
            (map (fun word =>
                    points (includes question word) 2
                    + points (includes answer word) 1) words))%Q).
  { induction words as [|w words IH]; cbn [map fold_right]; [apply Qle_refl|].
    apply (Qle_trans _ (0 + 0 + 0)); [discriminate|].
    repeat apply Qplus_le_compat; try exact IH;
      apply points_nonneg; discriminate. }
  apply (Qle_trans _ (0 + 0 + 0 + 0)); [discriminate|].
  repeat apply Qplus_le_compat; try apply Hsum;
    apply points_nonneg; discriminate.
Qed.

Lemma keyword_pick_some (query : str) (doc : Document.t) (score : Q) :
  keyword_pick (toLowerCase query)
    (filter (fun word => 2 <? length word) (split_ws (toLowerCase query)))
    doc = Some score ->
  (score == keyword_formula_lower_fields query doc)%Q /\ (0 < score)%Q.
Proof.
  unfold keyword_pick.
  destruct (_ ?= 0)%Q eqn:E; try discriminate.
  intro H. injection H as <-. split; [apply keyword_score_formula|].
  apply Qgt_alt in E. apply Qlt_shift_div_l; [reflexivity|].
  rewrite Qmult_0_l. exact E.
Qed.

Lemma similarity_pick_some queryTokens threshold doc score :
  similarity_pick queryTokens threshold doc = Some score ->
  calculateQuestionSimilarity queryTokens (Document.tokens doc) = Fin score
  /\ (threshold <= score)%Q /\ (0 <= score)%Q /\ (score <= 1)%Q.
Proof.
  unfold similarity_pick.
  destruct (calculateQuestionSimilarity_cases queryTokens (Document.tokens doc))
    as [[_ [_ E]]|[_ [s [E [H0 H1]]]]]; rewrite E; [discriminate|].
  destruct (Qle_bool threshold s) eqn:Ht; [|discriminate].
  intro H. injection H as <-. apply Qle_bool_iff in Ht. auto.
Qed.

(** ** What the searches return *)

(** One call of [questionSearch], by how the load it triggers ends: with
    the index there it fuses the two result lists; a load that throws gives
    two empty lists and the empty list; an uncaught error is the call's
    end. *)
Lemma questionSearch_by_initialize file query k threshold st :
  questionSearch file query k threshold st
  = match initialize file st with
    | (Returned _, st') =>
      (Returned
         (fused k (similarity_results query k threshold (documents st'))
            (keyword_results query k (documents st'))), st')
    | (Thrown _, st') => (Returned [], st')
    | (Uncaught e, st') => (Uncaught e, st')
    end.
Proof.
  pose proof (similaritySearch_run file query k threshold st) as H1.
  pose proof (keywordSearch_run file query k (snd (initialize file st))) as H2.
  rewrite initialize_again in H2.
  destruct (initialize file st) as [[[]|e|e] st'] eqn:E; cbn [snd] in *.
  - exact (questionSearch_run _ _ _ _ _ _ _ _ _ H1 H2).
  - rewrite (questionSearch_run _ _ _ _ _ _ _ _ _ H1 H2).
    unfold fused. cbn [app unique_scan]. rewrite top_nil. reflexivity.
  - unfold questionSearch, try_catch, bind. rewrite H1. reflexivity.
Qed.

(** A call of [questionSearch] that returns is one whose load settled. *)
Lemma questionSearch_returned_settles file query k threshold st found st' :
  questionSearch file query k threshold st = (Returned found, st') ->
  settles file st.
Proof.
  intro H. destruct (initialized st) eqn:Hi; [left; exact Hi|].
  right. intros e ->.
  rewrite questionSearch_by_initialize, (initialize_uncaught e st Hi) in H.
  discriminate H.
Qed.

(** One call of [questionSearch] whose load settles, step by step: both
    inner searches see the same index, or both see the load fail. *)
Lemma questionSearch_steps file query k threshold st :
  settles file st ->
  exists similarityResults keywordResults,
    similaritySearch file query k threshold st
      = (Returned similarityResults, snd (initialize file st))
    /\ keywordSearch file query k (snd (initialize file st))
       = (Returned keywordResults, snd (initialize file st))
    /\ questionSearch file query k threshold st
       = (Returned (fused k similarityResults keywordResults),
          snd (initialize file st))
    /\ ((initialized (snd (initialize file st)) = true
         /\ similarityResults
            = similarity_results query k threshold
                (documents (snd (initialize file st)))
         /\ keywordResults
            = keyword_results query k (documents (snd (initialize file st))))
        \/ (initialized (snd (initialize file st)) = false
            /\ similarityResults = [] /\ keywordResults = [])).
Proof.
  intro Hs.
  pose proof (similaritySearch_run file query k threshold st) as H1.
  pose proof (keywordSearch_run file query k (snd (initialize file st))) as H2.
  rewrite initialize_again in H2.
  destruct (settles_initialize file st Hs) as [[st' [E Hi]]|[e [E Hi]]];
    rewrite E in *; cbn [snd] in *.
  - do 2 eexists. split; [exact H1|]. split; [exact H2|].
    split; [exact (questionSearch_run _ _ _ _ _ _ _ _ _ H1 H2)|].
    left. repeat split. exact Hi.
  - do 2 eexists. split; [exact H1|]. split; [exact H2|].
    split; [exact (questionSearch_run _ _ _ _ _ _ _ _ _ H1 H2)|].
    right. repeat split. exact Hi.
Qed.

Lemma similarity_results_In query k threshold docs r :
  In r (similarity_results query k threshold docs) ->
  exists doc,
    In doc docs /\ r = entry doc (ScoredResult.similarity r)
    /\ calculateQuestionSimilarity (tokenize (toLowerCase query))
         (Document.tokens doc) = Fin (ScoredResult.similarity r)
    /\ (threshold <= ScoredResult.similarity r)%Q
    /\ (0 <= ScoredResult.similarity r)%Q
    /\ (ScoredResult.similarity r <= 1)%Q.
Proof.
  intro H. apply top_In in H. rewrite similarity_scan_with in H.
  apply scan_with_In in H. destruct H as [doc [s [Hd [Hs ->]]]].
  exists doc. split; [exact Hd|]. split; [reflexivity|].
  apply similarity_pick_some in Hs. exact Hs.
Qed.

Lemma keyword_results_In query k docs r :
  In r (keyword_results query k docs) ->
  exists doc,
    In doc docs /\ r = entry doc (ScoredResult.similarity r)
    /\ (ScoredResult.similarity r == keyword_formula_lower_fields query doc)%Q
    /\ (0 < ScoredResult.similarity r)%Q.
Proof.
  intro H. apply top_In in H. rewrite keyword_scan_with in H.
  apply scan_with_In in H. destruct H as [doc [s [Hd [Hs ->]]]].
  exists doc. split; [exact Hd|]. split; [reflexivity|].
  apply keyword_pick_some in Hs. exact Hs.
Qed.

(** A list shorter than [k] after truncation lost nothing. *)
Lemma top_all k results r :
  length (top k results) < k -> In r results -> In r (top k results).
Proof.
  unfold top, slice0. intros Hlen Hr.
  rewrite length_firstn in Hlen.
  rewrite firstn_all2 by lia.
  eapply Permutation_in; [symmetry; apply sort_perm | exact Hr].
Qed.

Lemma similarity_results_complete query k threshold docs doc s :
  length (similarity_results query k threshold docs) < k ->
  In doc docs ->
  calculateQuestionSimilarity (tokenize (toLowerCase query))
    (Document.tokens doc) = Fin s ->
  (threshold <= s)%Q ->
  In (entry doc s) (similarity_results query k threshold docs).
Proof.
  intros Hlen Hdoc Hs Ht. apply top_all; [exact Hlen|].
  rewrite similarity_scan_with. apply scan_with_In.
  exists doc, s. split; [exact Hdoc|]. split; [|reflexivity].
  unfold similarity_pick. rewrite Hs.
  apply Qle_bool_iff in Ht. rewrite Ht. reflexivity.
Qed.


Lemma reachable_ids_increasing (st : store) :
  reachable st -> StronglySorted lt (map doc_id (documents st)).
Proof.
  intro H. apply reachable_loaded in H. destruct H as [data ->].
  apply load_from_ids_increasing.
Qed.

Lemma reachable_document (st : store) (doc : Document.t) :
  reachable st -> In doc (documents st) ->
  Document.content doc = Metadata.question (Document.metadata doc)
  /\ Document.tokens doc
     = tokenize (toLowerCase (Metadata.question (Document.metadata doc))).
Proof.
  intros H Hd. apply reachable_loaded in H. destruct H as [data E].
  rewrite E in Hd. apply load_from_In in Hd. destruct Hd as [j [r [_ Hd]]].
  apply load_row_some in Hd.
  destruct Hd as [q [a [_ [_ [_ [_ [_ [_ ->]]]]]]]]. split; reflexivity.
Qed.

Lemma similarity_results_ranks query k threshold docs :
  StronglySorted lt (map doc_id docs) ->
  StronglySorted ranks_before (similarity_results query k threshold docs)
  /\ NoDup (map ScoredResult.qa_pair_id
              (similarity_results query k threshold docs)).
Proof.
  intro H. unfold similarity_results. rewrite similarity_scan_with.
  pose proof (scan_with_ids_increasing
                (similarity_pick (tokenize (toLowerCase query)) threshold)
                docs H) as Hscan.
  split; [apply top_ranks; exact Hscan|].
  apply top_NoDup_ids, increasing_NoDup, Hscan.
Qed.

Lemma available_settles file st : available file st -> settles file st.
Proof.
  intros [H|[data ->]]; [left; exact H | right; intros e; discriminate].
Qed.

Lemma available_initialize file st :
  available file st ->
  initialize file st = (Returned tt, snd (initialize file st))
  /\ initialized (snd (initialize file st)) = true.
Proof.
  intros [H|[data ->]].
  - rewrite (initialize_done file st H). split; [reflexivity | exact H].
  - destruct (initialized st) eqn:E.
    + rewrite (initialize_done _ st E). split; [reflexivity | exact E].
    + rewrite (initialize_returned data st E). split; reflexivity.
Qed.

Lemma similarity_results_distinct query k threshold docs :
  StronglySorted lt (map doc_id docs) ->
  NoDup (map ScoredResult.qa_pair_id
           (similarity_results query k threshold docs)).
Proof. intro H. apply similarity_results_ranks. exact H. Qed.

Lemma keyword_results_distinct query k docs :
  StronglySorted lt (map doc_id docs) ->
  NoDup (map ScoredResult.qa_pair_id (keyword_results query k docs)).
Proof.
  intro H. unfold keyword_results. rewrite keyword_scan_with.
  apply top_NoDup_ids, increasing_NoDup, scan_with_ids_increasing, H.
Qed.

(** The two lists a call of [questionSearch] fuses have no repeated
    identifier each. *)
Lemma questionSearch_steps_distinct file query k threshold st sims kws :
  reachable st ->
  (initialized (snd (initialize file st)) = true
   /\ sims = similarity_results query k threshold
               (documents (snd (initialize file st)))
   /\ kws = keyword_results query k (documents (snd (initialize file st))))
  \/ (initialized (snd (initialize file st)) = false
      /\ sims = [] /\ kws = []) ->
  NoDup (map ScoredResult.qa_pair_id sims)
  /\ NoDup (map ScoredResult.qa_pair_id kws).
Proof.
  intros Hst Hcases.
  assert (Hids : StronglySorted lt
                   (map doc_id (documents (snd (initialize file st)))))
    by (apply reachable_ids_increasing; constructor; exact Hst).
  destruct Hcases as [[_ [-> ->]]|[_ [-> ->]]]; [|split; constructor].
  split; [apply similarity_results_distinct | apply keyword_results_distinct];
    exact Hids.
Qed.

(** The fused list keeps the best of its candidates. *)
Lemma fused_keeps_best k sims kws r :
  NoDup (map ScoredResult.qa_pair_id sims) ->
  NoDup (map ScoredResult.qa_pair_id kws) ->
  In r sims
  \/ (In r kws
      /\ ~ In (ScoredResult.qa_pair_id r)
             (map ScoredResult.qa_pair_id sims)) ->
  In r (fused k sims kws)
  \/ (length (fused k sims kws) = k
      /\ Forall
           (fun kept =>
              (ScoredResult.similarity r <= ScoredResult.similarity kept)%Q)
           (fused k sims kws)).
Proof.
  intros H1 H2 Hr. apply top_keeps_best.
  apply unique_scan_app_In; assumption.
Qed.

Lemma keyword_results_keeps_first query k docs doc :
  StronglySorted lt (map doc_id docs) ->
  In doc docs ->
  (0 < keyword_formula_lower_fields query doc)%Q ->
  exists r,
    r = entry doc (ScoredResult.similarity r)
    /\ (ScoredResult.similarity r == keyword_formula_lower_fields query doc)%Q
    /\ (In r (keyword_results query k docs)
        \/ (length (keyword_results query k docs) = k
            /\ Forall (fun kept => ranks_before kept r)
                 (keyword_results query k docs))).
Proof.
  intros Hids Hdoc Hpos.
  set (score := keyword_score (toLowerCase query)
    (filter (fun word => 2 <? length word) (split_ws (toLowerCase query)))
    doc).
  exists (entry doc (score / 10)). split; [reflexivity|].
  split; [apply keyword_score_formula|].
  unfold keyword_results. rewrite keyword_scan_with.
  apply top_keeps_first; [apply scan_with_ids_increasing; exact Hids|].
  apply scan_with_In.
  exists doc, (score / 10)%Q. split; [exact Hdoc|]. split; [|reflexivity].
  unfold keyword_pick. fold score.
  rewrite <- keyword_score_formula in Hpos. fold score in Hpos.
  assert (H : (0 < score)%Q).
  { apply (Qmult_lt_r _ _ (/ 10)); [reflexivity|].
    rewrite Qmult_0_l. exact Hpos. }
  apply Qgt_alt in H. rewrite H. reflexivity.
Qed.

Lemma keyword_results_ranks query k docs :
  StronglySorted lt (map doc_id docs) ->
  StronglySorted ranks_before (keyword_results query k docs).
Proof.
  intro H. unfold keyword_results. rewrite keyword_scan_with.
  apply top_ranks, scan_with_ids_increasing, H.
Qed.

Lemma all_or {A : Type} (P : A -> Prop) (Q : Prop) (l : list A) :
  (forall x, In x l -> P x \/ Q) -> (forall x, In x l -> P x) \/ Q.
Proof.
  induction l as [|a l IH]; intro H; [left; intros x []|].
  destruct (H a (or_introl eq_refl)) as [Ha|HQ]; [|right; exact HQ].
  destruct IH as [Hl|HQ]; [intros x Hx; apply H; right; exact Hx | |right; exact HQ].
  left. intros x [<-|Hx]; [exact Ha | exact (Hl x Hx)].
Qed.

Lemma NoDup_of_map {A B : Type} (f : A -> B) (l : list A) :
  NoDup (map f l) -> NoDup l.
Proof.
  induction l as [|a l IH]; intro H; [constructor|].
  cbn [map] in H. apply NoDup_cons_iff in H. destruct H as [Ha Hl].
  constructor; [|exact (IH Hl)].
  intro Hin. apply Ha. apply in_map. exact Hin.
Qed.

(** When the similarity list is full of entries that score at least [s],
    so is the fused list. *)
Lemma fused_full k sims kws (s : Q) :
  NoDup (map ScoredResult.qa_pair_id sims) ->
  NoDup (map ScoredResult.qa_pair_id kws) ->
  length sims = k ->
  Forall (fun kept => (s <= ScoredResult.similarity kept)%Q) sims ->
  length (fused k sims kws) = k
  /\ Forall (fun kept => (s <= ScoredResult.similarity kept)%Q)
       (fused k sims kws).
Proof.
  intros H1 H2 Hlen Hall. rewrite Forall_forall in Hall.
  destruct (all_or
              (fun r => In r (fused k sims kws))
              (length (fused k sims kws) = k
               /\ Forall (fun kept => (s <= ScoredResult.similarity kept)%Q)
                    (fused k sims kws))
              sims) as [Hin|H]; [|assert (Hlen' : length (fused k sims kws) <= k) by apply top_length|exact H].
  - intros r Hr.
    destruct (fused_keeps_best k sims kws r H1 H2 (or_introl Hr))
      as [H|[Hl Hf]]; [left; exact H|].
    right. split; [exact Hl|].
    eapply Forall_impl; [|exact Hf]. intros kept Hk. cbn beta in Hk.
    eapply Qle_trans; [apply Hall; exact Hr | exact Hk].
  - pose proof (NoDup_of_map _ _ H1) as Hnd.
    pose proof (NoDup_incl_length Hnd Hin) as Hle.
    split; [lia|].
    apply Forall_forall. intros r Hr. apply Hall.
    assert (Hback : incl (fused k sims kws) sims)
      by (apply NoDup_length_incl; [exact Hnd | lia | exact Hin]).
    exact (Hback r Hr).
Qed.

Lemma Binary64_similaritySearch_run file query k threshold st :
  Binary64.similaritySearch file query k threshold st
  = match initialize file st with
    | (Returned _, st') =>
      (Returned (binary64_results query k threshold (documents st')), st')
    | (Thrown _, st') => (Returned [], st')
    | (Uncaught e, st') => (Uncaught e, st')
    end.
Proof.
  unfold Binary64.similaritySearch, try_catch, bind.
  destruct (initialize file st) as [[[]|e|e] st']; try reflexivity.
  unfold get, ret, binary64_results, top. rewrite Binary64_sort. reflexivity.
Qed.

Lemma binary64_pick_some queryTokens threshold doc score :
  binary64_pick queryTokens threshold doc = Some score
  <-> Binary64.calculateQuestionSimilarity queryTokens (Document.tokens doc)
      = Fin score
      /\ (threshold <= score)%Q.
Proof.
  unfold binary64_pick.
  destruct (Binary64.calculateQuestionSimilarity queryTokens
              (Document.tokens doc)) as [s|].
  - destruct (Qle_bool threshold s) eqn:Ht.
    + apply Qle_bool_iff in Ht. split.
      * intro H. injection H as <-. split; [reflexivity | exact Ht].
      * intros [H _]. injection H as <-. reflexivity.
    + split; [discriminate|]. intros [H Hle]. injection H as <-.
      apply Qle_bool_iff in Hle. congruence.
  - split; [discriminate | intros [H _]; discriminate].
Qed.

(** ** The keyword scorer in binary64 *)

(** One [score += c] on a multiple of one half: the sum is exact. *)
Lemma keyword_step (hit : bool) (b e c : Q) (B j : Z) :
  (b == e)%Q ->
  (exists k : Z, (e == k # 2)%Q /\ (0 <= k <= B)%Z) ->
  (c == j # 2)%Q -> (0 <= j)%Z -> (B + j < 2 ^ 53)%Z ->
  ((if hit then Binary64.round (b + c) else b)
   == (if hit then e + c else e))%Q
  /\ exists k : Z,
       ((if hit then e + c else e) == k # 2)%Q /\ (0 <= k <= B + j)%Z.
Proof.
  intros Hb [k [He Hk]] Hc Hj HB. destruct hit.
  - assert (Hsum : (e + c == (k + j) # 2)%Q).
    { rewrite He, Hc. unfold Qeq, Qplus. cbn [Qnum Qden]. lia. }
    split.
    + rewrite (round_half (b + c) (k + j)).
      * rewrite Hb. reflexivity.
      * rewrite Hb. exact Hsum.
      * lia.
    + exists (k + j)%Z. split; [exact Hsum | lia].
  - split; [exact Hb|]. exists k. split; [exact He | lia].
Qed.

Lemma keyword_words (questionLower answerLower : str) (words : list str) :
  forall (b e : Q) (B : Z),
    (b == e)%Q ->
    (exists k : Z, (e == k # 2)%Q /\ (0 <= k <= B)%Z) ->
    (B + 6 * Z.of_nat (length words) < 2 ^ 53)%Z ->
    (fold_left
       (fun score word =>
          let score :=
            if includes questionLower word
            then Binary64.round (score + 2) else score in
          if includes answerLower word
          then Binary64.round (score + 1) else score)
       words b
     == fold_left
          (fun score word =>
             let score :=
               if includes questionLower word then (score + 2)%Q else score in
             if includes answerLower word then (score + 1)%Q else score)
          words e)%Q
    /\ exists k : Z,
         (fold_left
            (fun score word =>
               let score :=
                 if includes questionLower word then (score + 2)%Q
                 else score in
               if includes answerLower word then (score + 1)%Q else score)
            words e == k # 2)%Q
         /\ (0 <= k <= B + 6 * Z.of_nat (length words))%Z.
Proof.
  induction words as [|word rest IH]; intros b e B Hb He HB.
  - cbn [fold_left length]. split; [exact Hb|].
    destruct He as [k [He Hk]]. exists k. split; [exact He | cbn; lia].
  - cbn [fold_left]. cbn [length] in HB. cbv zeta.
    destruct (keyword_step (includes questionLower word) b e 2 B 4 Hb He)
      as [Hb1 He1]; [reflexivity | lia | lia |].
    destruct (keyword_step (includes answerLower word) _ _ 1 (B + 4) 2
                Hb1 He1) as [Hb2 He2]; [reflexivity | lia | lia |].
    destruct (IH _ _ (B + 4 + 2)%Z Hb2 He2) as [H1 [k [H2 H3]]]; [lia|].
    split; [exact H1|]. exists k. split; [exact H2|]. cbn [length]. lia.
Qed.

(** With fewer than 2^50 query words the score accumulated in binary64 is
    the exact sum. *)
Lemma Binary64_keyword_score (queryLower : str) (queryWords : list str)
    (doc : Document.t) :
  (Z.of_nat (length queryWords) < 2 ^ 50)%Z ->
  (Binary64.keyword_score queryLower queryWords doc
   == keyword_score queryLower queryWords doc)%Q.
Proof.
  intro Hlen. unfold Binary64.keyword_score, keyword_score. cbv zeta.
  set (questionLower :=
         toLowerCase (Metadata.question (Document.metadata doc))).
  set (answerLower := toLowerCase (Metadata.answer (Document.metadata doc))).
  assert (H0 : (0 == 0)%Q
               /\ exists k : Z, (0 == k # 2)%Q /\ (0 <= k <= 0)%Z).
  { split; [reflexivity|]. exists 0%Z. split; [reflexivity | lia]. }
  destruct H0 as [Hb0 He0].
  destruct (keyword_step (includes questionLower queryLower) 0 0 3 0 6
              Hb0 He0) as [Hb1 He1]; [reflexivity | lia | reflexivity |].
  destruct (keyword_step (includes answerLower queryLower) _ _ 2 (0 + 6) 4
              Hb1 He1) as [Hb2 He2]; [reflexivity | lia | reflexivity |].
  destruct (keyword_words questionLower answerLower queryWords _ _
              (0 + 6 + 4)%Z Hb2 He2) as [Hb3 He3].
  { change (2 ^ 53)%Z with 9007199254740992%Z.
    change (2 ^ 50)%Z with 1125899906842624%Z in Hlen. lia. }
  assert (Hhalf : (Binary64.round 0.5 == 0.5)%Q) by (vm_compute; reflexivity).
  destruct (keyword_step
              (includes
                 (toLowerCase (Metadata.source (Document.metadata doc)))
                 queryLower) _ _ 0.5
              (0 + 6 + 4 + 6 * Z.of_nat (length queryWords))%Z 1 Hb3 He3)
    as [Hb4 _]; [reflexivity | lia | |].
  { change (2 ^ 53)%Z with 9007199254740992%Z.
    change (2 ^ 50)%Z with 1125899906842624%Z in Hlen. lia. }
  destruct (includes (toLowerCase (Metadata.source (Document.metadata doc)))
              queryLower); [|exact Hb4].
  match goal with
  | |- (Binary64.round (?x + _) == _)%Q =>
    rewrite (round_morphism (x + Binary64.round 0.5) (x + 0.5))
      by (rewrite Hhalf; reflexivity)
  end.
  exact Hb4.
Qed.

Lemma split_ws_length (s : str) : length (split_ws s) <= S (length s).
Proof.
  induction s as [|c s IH]; [cbn; lia|].
  cbn [split_ws].
  destruct (is_space c).
  - destruct s as [|c' s']; [cbn; lia|].
    destruct (is_space c'); cbn [length] in *; lia.
  - destruct (split_ws s) as [|piece pieces]; cbn [length] in *; lia.
Qed.

Lemma queryWords_length (query : str) :
  (Z.of_nat (length query) < 2 ^ 32)%Z ->
  (Z.of_nat
     (length (filter (fun word => (2 <? length word)%nat)
                (split_ws (toLowerCase query)))) < 2 ^ 50)%Z.
Proof.
  intro H.
  pose proof (filter_length_le (fun word : str => 2 <? length word)
                (split_ws (toLowerCase query))) as H1.
  pose proof (split_ws_length (toLowerCase query)) as H2.
  unfold toLowerCase in H2 at 2. rewrite length_map in H2.
  change (2 ^ 50)%Z with 1125899906842624%Z.
  change (2 ^ 32)%Z with 4294967296%Z in H.
  apply Z.le_lt_trans with (Z.of_nat (S (length query))); [|lia].
  apply inj_le. etransitivity; [exact H1 | exact H2].
Qed.

Lemma Binary64_keyword_scan_with queryLower queryWords docs :
  Binary64.keyword_scan queryLower queryWords docs
  = scan_with (binary64_keyword_pick queryLower queryWords) docs.
Proof.
  induction docs as [|doc rest IH]; [reflexivity|].
  cbn [Binary64.keyword_scan scan_with]. unfold binary64_keyword_pick at 1.
  cbv zeta.
  destruct (Binary64.keyword_score queryLower queryWords doc ?= 0)%Q;
    try exact IH.
  unfold entry. rewrite IH. reflexivity.
Qed.

(** What the scan in binary64 pushes for a document: the quotient of the
    exact sum by ten, rounded once; and it pushes an entry exactly for the
    documents whose sum is positive. *)
Lemma binary64_keyword_pick_formula (query : str) (doc : Document.t) :
  (Z.of_nat (length query) < 2 ^ 32)%Z ->
  binary64_keyword_pick (toLowerCase query)
    (filter (fun word => 2 <? length word) (split_ws (toLowerCase query)))
    doc
  = if Qle_bool (keyword_formula_lower_fields query doc) 0 then None
    else Some (Binary64.round (keyword_formula_lower_fields query doc)).
Proof.
  intro Hlen. unfold binary64_keyword_pick.
  pose proof (Binary64_keyword_score (toLowerCase query) _ doc
                (queryWords_length query Hlen)) as Hscore.
  pose proof (keyword_score_formula query doc) as Hformula.
  set (b := Binary64.keyword_score _ _ doc) in *.
  set (e := keyword_score _ _ doc) in *.
  set (f := keyword_formula_lower_fields query doc) in *.
  assert (Hbf : (b / 10 == f)%Q) by (rewrite Hscore; exact Hformula).
  rewrite (round_morphism _ _ Hbf).
  assert (Hsign : (b ?= 0)%Q = (f ?= 0)%Q).
  { assert (E : (b == f * 10)%Q) by (rewrite <- Hbf; field).
    rewrite E.
    destruct (Qcompare_spec f 0) as [H|H|H].
    - rewrite H. reflexivity.
    - apply -> Qlt_alt.
      setoid_replace 0%Q with (0 * 10)%Q by reflexivity.
      apply Qmult_lt_compat_r; [reflexivity | exact H].
    - apply -> Qgt_alt.
      setoid_replace 0%Q with (0 * 10)%Q by reflexivity.
      apply Qmult_lt_compat_r; [reflexivity | exact H]. }
  rewrite Hsign.
  destruct (Qcompare_spec f 0) as [H|H|H].
  - assert (E : Qle_bool f 0 = true) by (apply Qle_bool_iff; rewrite H; apply Qle_refl).
    rewrite E. reflexivity.
  - assert (E : Qle_bool f 0 = true)
      by (apply Qle_bool_iff; apply Qlt_le_weak; exact H).
    rewrite E. reflexivity.
  - destruct (Qle_bool f 0) eqn:E; [|reflexivity].
    apply Qle_bool_iff in E. exfalso. exact (Qlt_not_le _ _ H E).
Qed.

Lemma binary64_keyword_pick_some (query : str) (doc : Document.t) (score : Q) :
  (Z.of_nat (length query) < 2 ^ 32)%Z ->
  binary64_keyword_pick (toLowerCase query)
    (filter (fun word => 2 <? length word) (split_ws (toLowerCase query)))
    doc = Some score
  <-> score = Binary64.round (keyword_formula_lower_fields query doc)
      /\ (0 < keyword_formula_lower_fields query doc)%Q.
Proof.
  intro Hlen. rewrite (binary64_keyword_pick_formula query doc Hlen).
  destruct (Qle_bool (keyword_formula_lower_fields query doc) 0) eqn:E.
  - apply Qle_bool_iff in E. split; [discriminate|].
    intros [_ H]. exfalso. exact (Qlt_not_le _ _ H E).
  - split.
    + intro H. injection H as <-. split; [reflexivity|].
      apply Qnot_le_lt. intro H. apply Qle_bool_iff in H. congruence.
    + intros [-> _]. reflexivity.
Qed.

(** ** The similarity scorer in binary64 *)

Lemma Binary64_questionBoost_nonneg (queryTokens docTokens : list str) :
  (0 <= Binary64.questionBoost queryTokens docTokens)%Q.
Proof.
  unfold Binary64.questionBoost.
  assert (H : forall words boost, (0 <= boost)%Q ->
    (0 <= fold_left
            (fun questionBoost word =>
               if (array_includes queryTokens word
                   && array_includes docTokens word)%bool
               then Binary64.round (questionBoost + Binary64.round 0.1)
               else questionBoost)
            words boost)%Q).
  { induction words as [|w words IH]; intros boost Hb; [exact Hb|].
    cbn [fold_left]. apply IH.
    destruct (array_includes queryTokens w && array_includes docTokens w)%bool;
      [|exact Hb].
    apply round_nonneg.
    apply (Qle_trans _ (0 + 0)); [discriminate|].
    apply Qplus_le_compat; [exact Hb | vm_compute; discriminate]. }
  apply H. apply Qle_refl.
Qed.

Lemma Binary64_length_ratio_fin (a b : nat) :
  0 < b ->
  Binary64.length_ratio a b
  = Fin (Binary64.round (Z.of_nat a # Pos.of_nat b)).
Proof. destruct b; [lia | reflexivity]. Qed.

(** In binary64 too a score is a number from 0 to 1, or [NaN], and [NaN]
    exactly when both token lists are empty. *)
Lemma Binary64_calculateQuestionSimilarity_cases (queryTokens docTokens
    : list str) :
  (queryTokens = [] /\ docTokens = []
   /\ Binary64.calculateQuestionSimilarity queryTokens docTokens = NaN)
  \/ (queryTokens ++ docTokens <> []
      /\ exists s,
           Binary64.calculateQuestionSimilarity queryTokens docTokens = Fin s
           /\ (0 <= s)%Q /\ (s <= 1)%Q).
Proof.
  unfold Binary64.calculateQuestionSimilarity, Binary64.jaccard.
  destruct (length (union queryTokens docTokens)) as [|u] eqn:Hu.
  - left. apply length_zero_iff_nil, union_empty in Hu.
    destruct Hu as [-> ->]. repeat split.
  - right. split.
    + intro H. unfold union in Hu. rewrite H in Hu. discriminate.
    + rewrite Binary64_length_ratio_fin by lia.
      cbn [Binary64.add Math_min].
      eexists. split; [reflexivity|]. split.
      * apply Q.min_glb; [|discriminate].
        apply round_nonneg.
        apply (Qle_trans _ (0 + 0)); [discriminate|].
        apply Qplus_le_compat;
          [apply round_nonneg, ratio_nonneg
          | apply Binary64_questionBoost_nonneg].
      * apply Q.le_min_r.
Qed.

(** A token list scored against itself reaches the cap in binary64 too. *)
Lemma Binary64_calculateQuestionSimilarity_self (tokens : list str) :
  tokens <> [] ->
  exists s,
    Binary64.calculateQuestionSimilarity tokens tokens = Fin s /\ (s == 1)%Q.
Proof.
  intro Hne. unfold Binary64.calculateQuestionSimilarity, Binary64.jaccard.
  rewrite intersection_self.
  pose proof (union_self_length tokens) as Hle.
  assert (Hpos : 0 < length (union tokens tokens)).
  { destruct (length (union tokens tokens)) eqn:E; [|lia].
    apply length_zero_iff_nil, union_empty in E. tauto. }
  rewrite Binary64_length_ratio_fin by exact Hpos.
  cbn [Binary64.add Math_min].
  eexists. split; [reflexivity|]. apply Q.min_r.
  apply round_ge_one.
  apply (Qle_trans _ (1 + 0)); [discriminate|].
  apply Qplus_le_compat;
    [apply round_ge_one, ratio_at_least_one; assumption
    | apply Binary64_questionBoost_nonneg].
Qed.

Lemma binary64_results_In query k threshold docs r :
  In r (binary64_results query k threshold docs) ->
  exists doc,
    In doc docs /\ r = entry doc (ScoredResult.similarity r)
    /\ Binary64.calculateQuestionSimilarity (tokenize (toLowerCase query))
         (Document.tokens doc) = Fin (ScoredResult.similarity r)
    /\ (threshold <= ScoredResult.similarity r)%Q
    /\ (0 <= ScoredResult.similarity r)%Q
    /\ (ScoredResult.similarity r <= 1)%Q.
Proof.
  intro H. apply top_In in H. rewrite Binary64_similarity_scan_with in H.
  apply scan_with_In in H. destruct H as [doc [s [Hd [Hs ->]]]].
  exists doc. split; [exact Hd|]. split; [reflexivity|].
  apply binary64_pick_some in Hs. destruct Hs as [Hs Ht].
  cbn [entry ScoredResult.similarity].
  split; [exact Hs|]. split; [exact Ht|].
  destruct (Binary64_calculateQuestionSimilarity_cases
              (tokenize (toLowerCase query)) (Document.tokens doc))
    as [[_ [_ E]]|[_ [s' [E H]]]]; rewrite E in Hs; [discriminate|].
  injection Hs as <-. exact H.
Qed.

Lemma binary64_results_distinct query k threshold docs :
  StronglySorted lt (map doc_id docs) ->
  NoDup (map ScoredResult.qa_pair_id
           (binary64_results query k threshold docs)).
Proof.
  intro H. unfold binary64_results. rewrite Binary64_similarity_scan_with.
  apply top_NoDup_ids, increasing_NoDup, scan_with_ids_increasing, H.
Qed.

Lemma binary64_keyword_results_distinct query k docs :
  StronglySorted lt (map doc_id docs) ->
  NoDup (map ScoredResult.qa_pair_id (binary64_keyword_results query k docs)).
Proof.
  intro H. unfold binary64_keyword_results. rewrite Binary64_keyword_scan_with.
  apply top_NoDup_ids, increasing_NoDup, scan_with_ids_increasing, H.
Qed.

Lemma binary64_keyword_results_In query k docs r :
  (Z.of_nat (length query) < 2 ^ 32)%Z ->
  In r (binary64_keyword_results query k docs) ->
  exists doc,
    In doc docs /\ r = entry doc (ScoredResult.similarity r)
    /\ ScoredResult.similarity r
       = Binary64.round (keyword_formula_lower_fields query doc)
    /\ (0 < keyword_formula_lower_fields query doc)%Q
    /\ (0 < ScoredResult.similarity r)%Q.
Proof.
  intros Hlen H. apply top_In in H. rewrite Binary64_keyword_scan_with in H.
  apply scan_with_In in H. destruct H as [doc [s [Hd [Hs ->]]]].
  exists doc. split; [exact Hd|]. split; [reflexivity|].
  apply (binary64_keyword_pick_some query doc s Hlen) in Hs.
  destruct Hs as [-> Hpos]. cbn [entry ScoredResult.similarity].
  split; [reflexivity|]. split; [exact Hpos|].
  apply round_positive_iff. exact Hpos.
Qed.

Lemma binary64_keyword_results_keeps_first query k docs doc :
  (Z.of_nat (length query) < 2 ^ 32)%Z ->
  StronglySorted lt (map doc_id docs) ->
  In doc docs ->
  (0 < keyword_formula_lower_fields query doc)%Q ->
  In (entry doc (Binary64.round (keyword_formula_lower_fields query doc)))
    (binary64_keyword_results query k docs)
  \/ (length (binary64_keyword_results query k docs) = k
      /\ Forall
           (fun kept =>
              ranks_before kept
                (entry doc
                   (Binary64.round (keyword_formula_lower_fields query doc))))
           (binary64_keyword_results query k docs)).
Proof.
  intros Hlen Hids Hdoc Hpos.
  unfold binary64_keyword_results. rewrite Binary64_keyword_scan_with.
  apply top_keeps_first; [apply scan_with_ids_increasing; exact Hids|].
  apply scan_with_In. eexists doc, _. split; [exact Hdoc|].
  split; [|reflexivity].
  apply (binary64_keyword_pick_some query doc _ Hlen).
  split; [reflexivity | exact Hpos].
Qed.

Lemma binary64_keyword_results_ranks query k docs :
  StronglySorted lt (map doc_id docs) ->
  StronglySorted ranks_before (binary64_keyword_results query k docs).
Proof.
  intro H. unfold binary64_keyword_results. rewrite Binary64_keyword_scan_with.
  apply top_ranks, scan_with_ids_increasing, H.
Qed.

(** ** Runs of the searches in binary64 *)

Lemma Binary64_keywordSearch_run file query k st :
  Binary64.keywordSearch file query k st
  = match initialize file st with
    | (Returned _, st') =>
      (Returned (binary64_keyword_results query k (documents st')), st')
    | (Thrown _, st') => (Returned [], st')
    | (Uncaught e, st') => (Uncaught e, st')
    end.
Proof.
  unfold Binary64.keywordSearch, try_catch, bind.
  destruct (initialize file st) as [[[]|e|e] st']; try reflexivity.
  unfold get, ret, binary64_keyword_results, top. rewrite Binary64_sort.
  reflexivity.
Qed.

Lemma Binary64_questionSearch_run file query k threshold st
    similarityResults st1 keywordResults st2 :
  Binary64.similaritySearch file query k threshold st
    = (Returned similarityResults, st1) ->
  Binary64.keywordSearch file query k st1 = (Returned keywordResults, st2) ->
  Binary64.questionSearch file query k threshold st
  = (Returned (fused k similarityResults keywordResults), st2).
Proof.
  intros H1 H2. unfold Binary64.questionSearch, try_catch, bind.
  rewrite H1, H2. unfold ret, fused, top. rewrite Binary64_sort. reflexivity.
Qed.

(** One call of [questionSearch] in binary64 whose load settles, step by
    step. *)
Lemma Binary64_questionSearch_steps file query k threshold st :
  settles file st ->
  exists similarityResults keywordResults,
    Binary64.similaritySearch file query k threshold st
      = (Returned similarityResults, snd (initialize file st))
    /\ Binary64.keywordSearch file query k (snd (initialize file st))
       = (Returned keywordResults, snd (initialize file st))
    /\ Binary64.questionSearch file query k threshold st
       = (Returned (fused k similarityResults keywordResults),
          snd (initialize file st))
    /\ ((initialized (snd (initialize file st)) = true
         /\ similarityResults
            = binary64_results query k threshold
                (documents (snd (initialize file st)))
         /\ keywordResults
            = binary64_keyword_results query k
                (documents (snd (initialize file st))))
        \/ (initialized (snd (initialize file st)) = false
            /\ similarityResults = [] /\ keywordResults = [])).
Proof.
  intro Hs.
  pose proof (Binary64_similaritySearch_run file query k threshold st) as H1.
  pose proof (Binary64_keywordSearch_run file query k
                (snd (initialize file st))) as H2.
  rewrite initialize_again in H2.
  destruct (settles_initialize file st Hs) as [[st' [E Hi]]|[e [E Hi]]];
    rewrite E in *; cbn [snd] in *.
  - do 2 eexists. split; [exact H1|]. split; [exact H2|].
    split; [exact (Binary64_questionSearch_run _ _ _ _ _ _ _ _ _ H1 H2)|].
    left. repeat split. exact Hi.
  - do 2 eexists. split; [exact H1|]. split; [exact H2|].
    split; [exact (Binary64_questionSearch_run _ _ _ _ _ _ _ _ _ H1 H2)|].
    right. repeat split. exact Hi.
Qed.

(** When the file cannot be opened and the store is not initialized, the
    searches in binary64 end in the uncaught error as well. *)
Lemma Binary64_questionSearch_by_initialize file query k threshold st :
  Binary64.questionSearch file query k threshold st
  = match initialize file st with
    | (Returned _, st') =>
      (Returned
         (fused k (binary64_results query k threshold (documents st'))
            (binary64_keyword_results query k (documents st'))), st')
    | (Thrown _, st') => (Returned [], st')
    | (Uncaught e, st') => (Uncaught e, st')
    end.
Proof.
  pose proof (Binary64_similaritySearch_run file query k threshold st) as H1.
  pose proof (Binary64_keywordSearch_run file query k
                (snd (initialize file st))) as H2.
  rewrite initialize_again in H2.
  destruct (initialize file st) as [[[]|e|e] st'] eqn:E; cbn [snd] in *.
  - exact (Binary64_questionSearch_run _ _ _ _ _ _ _ _ _ H1 H2).
  - rewrite (Binary64_questionSearch_run _ _ _ _ _ _ _ _ _ H1 H2).
    unfold fused. cbn [app unique_scan]. rewrite top_nil. reflexivity.
  - unfold Binary64.questionSearch, try_catch, bind. rewrite H1. reflexivity.
Qed.

(** ** The specification's examples *)

Example short_question_excluded :
  load_row 0 (row "short" "irrelevant text here" None) = None.
Proof. reflexivity. Qed.

Example password_example :
  exists r st',
    questionSearch (Returned password_corpus) (lit "how to reset password")
      5 0.3 SimpleVectorStore_new = (Returned [r], st')
    /\ ScoredResult.document r = lit "How do I reset my password?"
    /\ (0 < ScoredResult.similarity r)%Q.
Proof.
  do 2 eexists. split; [vm_compute; reflexivity|].
  split; reflexivity.
Qed.

Example same_question_two_sources :
  map (fun doc => (doc_id doc, Metadata.source (Document.metadata doc)))
    (load_from 0
       [row "How do I reset my password?" "Go to settings and click reset."
          (Some "wiki"%string);
        row "How do I reset my password?" "Go to settings and click reset."
          (Some "handbook"%string)])
  = [(0, lit "wiki"); (1, lit "handbook")].
Proof. vm_compute. reflexivity. Qed.

Example gap_at_skipped_record :
  map doc_id (load_from 0 gapped_corpus) = [0; 2].
Proof. vm_compute. reflexivity. Qed.

(** Rounding decides: the first question of [boundary_corpus] scores
    7/10 + 0.1 and the second 6/10 + 0.2.  The exact sums are both 4/5; in
    binary64 the first is 0.7999999999999999 and the second 0.8.  In exact
    arithmetic the two documents tie and come back in corpus order, also
    with the threshold 4/5; in binary64 the second document comes first, and
    with the threshold 0.8 it comes back alone. *)
Example rounding_decides :
  let query := lit "how and what signing keys rotate safely quarterly" in
  let ids (run : outcome (list ScoredResult.t) * store) :=
    match fst run with
    | Returned results => map ScoredResult.qa_pair_id results
    | _ => []
    end in
  ids (similaritySearch (Returned boundary_corpus) query 5 0.5
         SimpleVectorStore_new) = [0; 1]
  /\ ids (Binary64.similaritySearch (Returned boundary_corpus) query 5
            (Binary64.round 0.5) SimpleVectorStore_new) = [1; 0]
  /\ ids (similaritySearch (Returned boundary_corpus) query 5 0.8
            SimpleVectorStore_new) = [0; 1]
  /\ ids (Binary64.similaritySearch (Returned boundary_corpus) query 5
            (Binary64.round 0.8) SimpleVectorStore_new) = [1].
Proof. repeat split; vm_compute; reflexivity. Qed.

(** * The claims *)

(** C1.  Claimed: [calculateQuestionSimilarity] always returns a value in
    [0,1], and 0 when both token lists are empty.  On two empty lists the
    source divides 0 by 0: the result is [NaN], which is no value of [0,1].
    Such lists arise from real inputs: the query "hi" and the stored
    question "is it ok to" have no token longer than two characters. *)
Theorem calculateQuestionSimilarity_empty_tokens :
  calculateQuestionSimilarity [] [] = NaN
  /\ tokenize (toLowerCase (lit "hi")) = []
  /\ tokenize (toLowerCase (lit "is it ok to")) = []
  /\ calculateQuestionSimilarity
       (tokenize (toLowerCase (lit "hi")))
       (tokenize (toLowerCase (lit "is it ok to"))) = NaN.
Proof. repeat split; vm_compute; reflexivity. Qed.

(** C10.  There are query tokens with a repeated token that occurs in the
    document's tokens for which the quotient the source computes exceeds the
    Jaccard index of the two token sets, and the returned score changes when
    the query tokens are replaced by their set, although both queries have
    the same set of tokens. *)
Theorem repeated_query_token_changes_score :
  exists (queryTokens docTokens : list str) (token : str),
    1 < count_occ str_eq_dec queryTokens token
    /\ In token docTokens
    /\ (forall t, In t (set_of queryTokens) <-> In t queryTokens)
    /\ (exists a b,
          jaccard queryTokens docTokens = Fin a
          /\ jaccard_of_sets queryTokens docTokens = Fin b
          /\ (b < a)%Q)
    /\ (exists s s',
          calculateQuestionSimilarity queryTokens docTokens = Fin s
          /\ calculateQuestionSimilarity (set_of queryTokens) docTokens
             = Fin s'
          /\ ~ (s == s')%Q).
Proof.
  exists [lit "reset"; lit "reset"], [lit "reset"; lit "password"], (lit "reset").
  split; [vm_compute; lia|].
  split; [left; reflexivity|].
  split; [intro t; apply set_of_In|].
  split.
  - do 2 eexists. split; [vm_compute; reflexivity|].
    split; [vm_compute; reflexivity|]. reflexivity.
  - do 2 eexists. split; [vm_compute; reflexivity|].
    split; [vm_compute; reflexivity|]. discriminate.
Qed.

(** C7.  Loading a sequence of records succeeds, and in the index it builds:
    identifiers are strictly increasing in storage order (so unique); every
    document comes from the record whose input index is its [qa_pair_id],
    with that record's trimmed question and answer, each at least ten code
    units long and not the placeholder "nan", and with source "unknown" when
    the record has none; and an input index is the identifier of a document
    exactly when its record passes the checks, which leaves gaps at the
    skipped records. *)
Theorem loadDocuments_index (data : list Row.t) (st : store) :
  exists st',
    loadDocuments (Returned data) st = (Returned tt, st')
    /\ StronglySorted lt (map doc_id (documents st'))
    /\ NoDup (map doc_id (documents st'))
    /\ (forall doc, In doc (documents st') ->
        exists row question answer,
          nth_error data (doc_id doc) = Some row
          /\ Row.question row = Some question
          /\ Row.answer row = Some answer
          /\ Metadata.question (Document.metadata doc) = trim question
          /\ Metadata.answer (Document.metadata doc) = trim answer
          /\ 10 <= length (Metadata.question (Document.metadata doc))
          /\ 10 <= length (Metadata.answer (Document.metadata doc))
          /\ Metadata.question (Document.metadata doc) <> lit "nan"
          /\ Metadata.answer (Document.metadata doc) <> lit "nan"
          /\ (Row.source row = None ->
              Metadata.source (Document.metadata doc) = lit "unknown"))
    /\ (forall index row, nth_error data index = Some row ->
        (In index (map doc_id (documents st')) <-> kept row)).
Proof.
  exists (loaded data st). split; [apply loadDocuments_returned|].
  cbn [loaded documents].
  split; [apply load_from_ids_increasing|].
  split; [apply increasing_NoDup, load_from_ids_increasing|].
  split.
  - intros doc Hdoc. apply load_from_In in Hdoc.
    destruct Hdoc as [j [r [Hj Hrow]]]. cbn [Nat.add] in Hrow.
    apply load_row_some in Hrow.
    destruct Hrow as [q [a [Hq [Ha [H1 [H2 [H3 [H4 ->]]]]]]]].
    exists r, q, a. unfold doc_id. cbn [Document.metadata Metadata.qa_pair_id
      Metadata.question Metadata.answer Metadata.source].
    repeat split; try assumption.
    intros ->. reflexivity.
  - intros index r Hnth. split.
    + intro Hin. apply in_map_iff in Hin. destruct Hin as [doc [Hid Hdoc]].
      apply load_from_In in Hdoc. destruct Hdoc as [j [r' [Hj Hrow]]].
      cbn [Nat.add] in Hrow. pose proof (load_row_id _ _ _ Hrow) as Hid'.
      assert (j = index) by congruence. subst j.
      assert (r' = r) by congruence. subst r'.
      exact (load_row_some_kept _ _ _ Hrow).
    + intro Hk. destruct (kept_load_row index r Hk) as [doc Hrow].
      apply in_map_iff. exists doc. split; [exact (load_row_id _ _ _ Hrow)|].
      apply load_from_In. exists index, r. split; assumption.
Qed.

Lemma loadDocuments_index_witness :
  exists st',
    loadDocuments (Returned gapped_corpus) SimpleVectorStore_new
      = (Returned tt, st')
    /\ NoDup (map doc_id (documents st'))
    /\ (In 1 (map doc_id (documents st'))
        <-> kept (row "Where is the deploy log?" "In CI" (Some "wiki"%string))).
Proof.
  destruct (loadDocuments_index gapped_corpus SimpleVectorStore_new)
    as [st' [H1 [_ [H2 [_ H3]]]]].
  exists st'. split; [exact H1|]. split; [exact H2|].
  apply (H3 1). reflexivity.
Defined.




(** C4.  Claimed: when the corpus source cannot be read at all, the load
    fails with an error that surfaces to the caller, and no query is served.
    When the file cannot be read the read stream emits ['error'], and the
    only ['error'] listener is on the parser: on a store that is not
    initialized, [loadDocuments], [initialize] and the three searches all end
    in the uncaught error, with the store as it was.  No caller receives an
    error, the [catch] blocks do not run, and the process ends.  When it is
    the parser that reports an error, [loadDocuments] and [initialize] throw
    it to their caller, and the three searches catch it and return the empty
    list as an ordinary value. *)
Theorem unreadable_source (e : error) (st : store) (query : str) (k : nat)
    (threshold : Q) :
  initialized st = false ->
  (loadDocuments (Uncaught e) st = (Uncaught e, st)
   /\ initialize (Uncaught e) st = (Uncaught e, st)
   /\ similaritySearch (Uncaught e) query k threshold st = (Uncaught e, st)
   /\ keywordSearch (Uncaught e) query k st = (Uncaught e, st)
   /\ questionSearch (Uncaught e) query k threshold st = (Uncaught e, st))
  /\ (loadDocuments (Thrown e) st = (Thrown e, st)
      /\ initialize (Thrown e) st = (Thrown e, st)
      /\ similaritySearch (Thrown e) query k threshold st = (Returned [], st)
      /\ keywordSearch (Thrown e) query k st = (Returned [], st)
      /\ questionSearch (Thrown e) query k threshold st = (Returned [], st)).
Proof.
  intro H.
  pose proof (initialize_uncaught e st H) as Hu.
  pose proof (initialize_thrown e st H) as Ht.
  split.
  - split; [reflexivity|]. split; [exact Hu|].
    rewrite similaritySearch_run, keywordSearch_run,
      questionSearch_by_initialize, Hu.
    repeat split.
  - split; [reflexivity|]. split; [exact Ht|].
    rewrite similaritySearch_run, keywordSearch_run,
      questionSearch_by_initialize, Ht.
    repeat split.
Qed.

Lemma unreadable_source_witness :
  questionSearch (Uncaught ENOENT) (lit "how to reset password") 5 0.3
    SimpleVectorStore_new
  = (Uncaught ENOENT, SimpleVectorStore_new)
  /\ questionSearch (Thrown ENOENT) (lit "how to reset password") 5 0.3
       SimpleVectorStore_new
     = (Returned [], SimpleVectorStore_new).
Proof.
  destruct (unreadable_source ENOENT SimpleVectorStore_new
              (lit "how to reset password") 5 0.3 eq_refl)
    as [[_ [_ [_ [_ H1]]]] [_ [_ [_ [_ H2]]]]].
  split; [exact H1 | exact H2].
Defined.

(** C9.  With the scores computed in binary64: when the load a call may
    trigger settles (the index is there, or the file can be opened), every
    call of [questionSearch] returns a list, whatever the store and the
    query; the list has at most [k] entries in descending order of score,
    and it is empty when the index holds no document after the call. *)
Theorem questionSearch_returns (file : outcome (list Row.t)) (query : str)
    (k : nat) (threshold : Q) (st : store) :
  settles file st ->
  exists results st',
    Binary64.questionSearch file query k threshold st = (Returned results, st')
    /\ length results <= k
    /\ descending results
    /\ (documents st' = [] -> results = []).
Proof.
  intro Hs.
  destruct (Binary64_questionSearch_steps file query k threshold st Hs)
    as [sims [kws [_ [_ [H Hcases]]]]].
  do 2 eexists. split; [exact H|].
  split; [apply top_length|].
  split; [apply top_descending|].
  intro Hempty.
  assert (E : sims = [] /\ kws = []).
  { destruct Hcases as [[_ [-> ->]]|[_ E]]; [|exact E].
    rewrite Hempty. unfold binary64_results, binary64_keyword_results.
    cbn [Binary64.similarity_scan Binary64.keyword_scan].
    rewrite !top_nil. split; reflexivity. }
  destruct E as [-> ->]. unfold fused. cbn [app unique_scan]. apply top_nil.
Qed.

Lemma questionSearch_returns_witness :
  exists results st',
    Binary64.questionSearch (Returned []) (lit "how to reset password") 5
      (Binary64.round 0.3) SimpleVectorStore_new = (Returned results, st')
    /\ results = [].
Proof.
  destruct (questionSearch_returns (Returned [])
              (lit "how to reset password") 5 (Binary64.round 0.3)
              SimpleVectorStore_new)
    as [results [st' [H [_ [_ Hempty]]]]];
    [right; intros e; discriminate|].
  exists results, st'. split; [exact H|].
  apply Hempty. vm_compute in H. injection H as _ <-. reflexivity.
Defined.

(** C5.  With the scores computed in binary64: on a reachable store, when
    the load settles, [similaritySearch] returns at most [k] results; each
    is the entry of a stored document, carries that document's similarity
    score, which is at least the threshold, and has the document's question
    as its [document] field; scores never increase along the list, and of
    two results with equal scores the one stored earlier (the smaller
    [qa_pair_id], by C7) comes first.  When the index is there, the entry of
    every stored document whose score reaches the threshold is among the
    results, unless the list is full with [k] results that all rank before
    it. *)
Theorem similaritySearch_results (file : outcome (list Row.t)) (query : str)
    (k : nat) (threshold : Q) (st : store) :
  reachable st -> settles file st ->
  exists results st',
    Binary64.similaritySearch file query k threshold st
      = (Returned results, st')
    /\ length results <= k
    /\ Forall
         (fun r =>
            (threshold <= ScoredResult.similarity r)%Q
            /\ ScoredResult.document r
               = Metadata.question (ScoredResult.metadata r)
            /\ exists doc,
                 In doc (documents st')
                 /\ r = entry doc (ScoredResult.similarity r)
                 /\ Binary64.calculateQuestionSimilarity
                      (tokenize (toLowerCase query)) (Document.tokens doc)
                    = Fin (ScoredResult.similarity r))
         results
    /\ descending results
    /\ StronglySorted ranks_before results
    /\ (initialized st' = true ->
        forall doc s,
          In doc (documents st') ->
          Binary64.calculateQuestionSimilarity
            (tokenize (toLowerCase query)) (Document.tokens doc) = Fin s ->
          (threshold <= s)%Q ->
          In (entry doc s) results
          \/ (length results = k
              /\ Forall (fun kept => ranks_before kept (entry doc s))
                   results)).
Proof.
  intros Hst Hs.
  assert (Hst' : reachable (snd (initialize file st)))
    by (constructor; exact Hst).
  pose proof (reachable_ids_increasing _ Hst') as Hids.
  rewrite Binary64_similaritySearch_run.
  destruct (settles_initialize file st Hs) as [[st' [E Hi]]|[e [E Hi]]];
    rewrite E in *; cbn [snd] in Hst', Hids.
  - pose proof (scan_with_ids_increasing
                  (binary64_pick (tokenize (toLowerCase query)) threshold)
                  (documents st') Hids) as Hscan.
    do 2 eexists. split; [reflexivity|].
    unfold binary64_results. rewrite Binary64_similarity_scan_with.
    split; [apply top_length|].
    split.
    + apply Forall_forall. intros r Hr.
      apply top_In, scan_with_In in Hr.
      destruct Hr as [doc [s [Hdoc [Hpick ->]]]].
      apply binary64_pick_some in Hpick. destruct Hpick as [Hscore Hle].
      split; [exact Hle|].
      destruct (reachable_document st' doc Hst' Hdoc) as [Hc _].
      split; [exact Hc|].
      exists doc. split; [exact Hdoc|]. split; [reflexivity | exact Hscore].
    + split; [apply top_descending|].
      split; [apply top_ranks; exact Hscan|].
      intros _ doc s Hdoc Hscore Hle.
      apply top_keeps_first; [exact Hscan|].
      apply scan_with_In. exists doc, s. split; [exact Hdoc|].
      split; [|reflexivity].
      apply binary64_pick_some. split; assumption.
  - do 2 eexists. split; [reflexivity|].
    cbn [length]. split; [lia|].
    split; [constructor|]. split; [constructor|]. split; [constructor|].
    intro H. congruence.
Qed.

Lemma similaritySearch_results_witness :
  exists results st',
    Binary64.similaritySearch (Returned gapped_corpus)
      (lit "how to reset password") 5 (Binary64.round 0.3)
      SimpleVectorStore_new = (Returned results, st')
    /\ length results <= 5
    /\ StronglySorted ranks_before results.
Proof.
  destruct (similaritySearch_results (Returned gapped_corpus)
              (lit "how to reset password") 5 (Binary64.round 0.3)
              SimpleVectorStore_new reach_new)
    as [results [st' [H1 [H2 [_ [_ [H3 _]]]]]]];
    [right; intros e; discriminate|].
  exists results, st'. repeat split; assumption.
Defined.

(** C2.  With the scores computed in binary64: on a reachable store, when
    the load settles, a call of [questionSearch] runs [similaritySearch],
    then [keywordSearch], and returns a list in which no two entries have
    the same [qa_pair_id], of length at most [k], in descending order of
    score.  Every entry of it is an entry of the similarity list, or an
    entry of the keyword list for a document without an entry in the
    similarity list; an entry whose document has an entry in the similarity
    list is that entry.  Each such candidate is in the list, unless the list
    is full with [k] entries that score at least as much. *)
Theorem questionSearch_fuses (file : outcome (list Row.t)) (query : str)
    (k : nat) (threshold : Q) (st : store) :
  reachable st -> settles file st ->
  exists similarityResults st1 keywordResults st2 finalResults,
    Binary64.similaritySearch file query k threshold st
      = (Returned similarityResults, st1)
    /\ Binary64.keywordSearch file query k st1 = (Returned keywordResults, st2)
    /\ Binary64.questionSearch file query k threshold st
       = (Returned finalResults, st2)
    /\ NoDup (map ScoredResult.qa_pair_id finalResults)
    /\ length finalResults <= k
    /\ descending finalResults
    /\ (forall r, In r finalResults ->
          In r similarityResults
          \/ (In r keywordResults
              /\ ~ In (ScoredResult.qa_pair_id r)
                     (map ScoredResult.qa_pair_id similarityResults)))
    /\ (forall r s,
          In r finalResults -> In s similarityResults ->
          ScoredResult.qa_pair_id r = ScoredResult.qa_pair_id s -> r = s)
    /\ (forall r,
          In r similarityResults
          \/ (In r keywordResults
              /\ ~ In (ScoredResult.qa_pair_id r)
                     (map ScoredResult.qa_pair_id similarityResults)) ->
          In r finalResults
          \/ (length finalResults = k
              /\ Forall
                   (fun kept =>
                      (ScoredResult.similarity r
                       <= ScoredResult.similarity kept)%Q)
                   finalResults)).
Proof.
  intros Hst Hs.
  destruct (Binary64_questionSearch_steps file query k threshold st Hs)
    as [sims [kws [H1 [H2 [H3 Hcases]]]]].
  assert (Hids : StronglySorted lt
                   (map doc_id (documents (snd (initialize file st)))))
    by (apply reachable_ids_increasing; constructor; exact Hst).
  assert (Hdistinct : NoDup (map ScoredResult.qa_pair_id sims)
                      /\ NoDup (map ScoredResult.qa_pair_id kws)).
  { destruct Hcases as [[_ [-> ->]]|[_ [-> ->]]].
    - split; [apply binary64_results_distinct
             | apply binary64_keyword_results_distinct]; exact Hids.
    - split; constructor. }
  destruct Hdistinct as [Hsims Hkws].
  exists sims, (snd (initialize file st)), kws, (snd (initialize file st)),
    (fused k sims kws).
  split; [exact H1|]. split; [exact H2|]. split; [exact H3|].
  split; [apply top_NoDup_ids, unique_scan_NoDup|].
  split; [apply top_length|].
  split; [apply top_descending|].
  assert (Hfrom : forall r, In r (fused k sims kws) ->
    In r sims
    \/ (In r kws
        /\ ~ In (ScoredResult.qa_pair_id r)
               (map ScoredResult.qa_pair_id sims))).
  { intros r Hr. apply top_In in Hr. exact (unique_scan_app _ _ _ _ Hr). }
  split; [exact Hfrom|].
  split.
  - intros r s Hr Hin Hid.
    destruct (Hfrom r Hr) as [H|[_ H]].
    + exact (NoDup_map_inj _ _ _ _ Hsims H Hin Hid).
    + exfalso. apply H. rewrite Hid. apply in_map. exact Hin.
  - intros r Hr. apply fused_keeps_best; assumption.
Qed.

Lemma questionSearch_fuses_witness :
  exists finalResults st2,
    Binary64.questionSearch (Returned gapped_corpus)
      (lit "how to reset password") 5 (Binary64.round 0.3)
      SimpleVectorStore_new = (Returned finalResults, st2)
    /\ NoDup (map ScoredResult.qa_pair_id finalResults)
    /\ length finalResults <= 5
    /\ descending finalResults.
Proof.
  destruct (questionSearch_fuses (Returned gapped_corpus)
              (lit "how to reset password") 5 (Binary64.round 0.3)
              SimpleVectorStore_new reach_new)
    as [sims [st1 [kws [st2 [finals [_ [_ [H [H1 [H2 [H3 _]]]]]]]]]]];
    [right; intros e; discriminate|].
  exists finals, st2. repeat split; assumption.
Defined.

(** C6, as claimed: the clauses of the keyword score test whether the
    lower-cased query, or a word of it, is a substring of the question, the
    answer and the source.  On the specification's own example (question
    "How do I reset my password?", query "how to reset password") the sum of
    those clauses over the stored fields is 0.5, since "how" is no substring
    of the question as stored, while the entry [keywordSearch] returns has
    score 0.7 (the double nearest to it). *)
Lemma keyword_score_ignores_case_of_fields :
  exists doc r st',
    Binary64.keywordSearch (Returned password_corpus)
      (lit "how to reset password") 5 SimpleVectorStore_new
      = (Returned [r], st')
    /\ documents st' = [doc]
    /\ ScoredResult.metadata r = Document.metadata doc
    /\ (ScoredResult.similarity r == Binary64.round 0.7)%Q
    /\ (keyword_formula_stored_fields (lit "how to reset password") doc
        == 0.5)%Q
    /\ (Binary64.round 0.5 == 0.5)%Q
    /\ ~ (ScoredResult.similarity r
          == Binary64.round
               (keyword_formula_stored_fields (lit "how to reset password")
                  doc))%Q.
Proof.
  do 3 eexists.
  split; [vm_compute; reflexivity|].
  split; [reflexivity|].
  split; [reflexivity|].
  split; [vm_compute; reflexivity|].
  split; [vm_compute; reflexivity|].
  split; [vm_compute; reflexivity|].
  vm_compute. discriminate.
Qed.

(** C6, amended.  With the scores computed in binary64, on a reachable
    store, when the load settles and the query has fewer than 2^32 code
    units: every entry [keywordSearch] returns belongs to a stored document,
    and its score is the double nearest to the sum of +3 if the lower-cased
    query is a substring of the lower-cased question, +2 if of the
    lower-cased answer, for each white-space-delimited word of the
    lower-cased query longer than two code units +2 if it is a substring of
    the lower-cased question and +1 if of the lower-cased answer, and +0.5
    if the lower-cased query is a substring of the lower-cased source,
    divided by 10; the sum the source accumulates is that sum exactly, for
    every document.  The sum is never negative, returned scores are positive
    (a document whose sum is 0 is left out), and the output is in descending
    order, ties in corpus order, with at most [k] entries.  When the index is
    there, the entry of every stored document with a positive sum is in the
    output, unless the output is full with [k] entries that all rank before
    it. *)
Theorem keywordSearch_results (file : outcome (list Row.t)) (query : str)
    (k : nat) (st : store) :
  reachable st -> settles file st ->
  (Z.of_nat (length query) < 2 ^ 32)%Z ->
  exists results st',
    Binary64.keywordSearch file query k st = (Returned results, st')
    /\ Forall
         (fun r =>
            exists doc,
              In doc (documents st')
              /\ r = entry doc (ScoredResult.similarity r)
              /\ ScoredResult.similarity r
                 = Binary64.round (keyword_formula_lower_fields query doc)
              /\ (0 < keyword_formula_lower_fields query doc)%Q
              /\ (0 < ScoredResult.similarity r)%Q)
         results
    /\ (forall doc,
          (Binary64.keyword_score (toLowerCase query)
             (filter (fun word => 2 <? length word)
                (split_ws (toLowerCase query))) doc / 10
           == keyword_formula_lower_fields query doc)%Q
          /\ (0 <= keyword_formula_lower_fields query doc)%Q)
    /\ descending results
    /\ StronglySorted ranks_before results
    /\ length results <= k
    /\ (initialized st' = true ->
        forall doc,
          In doc (documents st') ->
          (0 < keyword_formula_lower_fields query doc)%Q ->
          In (entry doc
                (Binary64.round (keyword_formula_lower_fields query doc)))
            results
          \/ (length results = k
              /\ Forall
                   (fun kept =>
                      ranks_before kept
                        (entry doc
                           (Binary64.round
                              (keyword_formula_lower_fields query doc))))
                   results)).
Proof.
  intros Hst Hs Hlen.
  assert (Hscore : forall doc,
    (Binary64.keyword_score (toLowerCase query)
       (filter (fun word => 2 <? length word)
          (split_ws (toLowerCase query))) doc / 10
     == keyword_formula_lower_fields query doc)%Q
    /\ (0 <= keyword_formula_lower_fields query doc)%Q).
  { intro doc. split; [|apply keyword_formula_nonneg].
    rewrite (Binary64_keyword_score _ _ doc (queryWords_length query Hlen)).
    apply keyword_score_formula. }
  assert (Hids : StronglySorted lt
                   (map doc_id (documents (snd (initialize file st)))))
    by (apply reachable_ids_increasing; constructor; exact Hst).
  rewrite Binary64_keywordSearch_run.
  destruct (settles_initialize file st Hs) as [[st' [E Hi]]|[e [E Hi]]];
    rewrite E in *; cbn [snd] in Hids.
  - do 2 eexists. split; [reflexivity|].
    split.
    + apply Forall_forall. intros r Hr.
      exact (binary64_keyword_results_In _ _ _ _ Hlen Hr).
    + split; [exact Hscore|].
      split; [apply top_descending|].
      split; [apply binary64_keyword_results_ranks; exact Hids|].
      split; [apply top_length|].
      intros _ doc. apply binary64_keyword_results_keeps_first; assumption.
  - do 2 eexists. split; [reflexivity|].
    split; [constructor|].
    split; [exact Hscore|].
    split; [constructor|]. split; [constructor|]. split; [cbn; lia|].
    intro H. congruence.
Qed.

Lemma keywordSearch_results_witness :
  exists results st',
    Binary64.keywordSearch (Returned password_corpus)
      (lit "how to reset password") 5 SimpleVectorStore_new
      = (Returned results, st')
    /\ descending results
    /\ length results <= 5.
Proof.
  destruct (keywordSearch_results (Returned password_corpus)
              (lit "how to reset password") 5 SimpleVectorStore_new reach_new)
    as [results [st' [H [_ [_ [H1 [_ [H2 _]]]]]]]];
    [right; intros e; discriminate | vm_compute; reflexivity |].
  exists results, st'. repeat split; assumption.
Defined.

(** C3, as claimed: a query identical to a stored question makes that
    document rank first.  With the stored questions "reset password now" and
    a longer one that contains it, the query "reset password now" returns
    the longer question's document first, with keyword score 1.4 (the double
    nearest to it), and the document whose question is the query second,
    with similarity score 1. *)
Lemma verbatim_query_outranked :
  exists first second st',
    Binary64.questionSearch (Returned portal_corpus)
      (lit "reset password now") 5 (Binary64.round 0.4)
      SimpleVectorStore_new = (Returned [first; second], st')
    /\ Metadata.question (ScoredResult.metadata second)
       = lit "reset password now"
    /\ Metadata.question (ScoredResult.metadata first)
       <> lit "reset password now"
    /\ (ScoredResult.similarity first == Binary64.round 1.4)%Q
    /\ (ScoredResult.similarity second == 1)%Q
    /\ ~ (ScoredResult.similarity first <= ScoredResult.similarity second)%Q.
Proof.
  do 3 eexists.
  split; [vm_compute; reflexivity|].
  split; [reflexivity|].
  split; [vm_compute; discriminate|].
  split; [vm_compute; reflexivity|].
  split; [vm_compute; reflexivity|].
  vm_compute. intro H. apply H. reflexivity.
Qed.

(** C3, amended.  With the scores computed in binary64: let the query be
    identical to the question of a document that the index of a reachable
    store holds, the index being there or the file readable; let that
    question have at least one token and the threshold be at most 1.  Then
    the document's similarity score is 1, the highest similarity score there
    is.  Its entry with that score is in the similarity list, unless that
    list is full with [k] entries that all rank before it; and it is in the
    fused output, unless the output is full with [k] entries that all score
    at least 1.  An entry of the fused output that scores more than 1 is an
    entry of the keyword list for a document that has no entry in the
    similarity list. *)
Theorem verbatim_query_similarity (file : outcome (list Row.t)) (k : nat)
    (threshold : Q) (st : store) (doc : Document.t) :
  reachable st ->
  available file st ->
  In doc (documents (snd (initialize file st))) ->
  Document.tokens doc <> [] ->
  (threshold <= 1)%Q ->
  exists s similarityResults keywordResults finalResults,
    Binary64.calculateQuestionSimilarity
      (tokenize (toLowerCase (Metadata.question (Document.metadata doc))))
      (Document.tokens doc) = Fin s
    /\ (s == 1)%Q
    /\ Binary64.similaritySearch file
         (Metadata.question (Document.metadata doc)) k threshold st
       = (Returned similarityResults, snd (initialize file st))
    /\ Binary64.keywordSearch file
         (Metadata.question (Document.metadata doc)) k
         (snd (initialize file st))
       = (Returned keywordResults, snd (initialize file st))
    /\ Binary64.questionSearch file
         (Metadata.question (Document.metadata doc)) k threshold st
       = (Returned finalResults, snd (initialize file st))
    /\ (forall r, In r similarityResults ->
          (ScoredResult.similarity r <= 1)%Q)
    /\ (In (entry doc s) similarityResults
        \/ (length similarityResults = k
            /\ Forall (fun kept => ranks_before kept (entry doc s))
                 similarityResults))
    /\ (In (entry doc s) finalResults
        \/ (length finalResults = k
            /\ Forall (fun kept => (1 <= ScoredResult.similarity kept)%Q)
                 finalResults))
    /\ (forall r, In r finalResults ->
          (ScoredResult.similarity r <= 1)%Q
          \/ (In r keywordResults
              /\ ~ In (ScoredResult.qa_pair_id r)
                     (map ScoredResult.qa_pair_id similarityResults))).
Proof.
  intros Hst Hav Hdoc Htokens Ht.
  set (query := Metadata.question (Document.metadata doc)) in *.
  set (st' := snd (initialize file st)) in *.
  assert (Hst' : reachable st') by (constructor; exact Hst).
  pose proof (reachable_ids_increasing _ Hst') as Hids.
  destruct (reachable_document _ doc Hst' Hdoc) as [_ Etok].
  destruct (Binary64_calculateQuestionSimilarity_self (Document.tokens doc)
              Htokens) as [s [Es Hs1]].
  rewrite Etok in Es at 1. fold query in Es.
  destruct (Binary64_questionSearch_steps file query k threshold st
              (available_settles _ _ Hav))
    as [sims [kws [H1 [H2 [H3 Hcases]]]]].
  fold st' in H1, H2, H3, Hcases.
  destruct (available_initialize file st Hav) as [_ Hi]. fold st' in Hi.
  destruct Hcases as [[_ [Esims Ekws]]|[Hu _]]; [|congruence].
  assert (Hsims : NoDup (map ScoredResult.qa_pair_id sims))
    by (rewrite Esims; apply binary64_results_distinct; exact Hids).
  assert (Hkws : NoDup (map ScoredResult.qa_pair_id kws))
    by (rewrite Ekws; apply binary64_keyword_results_distinct; exact Hids).
  exists s, sims, kws, (fused k sims kws).
  split; [exact Es|]. split; [exact Hs1|].
  split; [exact H1|]. split; [exact H2|]. split; [exact H3|].
  assert (Hle : forall r, In r sims -> (ScoredResult.similarity r <= 1)%Q).
  { intros r Hr. rewrite Esims in Hr. apply binary64_results_In in Hr.
    destruct Hr as [d [_ [_ [_ [_ [_ H]]]]]]. exact H. }
  split; [exact Hle|].
  assert (Hin : In (entry doc s) sims
                \/ (length sims = k
                    /\ Forall (fun kept => ranks_before kept (entry doc s))
                         sims)).
  { rewrite Esims. unfold binary64_results.
    rewrite Binary64_similarity_scan_with.
    apply top_keeps_first; [apply scan_with_ids_increasing; exact Hids|].
    apply scan_with_In. exists doc, s. split; [exact Hdoc|].
    split; [|reflexivity].
    apply binary64_pick_some. split; [exact Es|].
    rewrite Hs1. exact Ht. }
  split; [exact Hin|].
  split.
  - destruct Hin as [Hin|[Hlen Hall]].
    + destruct (fused_keeps_best k sims kws _ Hsims Hkws (or_introl Hin))
        as [H|[Hl Hf]]; [left; exact H|].
      right. split; [exact Hl|].
      eapply Forall_impl; [|exact Hf]. intros kept Hk. cbn in Hk.
      rewrite <- Hs1. exact Hk.
    + right. apply fused_full; try assumption.
      eapply Forall_impl; [|exact Hall]. intros kept Hk.
      apply ranks_before_score in Hk. cbn in Hk. rewrite <- Hs1. exact Hk.
  - intros r Hr. apply top_In in Hr.
    destruct (unique_scan_app _ _ _ _ Hr) as [H|H]; [left; auto | right; exact H].
Qed.

Lemma verbatim_query_similarity_witness :
  exists doc s finalResults,
    In doc
      (documents (snd (initialize (Returned portal_corpus)
                         SimpleVectorStore_new)))
    /\ Metadata.question (Document.metadata doc) = lit "reset password now"
    /\ (s == 1)%Q
    /\ fst (Binary64.questionSearch (Returned portal_corpus)
              (lit "reset password now") 5 (Binary64.round 0.4)
              SimpleVectorStore_new)
       = Returned finalResults
    /\ In (entry doc s) finalResults.
Proof.
  eexists.
  assert (Hin : In ?[doc]
    (documents (snd (initialize (Returned portal_corpus)
                       SimpleVectorStore_new))))
    by (left; reflexivity).
  destruct (verbatim_query_similarity (Returned portal_corpus) 5
              (Binary64.round 0.4)
              SimpleVectorStore_new _ reach_new
              (or_intror (ex_intro _ portal_corpus eq_refl)) Hin)
    as [s [sims [kws [finals [_ [Hs [_ [_ [Hq [_ [_ [[Hf|[Hlen _]] _]]]]]]]]]]]].
  - vm_compute; discriminate.
  - vm_compute; discriminate.
  - exists s, finals. split; [exact Hin|]. split; [reflexivity|].
    split; [exact Hs|]. split; [exact (f_equal fst Hq) | exact Hf].
  - exfalso. vm_compute in Hq. injection Hq as <-. cbn in Hlen. lia.
Defined.

(** * Further properties of the engine *)

(** ** The similarity scorer *)

(** X1.  The score is [NaN] exactly when both token lists are empty; with a
    token on either side it is a number between 0 and 1. *)
Theorem similarity_score_range (queryTokens docTokens : list str) :
  (calculateQuestionSimilarity queryTokens docTokens = NaN
   <-> queryTokens = [] /\ docTokens = [])
  /\ (queryTokens ++ docTokens <> [] ->
      exists s,
        calculateQuestionSimilarity queryTokens docTokens = Fin s
        /\ (0 <= s)%Q /\ (s <= 1)%Q).
Proof.
  destruct (calculateQuestionSimilarity_cases queryTokens docTokens)
    as [[Hq [Hd E]]|[Hne [s [E Hs]]]].
  - split; [split; auto|]. subst. intro H. contradiction H. reflexivity.
  - split.
    + rewrite E. split; [discriminate|].
      intros [-> ->]. contradiction Hne. reflexivity.
    + intros _. exists s. split; assumption.
Qed.

Lemma similarity_score_range_witness :
  exists s,
    calculateQuestionSimilarity [lit "reset"] [lit "password"] = Fin s
    /\ (0 <= s)%Q /\ (s <= 1)%Q.
Proof.
  apply (proj2 (similarity_score_range [lit "reset"] [lit "password"])).
  discriminate.
Defined.

Lemma questionBoost_shared (queryTokens docTokens : list str) :
  (forall t, In t queryTokens -> ~ In t docTokens) ->
  questionBoost queryTokens docTokens = 0%Q.
Proof.
  intro H. unfold questionBoost.
  generalize 0%Q as boost.
  induction questionWords as [|w words IH]; intro boost; [reflexivity|].
  cbn [fold_left].
  destruct (array_includes queryTokens w) eqn:Eq;
    destruct (array_includes docTokens w) eqn:Ed; cbn [andb]; try apply IH.
  apply array_includes_iff in Eq, Ed. contradiction (H w Eq Ed).
Qed.

Lemma intersection_empty_iff (queryTokens docTokens : list str) :
  intersection queryTokens docTokens = []
  <-> forall t, In t queryTokens -> ~ In t docTokens.
Proof.
  unfold intersection. split.
  - intros H t Hq Hd.
    assert (Hin : In t (filter (fun token => array_includes docTokens token)
                          queryTokens)).
    { apply filter_In. split; [exact Hq | apply array_includes_iff; exact Hd]. }
    rewrite H in Hin. contradiction.
  - intro H. induction queryTokens as [|t q IH]; [reflexivity|].
    cbn [filter]. destruct (array_includes docTokens t) eqn:E.
    + apply array_includes_iff in E. contradiction (H t (or_introl eq_refl) E).
    + apply IH. intros u Hu. apply H. right. exact Hu.
Qed.

(** X2.  With a token on either side, the score is positive exactly when
    the query and the document share a token; without a shared token it
    is 0. *)
Theorem similarity_positive_iff_shared (queryTokens docTokens : list str) :
  queryTokens ++ docTokens <> [] ->
  exists s,
    calculateQuestionSimilarity queryTokens docTokens = Fin s
    /\ ((0 < s)%Q <-> exists t, In t queryTokens /\ In t docTokens)
    /\ ((forall t, In t queryTokens -> ~ In t docTokens) -> (s == 0)%Q).
Proof.
  intro Hne. unfold calculateQuestionSimilarity, jaccard.
  assert (Hpos : 0 < length (union queryTokens docTokens)).
  { destruct (length (union queryTokens docTokens)) eqn:E; [|lia].
    apply length_zero_iff_nil, union_empty in E.
    destruct E as [-> ->]. contradiction Hne. reflexivity. }
  rewrite length_ratio_fin by exact Hpos. cbn [add Math_min].
  eexists. split; [reflexivity|].
  assert (Hzero : (forall t, In t queryTokens -> ~ In t docTokens) ->
    (Qmin ((Z.of_nat (length (intersection queryTokens docTokens))
            # Pos.of_nat (length (union queryTokens docTokens)))
           + questionBoost queryTokens docTokens) 1 == 0)%Q).
  { intro H. rewrite (questionBoost_shared _ _ H).
    apply intersection_empty_iff in H. rewrite H. cbn [length Z.of_nat].
    rewrite Q.min_l; [|discriminate]. reflexivity. }
  split; [|exact Hzero].
  assert (Hcase :
    (forall t, In t queryTokens -> ~ In t docTokens)
    \/ ((exists t, In t queryTokens /\ In t docTokens)
        /\ 0 < length (intersection queryTokens docTokens))).
  { clear Hzero. destruct (intersection queryTokens docTokens) as [|t rest] eqn:E.
    - left. apply intersection_empty_iff. exact E.
    - right. split; [|cbn; lia]. exists t.
      assert (Hin : In t (intersection queryTokens docTokens))
        by (rewrite E; left; reflexivity).
      apply filter_In in Hin. destruct Hin as [Hq Hd].
      apply array_includes_iff in Hd. split; assumption. }
  destruct Hcase as [Hnone|[Hsome Hi]].
  - split.
    + intro Hs. rewrite (Hzero Hnone) in Hs. discriminate.
    + intros [t [Hq Hd]]. contradiction (Hnone t Hq Hd).
  - split; [intros _; exact Hsome|]. intros _.
    apply Q.min_glb_lt; [|reflexivity].
    apply (Qlt_le_trans _
             ((Z.of_nat (length (intersection queryTokens docTokens))
               # Pos.of_nat (length (union queryTokens docTokens))) + 0)).
    + rewrite Qplus_0_r. unfold Qlt. cbn. lia.
    + apply Qplus_le_r. apply questionBoost_nonneg.
Qed.

Lemma similarity_positive_iff_shared_witness :
  exists s,
    calculateQuestionSimilarity [lit "reset"; lit "password"]
      [lit "password"; lit "policy"] = Fin s
    /\ (0 < s)%Q.
Proof.
  destruct (similarity_positive_iff_shared [lit "reset"; lit "password"]
              [lit "password"; lit "policy"]) as [s [E [H _]]];
    [discriminate|].
  exists s. split; [exact E|].
  apply H. exists (lit "password").
  split; [right; left; reflexivity | left; reflexivity].
Defined.

Lemma fold_set_add_fresh (l : list str) :
  forall set, NoDup (set ++ l) -> fold_left set_add l set = set ++ l.
Proof.
  induction l as [|t l IH]; intros set H; cbn [fold_left].
  - symmetry. apply app_nil_r.
  - assert (Ht : array_includes set t = false).
    { destruct (array_includes set t) eqn:E; [|reflexivity].
      apply array_includes_iff in E. apply NoDup_remove_2 in H.
      contradiction H. apply in_or_app. left. exact E. }
    unfold set_add at 2. rewrite Ht.
    rewrite IH; rewrite <- app_assoc; [reflexivity | exact H].
Qed.

Lemma set_of_without_repetition (l : list str) : NoDup l -> set_of l = l.
Proof. intro H. unfold set_of. apply (fold_set_add_fresh l []). exact H. Qed.

(** X3.  For query tokens without a repeated token, the quotient the
    source computes is the Jaccard index of the two token sets. *)
Theorem jaccard_without_repetition (queryTokens docTokens : list str) :
  NoDup queryTokens ->
  jaccard queryTokens docTokens = jaccard_of_sets queryTokens docTokens.
Proof.
  intro H. unfold jaccard, jaccard_of_sets, intersection, union.
  rewrite (set_of_without_repetition queryTokens H). reflexivity.
Qed.

Lemma jaccard_without_repetition_witness :
  jaccard [lit "reset"; lit "password"] [lit "password"; lit "policy"]
  = jaccard_of_sets [lit "reset"; lit "password"]
      [lit "password"; lit "policy"].
Proof.
  apply jaccard_without_repetition.
  repeat constructor; cbn; intuition discriminate.
Defined.

Lemma intersection_NoDup (queryTokens docTokens : list str) :
  NoDup queryTokens -> NoDup (intersection queryTokens docTokens).
Proof. intro H. unfold intersection. apply NoDup_filter. exact H. Qed.

Lemma intersection_In (queryTokens docTokens : list str) (t : str) :
  In t (intersection queryTokens docTokens)
  <-> In t queryTokens /\ In t docTokens.
Proof.
  unfold intersection. rewrite filter_In, array_includes_iff. reflexivity.
Qed.

Lemma union_In (queryTokens docTokens : list str) (t : str) :
  In t (union queryTokens docTokens) <-> In t queryTokens \/ In t docTokens.
Proof. unfold union. rewrite set_of_In, in_app_iff. reflexivity. Qed.

Lemma questionBoost_sym (queryTokens docTokens : list str) :
  questionBoost queryTokens docTokens = questionBoost docTokens queryTokens.
Proof.
  unfold questionBoost. generalize 0%Q as boost.
  induction questionWords as [|w words IH]; intro boost; [reflexivity|].
  cbn [fold_left]. rewrite andb_comm. apply IH.
Qed.

(** X4.  Between two token lists without repeated tokens the score is
    symmetric: the document scored as a query against the query as a
    document gets the same score. *)
Theorem similarity_symmetric (queryTokens docTokens : list str) :
  NoDup queryTokens -> NoDup docTokens ->
  calculateQuestionSimilarity queryTokens docTokens
  = calculateQuestionSimilarity docTokens queryTokens.
Proof.
  intros Hq Hd. unfold calculateQuestionSimilarity, jaccard.
  rewrite (questionBoost_sym queryTokens docTokens).
  replace (length (intersection docTokens queryTokens))
    with (length (intersection queryTokens docTokens)).
  - replace (length (union docTokens queryTokens))
      with (length (union queryTokens docTokens)); [reflexivity|].
    apply Permutation_length.
    apply NoDup_Permutation; try apply set_of_NoDup.
    intro t. rewrite !union_In. tauto.
  - apply Permutation_length.
    apply NoDup_Permutation; try (apply intersection_NoDup; assumption).
    intro t. rewrite !intersection_In. tauto.
Qed.

Lemma similarity_symmetric_witness :
  calculateQuestionSimilarity [lit "how"; lit "reset"; lit "password"]
    [lit "how"; lit "password"; lit "policy"; lit "works"]
  = calculateQuestionSimilarity
      [lit "how"; lit "password"; lit "policy"; lit "works"]
      [lit "how"; lit "reset"; lit "password"].
Proof.
  apply similarity_symmetric;
    repeat constructor; cbn; intuition discriminate.
Defined.

(** X5.  When the query and the document have the same set of tokens (each
    token of one occurs in the other) and there is at least one, the score
    is 1, whatever the order and the repetitions. *)
Theorem same_token_set_scores_one (queryTokens docTokens : list str) :
  queryTokens <> [] ->
  (forall t, In t queryTokens <-> In t docTokens) ->
  exists s,
    calculateQuestionSimilarity queryTokens docTokens = Fin s /\ (s == 1)%Q.
Proof.
  intros Hne Hsame. unfold calculateQuestionSimilarity, jaccard.
  assert (Hi : intersection queryTokens docTokens = queryTokens).
  { unfold intersection. apply forallb_filter_id.
    apply forallb_forall. intros t Ht.
    apply array_includes_iff, Hsame. exact Ht. }
  assert (Hle : length (union queryTokens docTokens) <= length queryTokens).
  { apply NoDup_incl_length; [apply set_of_NoDup|].
    intros t Ht. apply union_In in Ht.
    destruct Ht as [Ht|Ht]; [exact Ht | apply Hsame; exact Ht]. }
  assert (Hpos : 0 < length (union queryTokens docTokens)).
  { destruct (length (union queryTokens docTokens)) eqn:E; [|lia].
    apply length_zero_iff_nil, union_empty in E. tauto. }
  rewrite Hi, length_ratio_fin by exact Hpos. cbn [add Math_min].
  eexists. split; [reflexivity|]. apply Q.min_r.
  apply (Qle_trans _ (1 + 0)); [discriminate|].
  apply Qplus_le_compat;
    [apply ratio_at_least_one; assumption | apply questionBoost_nonneg].
Qed.

Lemma same_token_set_scores_one_witness :
  exists s,
    calculateQuestionSimilarity [lit "reset"; lit "password"; lit "reset"]
      [lit "password"; lit "reset"] = Fin s
    /\ (s == 1)%Q.
Proof.
  apply same_token_set_scores_one; [discriminate|].
  intro t. cbn. tauto.
Defined.

(** ** The tokenizer *)

Lemma word_lower_token_char (c : ascii) :
  is_word c = true -> is_token_char (lower_char c) = true.
Proof. destruct c as [[] [] [] [] [] [] [] []]; vm_compute; congruence. Qed.

Lemma token_char_word (c : ascii) :
  is_token_char c = true ->
  is_word c = true /\ is_space c = false /\ lower_char c = c.
Proof.
  destruct c as [[] [] [] [] [] [] [] []]; vm_compute; intro H;
    try discriminate H; repeat split.
Qed.

Lemma split_ws_pieces (s : str) :
  Forall (fun piece =>
            Forall (fun c => is_space c = false /\ In c s) piece)
    (split_ws s).
Proof.
  induction s as [|c s IH]; [repeat constructor|].
  assert (IH' : Forall (fun piece =>
                  Forall (fun c' => is_space c' = false /\ In c' (c :: s))
                    piece) (split_ws s)).
  { eapply Forall_impl; [|exact IH]. intros p Hp.
    eapply Forall_impl; [|exact Hp]. intros c' [H1 H2].
    split; [exact H1 | right; exact H2]. }
  rewrite split_ws_cons. destruct (is_space c) eqn:Ec.
  - destruct s as [|c' s']; [constructor; [constructor | exact IH']|].
    destruct (is_space c'); [exact IH'|].
    constructor; [constructor | exact IH'].
  - destruct (split_ws s) as [|piece pieces].
    + repeat constructor. exact Ec.
    + apply Forall_cons_iff in IH'. destruct IH' as [Hp Hps].
      constructor; [|exact Hps].
      constructor; [split; [exact Ec | left; reflexivity] | exact Hp].
Qed.

(** X6.  Every token consists of the characters a-z, 0-9 and _ only. *)
Theorem tokenize_token_chars (text : str) :
  Forall (fun token => Forall (fun c => is_token_char c = true) token)
    (tokenize text).
Proof.
  unfold tokenize. apply Forall_forall. intros t Ht.
  apply in_map_iff in Ht. destruct Ht as [p [<- Hp]].
  apply filter_In in Hp. destruct Hp as [Hp _].
  pose proof (split_ws_pieces (replace_non_word_space text)) as Hall.
  rewrite Forall_forall in Hall. specialize (Hall p Hp).
  unfold toLowerCase. apply Forall_map.
  eapply Forall_impl; [|exact Hall]. intros c [Hs Hc].
  apply word_lower_token_char.
  unfold replace_non_word_space in Hc. apply in_map_iff in Hc.
  destruct Hc as [c0 [E _]].
  destruct (is_word c0) eqn:Ew, (is_space c0) eqn:Es; cbn [orb] in E;
    subst c; try assumption; try congruence.
  vm_compute in Hs. discriminate.
Qed.

Lemma split_ws_word (piece : str) :
  Forall (fun c => is_space c = false) piece -> split_ws piece = [piece].
Proof.
  induction 1 as [|c p Hc _ IH]; [reflexivity|].
  rewrite split_ws_cons, Hc, IH. reflexivity.
Qed.

Lemma split_ws_word_space (piece rest : str) (c : ascii) :
  Forall (fun c => is_space c = false) piece ->
  is_space c = false ->
  split_ws (piece ++ " "%char :: c :: rest) = piece :: split_ws (c :: rest).
Proof.
  intros Hp Hc.
  induction Hp as [|c' p Hc' _ IH].
  - change ([] ++ " "%char :: c :: rest) with (" "%char :: c :: rest).
    rewrite (split_ws_cons " "). cbv iota.
    change (is_space " ") with true. cbv iota. rewrite Hc. reflexivity.
  - change ((c' :: p) ++ " "%char :: c :: rest)
      with (c' :: (p ++ " "%char :: c :: rest)).
    rewrite split_ws_cons, Hc', IH. reflexivity.
Qed.

Lemma split_ws_join (tokens : list str) :
  tokens <> [] ->
  Forall (fun token =>
            token <> [] /\ Forall (fun c => is_space c = false) token)
    tokens ->
  split_ws (join [" "%char] tokens) = tokens.
Proof.
  intros Hne H. induction H as [|t rest [Ht Hs] Hrest IH]; [contradiction|].
  cbn [join]. destruct rest as [|t' rest'].
  - apply split_ws_word. exact Hs.
  - assert (IH' := IH ltac:(discriminate)).
    apply Forall_cons_iff in Hrest. destruct Hrest as [[Ht' Hs'] _].
    remember (join [" "%char] (t' :: rest')) as j eqn:Ej.
    assert (Hj : exists c r, j = c :: r /\ is_space c = false).
    { destruct t' as [|c r]; [contradiction|].
      apply Forall_cons_iff in Hs'. destruct Hs' as [Hc _].
      subst j. cbn [join]. destruct rest'; cbn [app]; eauto. }
    destruct Hj as [c [r [-> Hc]]].
    cbn [app]. rewrite (split_ws_word_space t r c Hs Hc), IH'. reflexivity.
Qed.

Lemma replace_word_space (text : str) :
  Forall (fun c => is_word c = true \/ is_space c = true) text ->
  replace_non_word_space text = text.
Proof.
  unfold replace_non_word_space.
  induction 1 as [|c s Hc _ IH]; [reflexivity|].
  cbn [map]. rewrite IH.
  destruct Hc as [-> | ->]; [|rewrite orb_true_r]; reflexivity.
Qed.

Lemma join_chars (sep : str) (tokens : list str) (P : ascii -> Prop) :
  Forall P sep -> Forall (Forall P) tokens -> Forall P (join sep tokens).
Proof.
  intros Hsep H. induction H as [|t rest Ht _ IH]; [constructor|].
  cbn [join]. destruct rest; [exact Ht|].
  apply Forall_app. split; [exact Ht|].
  apply Forall_app. split; [exact Hsep | exact IH].
Qed.

(** X7.  Tokens survive a round trip through text: joining the tokens of a
    text with single spaces and tokenizing again gives the same tokens. *)
Theorem tokenize_join_tokenize (text : str) :
  tokenize (join [" "%char] (tokenize text)) = tokenize text.
Proof.
  pose proof (tokenize_token_chars text) as Hchars.
  pose proof (tokenize_tokens text) as Htokens.
  destruct (tokenize text) as [|t rest] eqn:E; [reflexivity|].
  rewrite <- E in *.
  unfold tokenize at 1.
  rewrite replace_word_space.
  - rewrite split_ws_join.
    + rewrite forallb_filter_id.
      * rewrite <- (map_id (tokenize text)) at 2.
        apply map_ext_in. intros u Hu.
        rewrite Forall_forall in Htokens. apply (Htokens u Hu).
      * apply forallb_forall. intros u Hu.
        rewrite Forall_forall in Htokens.
        apply Nat.ltb_lt. apply (Htokens u Hu).
    + rewrite E. discriminate.
    + apply Forall_forall. intros u Hu.
      rewrite Forall_forall in Htokens, Hchars.
      split.
      * destruct (Htokens u Hu) as [_ Hlen]. destruct u; [cbn in Hlen; lia|].
        discriminate.
      * eapply Forall_impl; [|exact (Hchars u Hu)].
        intros c Hc. apply token_char_word in Hc. tauto.
  - apply join_chars.
    + constructor; [right; reflexivity | constructor].
    + eapply Forall_impl; [|exact Hchars]. intros u Hu.
      eapply Forall_impl; [|exact Hu].
      intros c Hc. apply token_char_word in Hc. tauto.
Qed.

(** ** Queries that get the same answer *)

(** X8.  The searches do not see the case of the query: two queries that
    are equal once lower-cased get the same results, and leave the same
    store, from each of the three searches. *)
Theorem search_ignores_query_case (file : outcome (list Row.t))
    (query query' : str) (k : nat) (threshold : Q) (st : store) :
  toLowerCase query = toLowerCase query' ->
  similaritySearch file query k threshold st
  = similaritySearch file query' k threshold st
  /\ keywordSearch file query k st = keywordSearch file query' k st
  /\ questionSearch file query k threshold st
     = questionSearch file query' k threshold st.
Proof.
  intro H.
  assert (Hs : similaritySearch file query k threshold
               = similaritySearch file query' k threshold)
    by (unfold similaritySearch; rewrite H; reflexivity).
  assert (Hk : keywordSearch file query k = keywordSearch file query' k)
    by (unfold keywordSearch; rewrite H; reflexivity).
  split; [rewrite Hs; reflexivity|].
  split; [rewrite Hk; reflexivity|].
  unfold questionSearch. rewrite Hs, Hk. reflexivity.
Qed.

Lemma search_ignores_query_case_witness :
  questionSearch (Returned password_corpus) (lit "How To RESET Password") 5
    0.3 SimpleVectorStore_new
  = questionSearch (Returned password_corpus) (lit "how to reset password") 5
      0.3 SimpleVectorStore_new.
Proof.
  apply (search_ignores_query_case (Returned password_corpus)
           (lit "How To RESET Password") (lit "how to reset password") 5 0.3
           SimpleVectorStore_new).
  reflexivity.
Defined.

Lemma array_includes_perm (l l' : list str) (t : str) :
  Permutation l l' -> array_includes l t = array_includes l' t.
Proof.
  intro H.
  destruct (array_includes l t) eqn:E, (array_includes l' t) eqn:E';
    try reflexivity.
  - apply array_includes_iff in E.
    apply (Permutation_in _ H), array_includes_iff in E. congruence.
  - apply array_includes_iff in E'.
    apply (Permutation_in _ (Permutation_sym H)), array_includes_iff in E'.
    congruence.
Qed.

Lemma filter_perm_length {A : Type} (f : A -> bool) (l l' : list A) :
  Permutation l l' -> length (filter f l) = length (filter f l').
Proof.
  induction 1 as [|x l l' _ IH|x y l|l l' l'' _ IH1 _ IH2]; cbn [filter].
  - reflexivity.
  - destruct (f x); cbn [length]; rewrite IH; reflexivity.
  - destruct (f x), (f y); reflexivity.
  - rewrite IH1. exact IH2.
Qed.

(** The score does not see the order of the query's tokens. *)
Lemma similarity_perm (queryTokens queryTokens' docTokens : list str) :
  Permutation queryTokens queryTokens' ->
  calculateQuestionSimilarity queryTokens docTokens
  = calculateQuestionSimilarity queryTokens' docTokens.
Proof.
  intro H. unfold calculateQuestionSimilarity, jaccard.
  replace (questionBoost queryTokens' docTokens)
    with (questionBoost queryTokens docTokens).
  - unfold intersection. rewrite (filter_perm_length _ _ _ H).
    replace (length (union queryTokens' docTokens))
      with (length (union queryTokens docTokens)); [reflexivity|].
    apply Permutation_length.
    apply NoDup_Permutation; try apply set_of_NoDup.
    intro t. rewrite !union_In.
    split; (intros [Ht|Ht]; [left|right; exact Ht]).
    + exact (Permutation_in _ H Ht).
    + exact (Permutation_in _ (Permutation_sym H) Ht).
  - unfold questionBoost. generalize 0%Q as boost.
    induction questionWords as [|w words IH]; intro boost; [reflexivity|].
    cbn [fold_left]. rewrite (array_includes_perm _ _ w H). apply IH.
Qed.

(** X9.  [similaritySearch] does not see the order of the query's words:
    two queries whose token lists are rearrangements of each other get the
    same results. *)
Theorem similaritySearch_ignores_word_order (file : outcome (list Row.t))
    (query query' : str) (k : nat) (threshold : Q) (st : store) :
  Permutation (tokenize (toLowerCase query)) (tokenize (toLowerCase query')) ->
  similaritySearch file query k threshold st
  = similaritySearch file query' k threshold st.
Proof.
  intro H. rewrite !similaritySearch_run.
  destruct (initialize file st) as [[[]|e|e] st']; [|reflexivity..].
  unfold similarity_results. do 3 f_equal.
  induction (documents st') as [|doc rest IH]; [reflexivity|].
  cbn [similarity_scan].
  rewrite (similarity_perm _ _ (Document.tokens doc) H), IH. reflexivity.
Qed.

Lemma similaritySearch_ignores_word_order_witness :
  similaritySearch (Returned password_corpus) (lit "reset my password, how?")
    5 0.3 SimpleVectorStore_new
  = similaritySearch (Returned password_corpus) (lit "How password reset")
      5 0.3 SimpleVectorStore_new.
Proof.
  apply similaritySearch_ignores_word_order.
  vm_compute.
  apply NoDup_Permutation;
    [repeat constructor; cbn; intuition discriminate
    |repeat constructor; cbn; intuition discriminate
    |intro t; cbn; tauto].
Defined.

(** ** The life of the store *)

(** X10.  Once the store is initialized the file is never read again:
    [initialize] and the three searches leave the store as it is, and what
    they return does not depend on what reading the file would give. *)
Theorem initialized_store_is_read_only (file file' : outcome (list Row.t))
    (query : str) (k : nat) (threshold : Q) (st : store) :
  initialized st = true ->
  initialize file st = (Returned tt, st)
  /\ snd (similaritySearch file query k threshold st) = st
  /\ snd (keywordSearch file query k st) = st
  /\ snd (questionSearch file query k threshold st) = st
  /\ similaritySearch file query k threshold st
     = similaritySearch file' query k threshold st
  /\ keywordSearch file query k st = keywordSearch file' query k st
  /\ questionSearch file query k threshold st
     = questionSearch file' query k threshold st.
Proof.
  intro H.
  assert (Hi : forall f, initialize f st = (Returned tt, st))
    by (intro f; apply initialize_done; exact H).
  assert (Hs : forall f,
    similaritySearch f query k threshold st
    = (Returned (similarity_results query k threshold (documents st)), st))
    by (intro f; rewrite similaritySearch_run, Hi; reflexivity).
  assert (Hk : forall f,
    keywordSearch f query k st
    = (Returned (keyword_results query k (documents st)), st))
    by (intro f; rewrite keywordSearch_run, Hi; reflexivity).
  assert (Hq : forall f,
    questionSearch f query k threshold st
    = (Returned (fused k (similarity_results query k threshold (documents st))
                   (keyword_results query k (documents st))), st))
    by (intro f; exact (questionSearch_run _ _ _ _ _ _ _ _ _ (Hs f) (Hk f))).
  rewrite !Hs, !Hk, !Hq. repeat split. apply Hi.
Qed.

Lemma initialized_store_is_read_only_witness :
  questionSearch (Uncaught ENOENT) (lit "how to reset password") 5 0.3
    (snd (initialize (Returned password_corpus) SimpleVectorStore_new))
  = questionSearch (Returned gapped_corpus) (lit "how to reset password") 5
      0.3 (snd (initialize (Returned password_corpus) SimpleVectorStore_new)).
Proof.
  apply (initialized_store_is_read_only (Uncaught ENOENT)
           (Returned gapped_corpus) (lit "how to reset password") 5 0.3
           (snd (initialize (Returned password_corpus) SimpleVectorStore_new))
           eq_refl).
Defined.

(** X11.  The load is lazy, and a load that the parser's error rejects is
    not remembered: on a store that is not initialized, a search whose load
    is rejected returns the empty list and leaves the store uninitialized
    (a search for which the file cannot be opened ends in the uncaught
    error, the store uninitialized as well), and the next search, when the
    file is read to the end, loads it and answers exactly as a search on
    the store initialized beforehand. *)
Theorem first_readable_search_loads (e : error) (data : list Row.t)
    (file' : outcome (list Row.t)) (query query' : str) (k k' : nat)
    (threshold threshold' : Q) (st : store) :
  initialized st = false ->
  questionSearch (Thrown e) query k threshold st = (Returned [], st)
  /\ questionSearch (Uncaught e) query k threshold st = (Uncaught e, st)
  /\ initialized (snd (initialize (Returned data) st)) = true
  /\ questionSearch (Returned data) query' k' threshold'
       (snd (questionSearch (Thrown e) query k threshold st))
     = questionSearch file' query' k' threshold'
         (snd (initialize (Returned data) st)).
Proof.
  intro H.
  assert (Hfail : questionSearch (Thrown e) query k threshold st
                  = (Returned [], st))
    by (rewrite questionSearch_by_initialize, (initialize_thrown e st H);
        reflexivity).
  rewrite Hfail. cbn [snd].
  pose proof (initialize_returned data st H) as Hload.
  split; [reflexivity|].
  split; [rewrite questionSearch_by_initialize, (initialize_uncaught e st H);
          reflexivity|].
  split; [rewrite Hload; reflexivity|].
  rewrite !questionSearch_by_initialize, Hload. cbn [snd].
  rewrite initialize_done by reflexivity. reflexivity.
Qed.

Lemma first_readable_search_loads_witness :
  questionSearch (Returned password_corpus) (lit "how to reset password") 5
    0.3
    (snd (questionSearch (Thrown (Error (lit "Row exceeds the maximum size")))
            (lit "deploy log") 5 0.3 SimpleVectorStore_new))
  = questionSearch (Uncaught ENOENT) (lit "how to reset password") 5 0.3
      (snd (initialize (Returned password_corpus) SimpleVectorStore_new)).
Proof.
  apply (first_readable_search_loads
           (Error (lit "Row exceeds the maximum size")) password_corpus
           (Uncaught ENOENT) (lit "deploy log") (lit "how to reset password")
           5 5 0.3 0.3 SimpleVectorStore_new eq_refl).
Defined.

(** X12.  [loadDocuments] replaces the index: the documents after a load
    depend on the records read alone, not on what was loaded before, so
    loading the same records again changes nothing; and the index never
    holds more documents than there were records. *)
Theorem loadDocuments_replaces (data data' : list Row.t) (st : store) :
  documents (snd (loadDocuments (Returned data)
                    (snd (loadDocuments (Returned data') st))))
  = documents (snd (loadDocuments (Returned data) st))
  /\ snd (loadDocuments (Returned data)
            (snd (loadDocuments (Returned data) st)))
     = snd (loadDocuments (Returned data) st)
  /\ length (documents (snd (loadDocuments (Returned data) st)))
     <= length data.
Proof.
  rewrite !loadDocuments_returned. cbn [snd loaded documents initialized].
  repeat split.
  generalize 0 as index.
  induction data as [|row rest IH]; intro index; cbn [load_from length];
    [lia|].
  specialize (IH (S index)).
  destruct (load_row index row); cbn [length]; lia.
Qed.

Lemma decimal_inj (n m : nat) : decimal n = decimal m -> n = m.
Proof.
  unfold decimal, lit. intro H.
  apply (f_equal string_of_list_ascii) in H.
  rewrite !string_of_list_ascii_of_string in H.
  apply (f_equal NilEmpty.uint_of_string) in H.
  rewrite !NilEmpty.usu in H. injection H as H.
  apply (f_equal Nat.of_uint) in H.
  rewrite !Unsigned.of_to in H. exact H.
Qed.

(** X13.  In every reachable store each document's [id] is "question_"
    followed by its [qa_pair_id] in decimal, its [content] is its question,
    the two recorded lengths are the lengths of the question and the
    answer, its [type] is "qa" and its source is not empty; and no two
    documents have the same [id]. *)
Theorem reachable_document_fields (st : store) :
  reachable st ->
  Forall
    (fun doc =>
       Document.id doc = lit "question_" ++ decimal (doc_id doc)
       /\ Document.content doc = Metadata.question (Document.metadata doc)
       /\ Metadata.question_length (Document.metadata doc)
          = length (Metadata.question (Document.metadata doc))
       /\ Metadata.answer_length (Document.metadata doc)
          = length (Metadata.answer (Document.metadata doc))
       /\ Metadata.type (Document.metadata doc) = lit "qa"
       /\ Metadata.source (Document.metadata doc) <> [])
    (documents st)
  /\ NoDup (map Document.id (documents st)).
Proof.
  intro H.
  assert (Hfields : Forall
    (fun doc =>
       Document.id doc = lit "question_" ++ decimal (doc_id doc)
       /\ Document.content doc = Metadata.question (Document.metadata doc)
       /\ Metadata.question_length (Document.metadata doc)
          = length (Metadata.question (Document.metadata doc))
       /\ Metadata.answer_length (Document.metadata doc)
          = length (Metadata.answer (Document.metadata doc))
       /\ Metadata.type (Document.metadata doc) = lit "qa"
       /\ Metadata.source (Document.metadata doc) <> [])
    (documents st)).
  { destruct (reachable_loaded st H) as [data E]. rewrite E.
    apply Forall_forall. intros doc Hdoc.
    apply load_from_In in Hdoc. destruct Hdoc as [j [r [_ Hrow]]].
    apply load_row_some in Hrow.
    destruct Hrow as [q [a [_ [_ [_ [_ [_ [_ ->]]]]]]]].
    unfold doc_id. cbn. repeat split.
    destruct (Row.source r) as [[|c s]|]; discriminate. }
  split; [exact Hfields|].
  pose proof (increasing_NoDup _ (reachable_ids_increasing st H)) as Hids.
  rewrite Forall_forall in Hfields.
  induction (documents st) as [|doc rest IH]; [constructor|].
  cbn [map] in *. apply NoDup_cons_iff in Hids. destruct Hids as [Hdoc Hrest].
  constructor.
  - intro Hin. apply in_map_iff in Hin. destruct Hin as [d [E Hd]].
    apply Hdoc. apply in_map_iff. exists d. split; [|exact Hd].
    destruct (Hfields doc (or_introl eq_refl)) as [E1 _].
    destruct (Hfields d (or_intror Hd)) as [E2 _].
    rewrite E1, E2 in E. apply app_inv_head in E.
    apply decimal_inj. exact E.
  - apply IH; [|exact Hrest]. intros d Hd. apply Hfields. right. exact Hd.
Qed.

Lemma reachable_document_fields_witness :
  map Document.id
    (documents (snd (initialize (Returned gapped_corpus)
                       SimpleVectorStore_new)))
  = [lit "question_0"; lit "question_2"]
  /\ NoDup
       (map Document.id
          (documents (snd (initialize (Returned gapped_corpus)
                             SimpleVectorStore_new)))).
Proof.
  split; [reflexivity|].
  apply (reachable_document_fields _ (reach_initialize _ _ reach_new)).
Defined.

(** ** How the two result lists combine *)

Lemma sort_of_descending (results : list ScoredResult.t) :
  descending results -> sort results = results.
Proof.
  unfold descending. induction 1 as [|a l Hl IH Ha]; [reflexivity|].
  cbn [sort fold_right]. fold (sort l). rewrite IH.
  destruct l as [|b rest]; [reflexivity|].
  destruct (sort_insert_cases a b rest) as [[Hab _]|[_ E]]; [|exact E].
  apply Forall_cons_iff in Ha. destruct Ha as [Hba _].
  contradiction (Qlt_not_le _ _ Hab Hba).
Qed.

Lemma top_of_descending k results :
  descending results -> top k results = slice0 results k.
Proof. intro H. unfold top. rewrite (sort_of_descending _ H). reflexivity. Qed.

Lemma top_of_top k results : top k (top k results) = top k results.
Proof.
  rewrite (top_of_descending k _ (top_descending k results)).
  unfold slice0. apply firstn_all2. apply top_length.
Qed.

Lemma unique_scan_distinct (allResults : list ScoredResult.t) :
  forall seenIds,
    NoDup (map ScoredResult.qa_pair_id allResults) ->
    (forall r, In r allResults -> ~ In (ScoredResult.qa_pair_id r) seenIds) ->
    unique_scan seenIds allResults = allResults.
Proof.
  induction allResults as [|x rest IH]; intros seen Hnd Hseen; [reflexivity|].
  cbn [map] in Hnd. apply NoDup_cons_iff in Hnd. destruct Hnd as [Hx Hrest].
  destruct (unique_scan_cases seen x rest) as [[Hin _]|[_ ->]].
  - contradiction (Hseen x (or_introl eq_refl) Hin).
  - f_equal. apply IH; [exact Hrest|].
    intros r Hr [E|Hin].
    + apply Hx. rewrite E. apply in_map. exact Hr.
    + exact (Hseen r (or_intror Hr) Hin).
Qed.

(** A list one search returned passes through the fusion unchanged when the
    other list is empty. *)
Lemma fused_alone k results :
  NoDup (map ScoredResult.qa_pair_id (top k results)) ->
  fused k (top k results) [] = top k results
  /\ fused k [] (top k results) = top k results.
Proof.
  intro H. unfold fused. rewrite app_nil_r. cbn [app].
  rewrite (unique_scan_distinct _ [] H) by (intros r _ []).
  split; apply top_of_top.
Qed.

Lemma fused_empty_iff k sims kws :
  0 < k -> (fused k sims kws = [] <-> sims = [] /\ kws = []).
Proof.
  intro Hk. split.
  - intro H. apply app_eq_nil.
    destruct (sims ++ kws) as [|x rest] eqn:E; [reflexivity|].
    exfalso. unfold fused in H. rewrite E in H.
    destruct (unique_scan_cases [] x rest) as [[[] _]|[_ E']].
    rewrite E' in H.
    assert (Hlen : length (top k (x :: unique_scan
                     [ScoredResult.qa_pair_id x] rest)) = 0)
      by (rewrite H; reflexivity).
    unfold top, slice0 in Hlen. rewrite length_firstn in Hlen.
    rewrite (Permutation_length (sort_perm _)) in Hlen.
    cbn [length] in Hlen. lia.
  - intros [-> ->]. unfold fused. cbn [app unique_scan]. apply top_nil.
Qed.

(** X14.  On a reachable store, when the load settles and one of the two
    searches finds nothing, [questionSearch] returns exactly the other
    search's list; and for a positive [k] it returns the empty list exactly
    when both searches find nothing. *)
Theorem questionSearch_single_scorer (file : outcome (list Row.t))
    (query : str) (k : nat) (threshold : Q) (st : store) :
  reachable st -> settles file st ->
  exists similarityResults keywordResults finalResults st',
    similaritySearch file query k threshold st
      = (Returned similarityResults, st')
    /\ keywordSearch file query k st' = (Returned keywordResults, st')
    /\ questionSearch file query k threshold st
       = (Returned finalResults, st')
    /\ (keywordResults = [] -> finalResults = similarityResults)
    /\ (similarityResults = [] -> finalResults = keywordResults)
    /\ (0 < k ->
        (finalResults = [] <-> similarityResults = [] /\ keywordResults = [])).
Proof.
  intros Hst Hs.
  assert (Hst' : reachable (snd (initialize file st)))
    by (constructor; exact Hst).
  pose proof (reachable_ids_increasing _ Hst') as Hids.
  destruct (questionSearch_steps file query k threshold st Hs)
    as [sims [kws [H1 [H2 [H3 Hcases]]]]].
  exists sims, kws, (fused k sims kws), (snd (initialize file st)).
  split; [exact H1|]. split; [exact H2|]. split; [exact H3|].
  split; [|split; [|intro Hk; apply fused_empty_iff; exact Hk]].
  - intros ->. destruct Hcases as [[_ [-> _]]|[_ [-> _]]].
    + apply fused_alone. apply similarity_results_ranks. exact Hids.
    + unfold fused. cbn [app unique_scan]. apply top_nil.
  - intros ->. destruct Hcases as [[_ [_ ->]]|[_ [_ ->]]].
    + apply fused_alone. apply keyword_results_distinct. exact Hids.
    + unfold fused. cbn [app unique_scan]. apply top_nil.
Qed.

Lemma questionSearch_single_scorer_witness :
  exists similarityResults keywordResults st',
    similaritySearch (Returned password_corpus) (lit "password") 5 0.9
      SimpleVectorStore_new = (Returned similarityResults, st')
    /\ keywordSearch (Returned password_corpus) (lit "password") 5 st'
       = (Returned keywordResults, st')
    /\ questionSearch (Returned password_corpus) (lit "password") 5 0.9
         SimpleVectorStore_new = (Returned keywordResults, st').
Proof.
  destruct (questionSearch_single_scorer (Returned password_corpus)
              (lit "password") 5 0.9 SimpleVectorStore_new reach_new)
    as [sims [kws [finals [st' [H1 [H2 [H3 [_ [H4 _]]]]]]]]];
    [right; intros e; discriminate|].
  exists sims, kws, st'. split; [exact H1|]. split; [exact H2|].
  rewrite <- H4; [exact H3|].
  vm_compute in H1. injection H1 as <- _. reflexivity.
Defined.

(** ** Edge cases of the searches *)

Lemma includes_empty (s : str) : includes s [] = true.
Proof. destruct s; reflexivity. Qed.

Lemma startsWith_refl (s : str) : startsWith s s = true.
Proof.
  induction s as [|c s IH]; [reflexivity|].
  cbn [startsWith]. destruct (ascii_dec c c); [exact IH | contradiction].
Qed.

Lemma includes_refl (s : str) : includes s s = true.
Proof. destruct s; cbn [includes]; rewrite startsWith_refl; reflexivity. Qed.








(** X17.  No score exceeds 1, so with a threshold above 1
    [similaritySearch] finds nothing: unless the load ends in an uncaught
    error, which is then the end of the call, it returns the empty list. *)
Theorem similaritySearch_threshold_above_one (file : outcome (list Row.t))
    (query : str) (k : nat) (threshold : Q) (st : store) :
  (1 < threshold)%Q ->
  similaritySearch file query k threshold st
  = (match fst (initialize file st) with
     | Uncaught e => Uncaught e
     | _ => Returned []
     end, snd (initialize file st)).
Proof.
  intro Ht. rewrite similaritySearch_run.
  destruct (initialize file st) as [[[]|e|e] st']; [|reflexivity..].
  cbn [fst snd]. do 2 f_equal.
  destruct (similarity_results query k threshold (documents st'))
    as [|r rest] eqn:E; [reflexivity|].
  assert (Hr : In r (similarity_results query k threshold (documents st')))
    by (rewrite E; left; reflexivity).
  apply similarity_results_In in Hr.
  destruct Hr as [doc [_ [_ [_ [H1 [_ H2]]]]]].
  exfalso. apply (Qlt_not_le _ _ Ht). eapply Qle_trans; eassumption.
Qed.

Lemma similaritySearch_threshold_above_one_witness :
  similaritySearch (Returned password_corpus)
    (lit "How do I reset my password?") 5 1.5 SimpleVectorStore_new
  = (Returned [],
     snd (initialize (Returned password_corpus) SimpleVectorStore_new)).
Proof.
  apply similaritySearch_threshold_above_one. reflexivity.
Defined.

(** * Properties of the pipeline *)

Lemma questionSearch_after_initialize file query k threshold st :
  questionSearch file query k threshold (snd (initialize file st))
  = questionSearch file query k threshold st.
Proof.
  assert (Hs : similaritySearch file query k threshold (snd (initialize file st))
               = similaritySearch file query k threshold st)
    by (rewrite !similaritySearch_run, initialize_again; reflexivity).
  unfold questionSearch, try_catch, bind. rewrite Hs. reflexivity.
Qed.

Lemma startsWith_prefix (prefix rest : str) :
  startsWith (prefix ++ rest) prefix = true.
Proof.
  induction prefix as [|c p IH]; [destruct rest; reflexivity|].
  cbn [app startsWith]. destruct (ascii_dec c c); [exact IH | contradiction].
Qed.

Lemma callLocalAI_run (post : str -> reply (option str)) (prompt : str)
    (this : RAGPipeline.t) :
  RAGPipeline.callLocalAI post prompt this
  = (match post prompt with
     | Resolved response =>
       if truthy response then Returned (trim (or_else response []))
       else Thrown (Error (lit "Unable to connect to local AI model: "
                           ++ lit "Invalid response format from AI model"))
     | Rejected e =>
       Thrown (Error (lit "Unable to connect to local AI model: "
                      ++ RAGPipeline.message e))
     end, this).
Proof.
  unfold RAGPipeline.callLocalAI, RAGPipeline.try_catch, RAGPipeline.bind,
    RAGPipeline.await.
  destruct (post prompt) as [response|e]; [|reflexivity].
  destruct (truthy response); reflexivity.
Qed.

(** X18.  [callLocalAI] leaves the pipeline as it is.  It returns the
    trimmed text when the model answers with a non-empty string; in every
    other case it throws an error whose message starts with "Unable to
    connect to local AI model: ", also when the request went through and
    the response has no text. *)
Theorem callLocalAI_outcomes (post : str -> reply (option str))
    (prompt : str) (this : RAGPipeline.t) :
  snd (RAGPipeline.callLocalAI post prompt this) = this
  /\ (forall c text,
        post prompt = Resolved (Some (c :: text)) ->
        fst (RAGPipeline.callLocalAI post prompt this)
        = Returned (trim (c :: text)))
  /\ (post prompt = Resolved None \/ post prompt = Resolved (Some []) ->
      fst (RAGPipeline.callLocalAI post prompt this)
      = Thrown
          (Error (lit "Unable to connect to local AI model: Invalid response format from AI model")))
  /\ (forall e,
        fst (RAGPipeline.callLocalAI post prompt this) = Thrown e ->
        startsWith (RAGPipeline.message e)
          (lit "Unable to connect to local AI model: ") = true).
Proof.
  rewrite callLocalAI_run. cbn [fst snd].
  split; [reflexivity|].
  split; [intros c text ->; reflexivity|].
  split; [intros [-> | ->]; reflexivity|].
  intros e H.
  assert (Hprefix : forall m,
    startsWith (lit "Unable to connect to local AI model: " ++ m)
      (lit "Unable to connect to local AI model: ") = true)
    by (intro m; apply startsWith_prefix).
  destruct (post prompt) as [response|e'].
  - destruct (truthy response); [discriminate|].
    injection H as <-. apply Hprefix.
  - injection H as <-. apply Hprefix.
Qed.

Lemma callLocalAI_outcomes_witness :
  fst (RAGPipeline.callLocalAI (fun _ => Resolved (Some (lit " Use the portal. ")))
         (lit "prompt") RAGPipeline.new)
  = Returned (lit "Use the portal.")
  /\ fst (RAGPipeline.callLocalAI (fun _ => Resolved None) (lit "prompt")
            RAGPipeline.new)
     = Thrown
         (Error (lit "Unable to connect to local AI model: Invalid response format from AI model")).
Proof.
  split.
  - apply (proj1 (proj2 (callLocalAI_outcomes
             (fun _ => Resolved (Some (lit " Use the portal. ")))
             (lit "prompt") RAGPipeline.new)) " "%char (lit "Use the portal. ")).
    reflexivity.
  - apply (proj1 (proj2 (proj2 (callLocalAI_outcomes (fun _ => Resolved None)
             (lit "prompt") RAGPipeline.new)))).
    left. reflexivity.
Defined.

Lemma RAGPipeline_initialize_available (file : outcome (list Row.t))
    (this : RAGPipeline.t) :
  available file (RAGPipeline.vectorStore this) ->
  exists this1,
    RAGPipeline.initialize file this = (Returned tt, this1)
    /\ RAGPipeline.initialized this1 = true
    /\ forall query k threshold,
         questionSearch file query k threshold (RAGPipeline.vectorStore this1)
         = questionSearch file query k threshold
             (RAGPipeline.vectorStore this).
Proof.
  intro H. destruct this as [vs flag]. cbn [RAGPipeline.vectorStore] in *.
  unfold RAGPipeline.initialize, RAGPipeline.bind, RAGPipeline.get.
  cbn [RAGPipeline.initialized]. destruct flag; cbn [negb].
  - eexists. split; [reflexivity|]. split; reflexivity.
  - destruct (available_initialize file vs H) as [E _].
    unfold RAGPipeline.on_vectorStore, RAGPipeline.set_initialized.
    cbn [RAGPipeline.vectorStore RAGPipeline.initialized].
    rewrite E. eexists. split; [reflexivity|]. split; [reflexivity|].
    intros query k threshold. cbn [RAGPipeline.vectorStore].
    apply questionSearch_after_initialize.
Qed.

(** The run of the pipeline's [getBotResponse] once the search has
    returned. *)
Lemma RAGPipeline_getBotResponse_found (file : outcome (list Row.t))
    (post : str -> reply (option str)) (books query : str)
    (this : RAGPipeline.t) (found : list ScoredResult.t) (vs' : store) :
  available file (RAGPipeline.vectorStore this) ->
  questionSearch file query 5 0.3 (RAGPipeline.vectorStore this)
    = (Returned found, vs') ->
  RAGPipeline.getBotResponse file post books query this
  = (Returned
       match found with
       | [] =>
         lit "Sorry, I couldn't find relevant information in the knowledge base for your question. Please contact the platform team directly."
       | bestMatch :: _ =>
         match fst (RAGPipeline.callLocalAI post
                      (RAGPipeline.createPrompt query found) this) with
         | Returned aiResponse =>
           aiResponse
           ++ (if 0 <? length
                         (set_of
                            (map (fun result =>
                                    Metadata.source
                                      (ScoredResult.metadata result))
                               (slice0 found 3)))
               then nl ++ nl ++ books ++ lit " Sources: "
                    ++ join (lit ", ")
                         (slice0
                            (set_of
                               (map (fun result =>
                                       Metadata.source
                                         (ScoredResult.metadata result))
                                  (slice0 found 3))) 2)
               else [])
         | _ =>
           if truthy (Some (Metadata.source (ScoredResult.metadata bestMatch)))
           then (lit "Based on the knowledge base:" ++ nl ++ nl
                 ++ Metadata.answer (ScoredResult.metadata bestMatch))
                ++ nl ++ nl ++ books ++ lit " Source: "
                ++ Metadata.source (ScoredResult.metadata bestMatch)
           else lit "Based on the knowledge base:" ++ nl ++ nl
                ++ Metadata.answer (ScoredResult.metadata bestMatch)
         end
       end,
     {| RAGPipeline.vectorStore := vs'; RAGPipeline.initialized := true |}).
Proof.
  intros Hav Hsearch.
  destruct (RAGPipeline_initialize_available file this Hav)
    as [this1 [Hinit [Hflag Hsame]]].
  unfold RAGPipeline.getBotResponse.
  unfold RAGPipeline.try_catch at 1. unfold RAGPipeline.bind at 1.
  rewrite Hinit. unfold RAGPipeline.bind at 1.
  unfold RAGPipeline.on_vectorStore. rewrite Hsame, Hsearch, Hflag.
  destruct found as [|bestMatch rest]; [reflexivity|].
  unfold RAGPipeline.try_catch, RAGPipeline.bind.
  rewrite !callLocalAI_run. cbn [fst].
  destruct (post (RAGPipeline.createPrompt query (bestMatch :: rest)))
    as [response|e]; [|reflexivity].
  destruct (truthy response); reflexivity.
Qed.

(** The model status check always returns, and leaves the pipeline as it
    is. *)
Lemma checkModelStatus_run (tags : reply (option (list str)))
    (this : RAGPipeline.t) :
  exists available,
    RAGPipeline.checkModelStatus tags this = (Returned available, this).
Proof.
  unfold RAGPipeline.checkModelStatus, RAGPipeline.try_catch,
    RAGPipeline.bind, RAGPipeline.await.
  destruct tags as [models|e]; [|eexists; reflexivity].
  destruct (existsb _ _); eexists; reflexivity.
Qed.

Lemma RAGPipeline_getBotResponse_never_throws (file : outcome (list Row.t))
    (post : str -> reply (option str)) (books query : str)
    (this : RAGPipeline.t) :
  forall e this',
    RAGPipeline.getBotResponse file post books query this <> (Thrown e, this').
Proof.
  intros e this'. unfold RAGPipeline.getBotResponse.
  unfold RAGPipeline.try_catch at 1.
  match goal with
  | |- context [match ?m this with _ => _ end] =>
    destruct (m this) as [[r|e'|e'] t']
  end; discriminate.
Qed.

Lemma getBotResponse_run (file : outcome (list Row.t))
    (post : str -> reply (option str)) (tags : reply (option (list str)))
    (books query : str) (this : RAGPipeline.t) :
  getBotResponse file post tags books query this
  = RAGPipeline.getBotResponse file post books query this.
Proof.
  destruct (checkModelStatus_run tags this) as [b Hb].
  pose proof (RAGPipeline_getBotResponse_never_throws file post books query
                this) as Hnever.
  unfold getBotResponse, RAGPipeline.try_catch at 1, RAGPipeline.bind.
  rewrite Hb.
  destruct (RAGPipeline.getBotResponse file post books query this)
    as [[r|e|e] t'] eqn:E; try reflexivity.
  exfalso. exact (Hnever e t' eq_refl).
Qed.

Lemma getBotResponse_outcome (file : outcome (list Row.t))
    (post : str -> reply (option str)) (tags : reply (option (list str)))
    (books query : str) (this : RAGPipeline.t) :
  (exists response this',
     getBotResponse file post tags books query this
     = (Returned response, this'))
  \/ (exists e this',
        getBotResponse file post tags books query this = (Uncaught e, this')).
Proof.
  rewrite getBotResponse_run.
  pose proof (RAGPipeline_getBotResponse_never_throws file post books query
                this) as Hnever.
  destruct (RAGPipeline.getBotResponse file post books query this)
    as [[r|e|e] t'] eqn:E; eauto.
  exfalso. exact (Hnever e t' eq_refl).
Qed.


(** The run of the pipeline's [getBotResponse] by how the load it may
    trigger ends. *)
Lemma RAGPipeline_getBotResponse_load (file : outcome (list Row.t))
    (post : str -> reply (option str)) (books query : str)
    (this : RAGPipeline.t) :
  RAGPipeline.initialized this = false ->
  initialized (RAGPipeline.vectorStore this) = false ->
  (forall e, file = Thrown e ->
     RAGPipeline.getBotResponse file post books query this
     = (Returned (lit "Sorry, I encountered an error: "
                  ++ RAGPipeline.message e), this))
  /\ (forall e, file = Uncaught e ->
        RAGPipeline.getBotResponse file post books query this
        = (Uncaught e, this)).
Proof.
  intros Hflag Hstore.
  destruct this as [vs flag]. cbn [RAGPipeline.initialized
    RAGPipeline.vectorStore] in *. subst flag.
  split; intros e ->;
    unfold RAGPipeline.getBotResponse, RAGPipeline.try_catch at 1,
      RAGPipeline.bind at 1, RAGPipeline.initialize, RAGPipeline.bind,
      RAGPipeline.get, RAGPipeline.on_vectorStore;
    cbn [RAGPipeline.initialized RAGPipeline.vectorStore negb].
  - rewrite (initialize_thrown e vs Hstore). reflexivity.
  - rewrite (initialize_uncaught e vs Hstore). reflexivity.
Qed.

Lemma settles_questionSearch file query k threshold st :
  settles file st ->
  exists results,
    questionSearch file query k threshold st
    = (Returned results, snd (initialize file st)).
Proof.
  intro Hs.
  destruct (questionSearch_steps file query k threshold st Hs)
    as [sims [kws [_ [_ [H _]]]]].
  eexists. exact H.
Qed.

(** When the load settles the pipeline's [getBotResponse] returns. *)
Lemma RAGPipeline_getBotResponse_returns (file : outcome (list Row.t))
    (post : str -> reply (option str)) (books query : str)
    (this : RAGPipeline.t) :
  settles file (RAGPipeline.vectorStore this) ->
  exists response this',
    RAGPipeline.getBotResponse file post books query this
    = (Returned response, this').
Proof.
  intro Hs.
  pose proof (RAGPipeline_getBotResponse_never_throws file post books query
                this) as Hnever.
  assert (Hsearch : forall vs, settles file vs ->
    forall flag,
      exists response this',
        RAGPipeline.try_catch
          (RAGPipeline.bind
             (RAGPipeline.on_vectorStore (questionSearch file query 5 0.3))
             (fun relevantQuestions =>
                match relevantQuestions with
                | [] =>
                  RAGPipeline.ret
                    (lit "Sorry, I couldn't find relevant information in the knowledge base for your question. Please contact the platform team directly.")
                | bestMatch :: _ =>
                  RAGPipeline.try_catch
                    (RAGPipeline.bind
                       (RAGPipeline.callLocalAI post
                          (RAGPipeline.createPrompt query relevantQuestions))
                       (fun aiResponse =>
                          RAGPipeline.ret
                            (aiResponse
                             ++ (if 0 <? length
                                           (set_of
                                              (map (fun result =>
                                                      Metadata.source
                                                        (ScoredResult.metadata
                                                           result))
                                                 (slice0 relevantQuestions 3)))
                                 then nl ++ nl ++ books ++ lit " Sources: "
                                      ++ join (lit ", ")
                                           (slice0
                                              (set_of
                                                 (map (fun result =>
                                                         Metadata.source
                                                           (ScoredResult.metadata
                                                              result))
                                                    (slice0 relevantQuestions
                                                       3))) 2)
                                 else []))))
                    (fun aiError =>
                       RAGPipeline.ret
                         (if truthy
                               (Some (Metadata.source
                                        (ScoredResult.metadata bestMatch)))
                          then (lit "Based on the knowledge base:" ++ nl ++ nl
                                ++ Metadata.answer
                                     (ScoredResult.metadata bestMatch))
                               ++ nl ++ nl ++ books ++ lit " Source: "
                               ++ Metadata.source
                                    (ScoredResult.metadata bestMatch)
                          else lit "Based on the knowledge base:" ++ nl ++ nl
                               ++ Metadata.answer
                                    (ScoredResult.metadata bestMatch)))
                end))
          (fun error =>
             RAGPipeline.ret
               (lit "Sorry, I encountered an error: "
                ++ RAGPipeline.message error))
          {| RAGPipeline.vectorStore := vs; RAGPipeline.initialized := flag |}
        = (Returned response, this')).
  { intros vs Hvs flag.
    destruct (settles_questionSearch file query 5 0.3 vs Hvs) as [found E].
    unfold RAGPipeline.try_catch at 1, RAGPipeline.bind at 1,
      RAGPipeline.on_vectorStore.
    cbn [RAGPipeline.vectorStore RAGPipeline.initialized]. rewrite E.
    destruct found as [|bestMatch rest]; [do 2 eexists; reflexivity|].
    unfold RAGPipeline.try_catch, RAGPipeline.bind.
    rewrite callLocalAI_run.
    destruct (post _) as [response|e];
      [destruct (truthy response)|]; do 2 eexists; reflexivity. }
  destruct this as [vs flag]. cbn [RAGPipeline.vectorStore] in Hs.
  unfold RAGPipeline.getBotResponse.
  destruct flag.
  - unfold RAGPipeline.try_catch at 1, RAGPipeline.bind at 1,
      RAGPipeline.initialize, RAGPipeline.bind at 1, RAGPipeline.get.
    cbn [RAGPipeline.initialized negb RAGPipeline.ret].
    destruct (Hsearch vs Hs true) as [response [this' E]].
    unfold RAGPipeline.try_catch at 1 in E.
    destruct (RAGPipeline.bind _ _ _) as [[r|e|e] t'] eqn:E';
      [do 2 eexists; reflexivity | do 2 eexists; reflexivity | discriminate E].
  - destruct (settles_initialize file vs Hs) as [[vs1 [E Hi]]|[e [E Hi]]].
    + unfold RAGPipeline.try_catch at 1, RAGPipeline.bind at 1,
        RAGPipeline.initialize, RAGPipeline.bind at 1, RAGPipeline.get.
      cbn [RAGPipeline.initialized negb].
      unfold RAGPipeline.bind at 1, RAGPipeline.on_vectorStore at 1.
      cbn [RAGPipeline.vectorStore RAGPipeline.initialized]. rewrite E.
      unfold RAGPipeline.set_initialized.
      cbn [RAGPipeline.vectorStore RAGPipeline.initialized].
      destruct (Hsearch vs1 (or_introl Hi) true) as [response [this' E1]].
      unfold RAGPipeline.try_catch at 1 in E1.
      destruct (RAGPipeline.bind _ _ _) as [[r|e|e] t'] eqn:E';
        [do 2 eexists; reflexivity | do 2 eexists; reflexivity
        | discriminate E1].
    + unfold RAGPipeline.try_catch at 1, RAGPipeline.bind at 1,
        RAGPipeline.initialize, RAGPipeline.bind at 1, RAGPipeline.get.
      cbn [RAGPipeline.initialized negb].
      unfold RAGPipeline.bind at 1, RAGPipeline.on_vectorStore at 1.
      cbn [RAGPipeline.vectorStore RAGPipeline.initialized]. rewrite E.
      do 2 eexists. reflexivity.
Qed.

(** X19.  The module function [getBotResponse] never throws, and the model
    status check changes nothing: whatever the model list request gives,
    the function ends as the pipeline's [getBotResponse] ends, with the
    pipeline in the same state.  When the load the call may trigger settles
    it returns a response; when neither the pipeline nor its store is
    initialized and the file cannot be opened, the call ends in the uncaught
    error of the read stream. *)
Theorem getBotResponse_never_throws (file : outcome (list Row.t))
    (post : str -> reply (option str)) (tags : reply (option (list str)))
    (books query : str) (this : RAGPipeline.t) :
  getBotResponse file post tags books query this
  = RAGPipeline.getBotResponse file post books query this
  /\ (forall e this',
        getBotResponse file post tags books query this <> (Thrown e, this'))
  /\ (settles file (RAGPipeline.vectorStore this) ->
      exists response this',
        getBotResponse file post tags books query this
        = (Returned response, this'))
  /\ (forall e,
        RAGPipeline.initialized this = false ->
        initialized (RAGPipeline.vectorStore this) = false ->
        file = Uncaught e ->
        getBotResponse file post tags books query this = (Uncaught e, this)).
Proof.
  rewrite getBotResponse_run.
  split; [reflexivity|].
  split; [apply RAGPipeline_getBotResponse_never_throws|].
  split; [apply RAGPipeline_getBotResponse_returns|].
  intros e Hflag Hstore Hfile.
  apply (RAGPipeline_getBotResponse_load file post books query this Hflag
           Hstore). exact Hfile.
Qed.

Lemma getBotResponse_never_throws_witness :
  (exists response this',
     getBotResponse (Returned password_corpus) (fun _ => Resolved None)
       (Rejected ECONNREFUSED) (lit "[books]")
       (lit "how to reset password") RAGPipeline.new
     = (Returned response, this'))
  /\ getBotResponse (Uncaught ENOENT) (fun _ => Resolved None)
       (Rejected ECONNREFUSED) (lit "[books]")
       (lit "how to reset password") RAGPipeline.new
     = (Uncaught ENOENT, RAGPipeline.new).
Proof.
  split.
  - apply (getBotResponse_never_throws (Returned password_corpus)
             (fun _ => Resolved None) (Rejected ECONNREFUSED) (lit "[books]")
             (lit "how to reset password") RAGPipeline.new).
    right. intros e. discriminate.
  - apply (getBotResponse_never_throws (Uncaught ENOENT)
             (fun _ => Resolved None) (Rejected ECONNREFUSED) (lit "[books]")
             (lit "how to reset password") RAGPipeline.new);
      reflexivity.
Defined.

(** X20.  When neither the pipeline nor its store is initialized and the
    load is rejected with the parser's error, [getBotResponse] answers
    "Sorry, I encountered an error: " followed by the error's message, and
    leaves the pipeline as it was, so that the next call tries the load
    again. *)
Theorem getBotResponse_rejected_load (e : error)
    (post : str -> reply (option str)) (tags : reply (option (list str)))
    (books query : str) (this : RAGPipeline.t) :
  RAGPipeline.initialized this = false ->
  initialized (RAGPipeline.vectorStore this) = false ->
  getBotResponse (Thrown e) post tags books query this
  = (Returned (lit "Sorry, I encountered an error: " ++ RAGPipeline.message e),
     this).
Proof.
  intros Hflag Hstore.
  rewrite getBotResponse_run.
  apply (RAGPipeline_getBotResponse_load (Thrown e) post books query this
           Hflag Hstore). reflexivity.
Qed.

Lemma getBotResponse_rejected_load_witness :
  getBotResponse (Thrown (Error (lit "Row exceeds the maximum size")))
    (fun _ => Resolved None) (Rejected ECONNREFUSED)
    (lit "[books]") (lit "how to reset password") RAGPipeline.new
  = (Returned
       (lit "Sorry, I encountered an error: Row exceeds the maximum size"),
     RAGPipeline.new).
Proof.
  apply (getBotResponse_rejected_load
           (Error (lit "Row exceeds the maximum size"))
           (fun _ => Resolved None) (Rejected ECONNREFUSED) (lit "[books]")
           (lit "how to reset password") RAGPipeline.new eq_refl eq_refl).
Defined.

(** X21.  When the index is there or the file can be read, and the fused
    search finds nothing for the query, [getBotResponse] returns the fixed
    apology, whatever the model would answer, and the pipeline ends
    initialized. *)
Theorem getBotResponse_nothing_found (file : outcome (list Row.t))
    (post : str -> reply (option str)) (tags : reply (option (list str)))
    (books query : str) (this : RAGPipeline.t) (vs' : store) :
  available file (RAGPipeline.vectorStore this) ->
  questionSearch file query 5 0.3 (RAGPipeline.vectorStore this)
    = (Returned [], vs') ->
  getBotResponse file post tags books query this
  = (Returned
       (lit "Sorry, I couldn't find relevant information in the knowledge base for your question. Please contact the platform team directly."),
     {| RAGPipeline.vectorStore := vs'; RAGPipeline.initialized := true |}).
Proof.
  intros Hav Hsearch. rewrite getBotResponse_run.
  exact (RAGPipeline_getBotResponse_found file post books query this [] vs'
           Hav Hsearch).
Qed.

Lemma getBotResponse_nothing_found_witness :
  fst (getBotResponse (Returned password_corpus)
         (fun _ => Resolved (Some (lit "Use the portal."))) (Rejected ECONNREFUSED)
         (lit "[books]") (lit "deploy schedule") RAGPipeline.new)
  = Returned
      (lit "Sorry, I couldn't find relevant information in the knowledge base for your question. Please contact the platform team directly.").
Proof.
  rewrite (getBotResponse_nothing_found (Returned password_corpus)
             (fun _ => Resolved (Some (lit "Use the portal."))) (Rejected ECONNREFUSED)
             (lit "[books]") (lit "deploy schedule") RAGPipeline.new
             (snd (initialize (Returned password_corpus)
                     SimpleVectorStore_new))).
  - reflexivity.
  - right. eexists. reflexivity.
  - vm_compute. reflexivity.
Defined.

Lemma questionSearch_results_stored file query k threshold st found st' :
  questionSearch file query k threshold st = (Returned found, st') ->
  forall r, In r found ->
    exists doc,
      In doc (documents st')
      /\ ScoredResult.metadata r = Document.metadata doc.
Proof.
  intros H r Hr.
  destruct (questionSearch_steps file query k threshold st
              (questionSearch_returned_settles _ _ _ _ _ _ _ H))
    as [sims [kws [_ [_ [E Hcases]]]]].
  rewrite E in H. injection H as <- <-.
  apply top_In, unique_scan_In in Hr. destruct Hr as [Hr _].
  apply in_app_or in Hr.
  destruct Hcases as [[_ [-> ->]]|[_ [-> ->]]]; [|destruct Hr as [[]|[]]].
  destruct Hr as [Hr|Hr].
  - apply similarity_results_In in Hr. destruct Hr as [doc [Hd [-> _]]].
    exists doc. split; [exact Hd | reflexivity].
  - apply keyword_results_In in Hr. destruct Hr as [doc [Hd [-> _]]].
    exists doc. split; [exact Hd | reflexivity].
Qed.

Lemma reachable_source_not_empty (st : store) (doc : Document.t) :
  reachable st -> In doc (documents st) ->
  Metadata.source (Document.metadata doc) <> [].
Proof.
  intros H Hd. destruct (reachable_loaded st H) as [data E].
  rewrite E in Hd. apply load_from_In in Hd. destruct Hd as [j [r [_ Hrow]]].
  apply load_row_some in Hrow.
  destruct Hrow as [q [a [_ [_ [_ [_ [_ [_ ->]]]]]]]]. cbn.
  destruct (Row.source r) as [[|c s]|]; discriminate.
Qed.

Lemma reachable_questionSearch file query k threshold st :
  reachable st ->
  reachable (snd (questionSearch file query k threshold st)).
Proof. intro H. constructor. exact H. Qed.

(** X22.  When the search finds something and the model call fails (the
    request fails, or the response has no text), [getBotResponse] falls
    back to the best match: on a reachable store it returns "Based on the
    knowledge base:", a blank line, the best match's answer, a blank line
    and the source line with the best match's source. *)
Theorem getBotResponse_fallback (file : outcome (list Row.t))
    (post : str -> reply (option str)) (tags : reply (option (list str)))
    (books query : str) (this : RAGPipeline.t)
    (bestMatch : ScoredResult.t) (others : list ScoredResult.t)
    (vs' : store) :
  reachable (RAGPipeline.vectorStore this) ->
  available file (RAGPipeline.vectorStore this) ->
  questionSearch file query 5 0.3 (RAGPipeline.vectorStore this)
    = (Returned (bestMatch :: others), vs') ->
  ((exists e,
      post (RAGPipeline.createPrompt query (bestMatch :: others))
      = Rejected e)
   \/ post (RAGPipeline.createPrompt query (bestMatch :: others))
      = Resolved None
   \/ post (RAGPipeline.createPrompt query (bestMatch :: others))
      = Resolved (Some [])) ->
  getBotResponse file post tags books query this
  = (Returned
       (lit "Based on the knowledge base:" ++ nl ++ nl
        ++ Metadata.answer (ScoredResult.metadata bestMatch)
        ++ nl ++ nl ++ books ++ lit " Source: "
        ++ Metadata.source (ScoredResult.metadata bestMatch)),
     {| RAGPipeline.vectorStore := vs'; RAGPipeline.initialized := true |}).
Proof.
  intros Hst Hav Hsearch Hfail. rewrite getBotResponse_run.
  rewrite (RAGPipeline_getBotResponse_found file post books query this
             (bestMatch :: others) vs' Hav Hsearch).
  rewrite callLocalAI_run. cbn [fst].
  assert (Hsrc : truthy (Some (Metadata.source
                                 (ScoredResult.metadata bestMatch))) = true).
  { destruct (questionSearch_results_stored _ _ _ _ _ _ _ Hsearch bestMatch
                (or_introl eq_refl)) as [doc [Hd E]].
    assert (Hr : reachable vs').
    { replace vs' with
        (snd (questionSearch file query 5 0.3 (RAGPipeline.vectorStore this)))
        by (rewrite Hsearch; reflexivity).
      apply reachable_questionSearch. exact Hst. }
    pose proof (reachable_source_not_empty vs' doc Hr Hd) as Hne.
    rewrite E. destruct (Metadata.source (Document.metadata doc));
      [contradiction | reflexivity]. }
  rewrite Hsrc.
  assert (Hshape : forall a b c : str, (a ++ b) ++ c = a ++ b ++ c)
    by (intros; symmetry; apply app_assoc).
  destruct Hfail as [[e ->]|[-> | ->]]; cbn [truthy];
    rewrite !Hshape; repeat (rewrite <- ?app_assoc); reflexivity.
Qed.

Lemma getBotResponse_fallback_witness :
  fst (getBotResponse (Returned password_corpus)
         (fun _ => Rejected (Error (lit "timeout of 60000ms exceeded")))
         (Rejected ECONNREFUSED) (lit "[books]") (lit "how to reset password")
         RAGPipeline.new)
  = Returned
      (lit "Based on the knowledge base:" ++ nl ++ nl
       ++ lit "Go to settings and click reset." ++ nl ++ nl
       ++ lit "[books] Source: wiki").
Proof.
  eassert (Hs : questionSearch (Returned password_corpus)
                  (lit "how to reset password") 5 0.3
                  (RAGPipeline.vectorStore RAGPipeline.new)
                = (Returned (_ :: _), _)) by (vm_compute; reflexivity).
  rewrite (getBotResponse_fallback (Returned password_corpus)
             (fun _ => Rejected (Error (lit "timeout of 60000ms exceeded")))
             (Rejected ECONNREFUSED) (lit "[books]") (lit "how to reset password")
             RAGPipeline.new _ _ _ reach_new
             (or_intror (ex_intro _ password_corpus eq_refl)) Hs
             (or_introl (ex_intro _ _ eq_refl))).
  reflexivity.
Defined.

Lemma fold_set_add_prefix (l : list str) :
  forall set, exists rest, fold_left set_add l set = set ++ rest.
Proof.
  induction l as [|t l IH]; intro set; cbn [fold_left].
  - exists []. symmetry. apply app_nil_r.
  - destruct (IH (set_add set t)) as [rest E]. rewrite E.
    unfold set_add. destruct (array_includes set t); [eauto|].
    rewrite <- app_assoc. eauto.
Qed.

Lemma set_of_head (t : str) (l : list str) :
  exists rest, set_of (t :: l) = t :: rest.
Proof.
  unfold set_of. cbn [fold_left].
  change (set_add [] t) with [t].
  destruct (fold_set_add_prefix l [t]) as [rest E]. rewrite E.
  exists rest. reflexivity.
Qed.

(** X23.  When the search finds something and the model answers with a
    non-empty text, [getBotResponse] returns the trimmed text, a blank line
    and a sources line that lists at most two sources, all different, each
    the source of one of the first three results, the first being the best
    match's. *)
Theorem getBotResponse_answer (file : outcome (list Row.t))
    (post : str -> reply (option str)) (tags : reply (option (list str)))
    (books query : str) (this : RAGPipeline.t)
    (bestMatch : ScoredResult.t) (others : list ScoredResult.t)
    (vs' : store) (c : ascii) (text : str) :
  available file (RAGPipeline.vectorStore this) ->
  questionSearch file query 5 0.3 (RAGPipeline.vectorStore this)
    = (Returned (bestMatch :: others), vs') ->
  post (RAGPipeline.createPrompt query (bestMatch :: others))
    = Resolved (Some (c :: text)) ->
  exists sources,
    getBotResponse file post tags books query this
    = (Returned
         (trim (c :: text) ++ nl ++ nl ++ books ++ lit " Sources: "
          ++ join (lit ", ") sources),
       {| RAGPipeline.vectorStore := vs'; RAGPipeline.initialized := true |})
    /\ NoDup sources
    /\ 1 <= length sources <= 2
    /\ hd_error sources
       = Some (Metadata.source (ScoredResult.metadata bestMatch))
    /\ (forall s, In s sources ->
          exists r,
            In r (firstn 3 (bestMatch :: others))
            /\ Metadata.source (ScoredResult.metadata r) = s).
Proof.
  intros Hav Hsearch Hpost.
  set (sources := slice0
         (set_of (map (fun result =>
                         Metadata.source (ScoredResult.metadata result))
                    (slice0 (bestMatch :: others) 3))) 2).
  exists sources.
  destruct (set_of_head (Metadata.source (ScoredResult.metadata bestMatch))
              (map (fun result =>
                      Metadata.source (ScoredResult.metadata result))
                 (firstn 2 others))) as [rest Hhead].
  assert (Hset : set_of (map (fun result =>
                                Metadata.source (ScoredResult.metadata result))
                           (slice0 (bestMatch :: others) 3))
                 = Metadata.source (ScoredResult.metadata bestMatch) :: rest)
    by exact Hhead.
  split.
  - rewrite getBotResponse_run.
    rewrite (RAGPipeline_getBotResponse_found file post books query this
               (bestMatch :: others) vs' Hav Hsearch).
    rewrite callLocalAI_run, Hpost. cbn [fst truthy or_else].
    fold sources. rewrite Hset. reflexivity.
  - split; [apply slice0_NoDup, set_of_NoDup|].
    split; [unfold sources; rewrite Hset; split;
            [cbn; lia | apply slice0_length]|].
    split; [unfold sources; rewrite Hset; reflexivity|].
    intros s Hs. apply slice0_In, set_of_In, in_map_iff in Hs.
    destruct Hs as [r [E Hr]]. exists r. split; [exact Hr | exact E].
Qed.

Lemma getBotResponse_answer_witness :
  exists sources,
    fst (getBotResponse (Returned password_corpus)
           (fun _ => Resolved (Some (lit " Use the settings page. ")))
           (Rejected ECONNREFUSED) (lit "[books]") (lit "how to reset password")
           RAGPipeline.new)
    = Returned
        (lit "Use the settings page." ++ nl ++ nl
         ++ lit "[books] Sources: " ++ join (lit ", ") sources)
    /\ hd_error sources = Some (lit "wiki")
    /\ length sources <= 2.
Proof.
  eassert (Hs : questionSearch (Returned password_corpus)
                  (lit "how to reset password") 5 0.3
                  (RAGPipeline.vectorStore RAGPipeline.new)
                = (Returned (_ :: _), _)) by (vm_compute; reflexivity).
  destruct (getBotResponse_answer (Returned password_corpus)
              (fun _ => Resolved (Some (lit " Use the settings page. ")))
              (Rejected ECONNREFUSED) (lit "[books]") (lit "how to reset password")
              RAGPipeline.new _ _ _ " "%char (lit "Use the settings page. ")
              (or_intror (ex_intro _ password_corpus eq_refl)) Hs eq_refl)
    as [sources [E [_ [[_ Hlen] [Hhd _]]]]].
  exists sources. split; [rewrite E; reflexivity|].
  split; [exact Hhd | exact Hlen].
Defined.

Lemma startsWith_empty (s : str) : startsWith s [] = true.
Proof. destruct s; reflexivity. Qed.

Lemma startsWith_app (s rest sub : str) :
  startsWith s sub = true -> startsWith (s ++ rest) sub = true.
Proof.
  revert sub. induction s as [|c s IH]; intros [|a sub] H;
    try apply startsWith_empty; try discriminate H.
  cbn [app startsWith] in *. destruct (ascii_dec a c); [|discriminate].
  apply IH. exact H.
Qed.

Lemma includes_app_l (s rest sub : str) :
  includes s sub = true -> includes (s ++ rest) sub = true.
Proof.
  induction s as [|c s IH]; intro H.
  - cbn [includes] in H. rewrite orb_false_r in H.
    destruct sub; [apply includes_empty | discriminate].
  - cbn [app includes] in *. apply orb_true_iff in H.
    apply orb_true_iff. destruct H as [H|H].
    + left. apply (startsWith_app (c :: s) rest sub H).
    + right. apply IH. exact H.
Qed.

Lemma includes_app_r (before s sub : str) :
  includes s sub = true -> includes (before ++ s) sub = true.
Proof.
  intro H. induction before as [|c p IH]; [exact H|].
  cbn [app includes]. rewrite IH. apply orb_true_r.
Qed.

Ltac find_piece :=
  repeat first
    [ apply includes_refl
    | apply includes_app_l; apply includes_refl
    | apply includes_app_r ].

(** X24.  The prompt contains the user's question and, for every result
    it is given, that result's source, question and answer. *)
Theorem createPrompt_contains (userQuestion : str)
    (contextQA : list ScoredResult.t) :
  includes (RAGPipeline.createPrompt userQuestion contextQA) userQuestion
  = true
  /\ forall result, In result contextQA ->
       includes (RAGPipeline.createPrompt userQuestion contextQA)
         (Metadata.source (ScoredResult.metadata result)) = true
       /\ includes (RAGPipeline.createPrompt userQuestion contextQA)
            (Metadata.question (ScoredResult.metadata result)) = true
       /\ includes (RAGPipeline.createPrompt userQuestion contextQA)
            (Metadata.answer (ScoredResult.metadata result)) = true.
Proof.
  unfold RAGPipeline.createPrompt. cbv zeta.
  split; [find_piece|].
  set (step := fun (context : str) (result : ScoredResult.t) =>
    context ++ lit "Source: "
    ++ Metadata.source (ScoredResult.metadata result) ++ nl ++ lit "Q: "
    ++ Metadata.question (ScoredResult.metadata result) ++ nl ++ nl
    ++ lit "A: " ++ Metadata.answer (ScoredResult.metadata result)
    ++ nl ++ nl).
  assert (Hkeep : forall l context x,
    includes context x = true -> includes (fold_left step l context) x = true).
  { induction l as [|r l IH]; intros context x H; [exact H|].
    cbn [fold_left]. apply IH. unfold step. apply includes_app_l. exact H. }
  assert (Hin : forall l context r, In r l ->
    includes (fold_left step l context)
      (Metadata.source (ScoredResult.metadata r)) = true
    /\ includes (fold_left step l context)
         (Metadata.question (ScoredResult.metadata r)) = true
    /\ includes (fold_left step l context)
         (Metadata.answer (ScoredResult.metadata r)) = true).
  { induction l as [|r' l IH]; intros context r Hr; [contradiction|].
    cbn [fold_left]. destruct Hr as [->|Hr]; [|apply IH; exact Hr].
    repeat split; apply Hkeep; unfold step; find_piece. }
  intros result Hr. destruct (Hin contextQA [] result Hr) as [H1 [H2 H3]].
  repeat split;
    do 8 apply includes_app_r; apply includes_app_l; assumption.
Qed.

Lemma createPrompt_contains_witness :
  includes
    (RAGPipeline.createPrompt (lit "how to reset password") [password_entry])
    (lit "Go to settings and click reset.")
  = true.
Proof.
  exact (proj2 (proj2 (proj2 (createPrompt_contains
           (lit "how to reset password") [password_entry])
           password_entry (or_introl eq_refl)))).
Defined.

(** * Properties of the chat handlers *)

Lemma is_asterisk_iff (c : ascii) : is_asterisk c = true <-> c = "*"%char.
Proof.
  destruct c as [[] [] [] [] [] [] [] []]; vm_compute;
    split; intro H; try discriminate H; reflexivity.
Qed.

Lemma startsWith_two_asterisks (c c' : ascii) (rest : str) :
  startsWith (c :: c' :: rest) (lit "**")
  = (is_asterisk c && is_asterisk c')%bool.
Proof.
  change (lit "**") with ["*"%char; "*"%char]. cbn [startsWith].
  destruct (ascii_dec "*" c) as [<-|Hc].
  - destruct (ascii_dec "*" c') as [<-|Hc'];
      [rewrite startsWith_empty; reflexivity|].
    destruct (is_asterisk c') eqn:E; [|reflexivity].
    apply is_asterisk_iff in E. congruence.
  - destruct (is_asterisk c) eqn:E; [|reflexivity].
    apply is_asterisk_iff in E. congruence.
Qed.

Lemma includes_two_asterisks (c : ascii) (rest : str) :
  includes (c :: rest) (lit "**")
  = (match rest with
     | c' :: _ => (is_asterisk c && is_asterisk c')%bool
     | [] => false
     end
     || includes rest (lit "**"))%bool.
Proof.
  cbn [includes]. f_equal.
  destruct rest as [|c' rest']; [|apply startsWith_two_asterisks].
  change (lit "**") with ["*"%char; "*"%char]. cbn [startsWith].
  destruct (ascii_dec "*" c); reflexivity.
Qed.

Lemma remove_double_asterisks_cons (c c' : ascii) (rest : str) :
  remove_double_asterisks (c :: c' :: rest)
  = if (is_asterisk c && is_asterisk c')%bool
    then remove_double_asterisks rest
    else c :: remove_double_asterisks (c' :: rest).
Proof. reflexivity. Qed.

Lemma remove_double_asterisks_head (c : ascii) (rest : str) :
  is_asterisk c = false ->
  exists r, remove_double_asterisks (c :: rest) = c :: r.
Proof.
  intro H. destruct rest as [|c' rest]; [exists []; reflexivity|].
  rewrite remove_double_asterisks_cons, H. cbn [andb]. eauto.
Qed.

Lemma remove_double_asterisks_bounded (n : nat) :
  forall s, length s <= n ->
    includes (remove_double_asterisks s) (lit "**") = false
    /\ (includes s (lit "**") = false -> remove_double_asterisks s = s).
Proof.
  induction n as [|n IH]; intros s Hlen.
  - destruct s; [|cbn in Hlen; lia]. split; reflexivity.
  - destruct s as [|c [|c' rest]].
    + split; reflexivity.
    + split; [|reflexivity].
      change (remove_double_asterisks [c]) with [c].
      rewrite includes_two_asterisks. reflexivity.
    + rewrite remove_double_asterisks_cons.
      destruct (IH (c' :: rest)) as [IH1 IH2]; [cbn in *; lia|].
      destruct (IH rest) as [IH3 _]; [cbn in *; lia|].
      destruct (is_asterisk c && is_asterisk c')%bool eqn:E.
      * split; [exact IH3|]. intro Hno.
        rewrite includes_two_asterisks, E in Hno. discriminate.
      * split.
        -- rewrite includes_two_asterisks, IH1, orb_false_r.
           destruct (is_asterisk c) eqn:Ec.
           ++ cbn [andb] in E.
              destruct (remove_double_asterisks_head c' rest E) as [r ->].
              rewrite E. reflexivity.
           ++ destruct (remove_double_asterisks (c' :: rest)); reflexivity.
        -- intro Hno. rewrite includes_two_asterisks in Hno.
           apply orb_false_iff in Hno. destruct Hno as [_ Hno].
           rewrite (IH2 Hno). reflexivity.
Qed.

Lemma remove_double_asterisks_none (s : str) :
  includes (remove_double_asterisks s) (lit "**") = false.
Proof. apply (remove_double_asterisks_bounded (length s)). lia. Qed.

(** X25.  [remove_double_asterisks] leaves no two asterisks in a row, and
    a text without two asterisks in a row is returned unchanged. *)
Theorem remove_double_asterisks_leaves_none (s : str) :
  includes (remove_double_asterisks s) (lit "**") = false
  /\ (includes s (lit "**") = false -> remove_double_asterisks s = s).
Proof.
  split.
  - apply (remove_double_asterisks_bounded (length s)). lia.
  - intro H.
    destruct (remove_double_asterisks_bounded (length s) s) as [_ Hid];
      [lia | exact (Hid H)].
Qed.

Lemma remove_double_asterisks_leaves_none_witness :
  remove_double_asterisks (lit "Use the portal.") = lit "Use the portal.".
Proof.
  apply (proj2 (remove_double_asterisks_leaves_none (lit "Use the portal."))).
  reflexivity.
Defined.

Lemma user_id_length_run (id : str) :
  forall n rest,
    forallb is_upper_or_digit id = true ->
    0 < n + length id ->
    user_id_length n (id ++ ">"%char :: rest) = Some (S (n + length id)).
Proof.
  induction id as [|c id IH]; intros n rest Hid Hn.
  - cbn [app user_id_length length] in *.
    change (is_upper_or_digit ">") with false. cbv iota.
    change (N.eqb (code ">") 62) with true.
    assert (E : (0 <? n) = true) by (apply Nat.ltb_lt; lia).
    rewrite E, Nat.add_0_r. reflexivity.
  - cbn [forallb] in Hid. apply andb_prop in Hid. destruct Hid as [Hc Hid].
    cbn [app user_id_length length]. rewrite Hc.
    rewrite (IH (S n) rest Hid) by lia. f_equal. lia.
Qed.

Lemma remove_mentions_from_skip (dropped : str) :
  forall rest,
    remove_mentions_from (length dropped) (dropped ++ rest)
    = remove_mentions_from 0 rest.
Proof.
  induction dropped as [|c dropped IH]; intro rest; [reflexivity|].
  cbn [length app remove_mentions_from]. apply IH.
Qed.

(** X26.  [remove_mentions] removes a mention at the start of the text
    (the two characters "<@", a non-empty run of capitals and digits, and
    ">"), and returns a text without "<" unchanged. *)
Theorem remove_mentions_behaviour :
  (forall id rest,
     id <> [] -> forallb is_upper_or_digit id = true ->
     remove_mentions (lit "<@" ++ id ++ lit ">" ++ rest)
     = remove_mentions rest)
  /\ (forall text,
        forallb (fun c => negb (N.eqb (code c) 60)) text = true ->
        remove_mentions text = text).
Proof.
  split.
  - intros id rest Hne Hid. unfold remove_mentions.
    change (lit "<@" ++ id ++ lit ">" ++ rest)
      with ("<"%char :: "@"%char :: (id ++ ">"%char :: rest)).
    cbn [remove_mentions_from mention_length].
    change (N.eqb (code "<") 60 && N.eqb (code "@") 64)%bool with true.
    cbv iota.
    rewrite (user_id_length_run id 0 rest Hid)
      by (destruct id; [contradiction | cbn; lia]).
    cbn [option_map Nat.add].
    replace (id ++ ">"%char :: rest) with ((id ++ [">"%char]) ++ rest)
      by (rewrite <- app_assoc; reflexivity).
    replace (S (length id)) with (length (id ++ [">"%char]))
      by (rewrite length_app; cbn; lia).
    apply remove_mentions_from_skip.
  - unfold remove_mentions. induction text as [|c text IH]; [reflexivity|].
    cbn [forallb]. intro H. apply andb_prop in H. destruct H as [Hc Ht].
    cbn [remove_mentions_from].
    assert (E : mention_length (c :: text) = None).
    { unfold mention_length. destruct text as [|c' text']; [reflexivity|].
      apply negb_true_iff in Hc. rewrite Hc. reflexivity. }
    rewrite E, (IH Ht). reflexivity.
Qed.

Lemma remove_mentions_behaviour_witness :
  remove_mentions (lit "<@U04ABC123> where is the deploy log")
  = lit " where is the deploy log".
Proof.
  transitivity (remove_mentions (lit " where is the deploy log")).
  - apply (proj1 remove_mentions_behaviour (lit "U04ABC123")
             (lit " where is the deploy log")); [discriminate | reflexivity].
  - apply (proj2 remove_mentions_behaviour). reflexivity.
Defined.

Lemma say_with_retries_said slack retries :
  forall text said,
    exists more,
      snd (say_with_retries slack text retries said) = said ++ more
      /\ length more <= S (length retries)
      /\ hd_error more = Some (text, accepted (slack said text))
      /\ length (filter snd more) <= 1
      /\ (forall e,
            fst (say_with_retries slack text retries said) = Thrown e ->
            filter snd more = [])
      /\ (forall e,
            fst (say_with_retries slack text retries said) <> Uncaught e)
      /\ (accepted (slack said text) = true ->
          say_with_retries slack text retries said
          = (Returned tt, said ++ [(text, true)])).
Proof.
  induction retries as [|next rest IH]; intros text said;
    cbn [say_with_retries]; destruct (slack said text) as [u|e] eqn:E;
    cbn [accepted].
  - exists [(text, true)]. cbn. repeat split; try lia; discriminate.
  - exists [(text, false)]. cbn. repeat split; try lia; discriminate.
  - exists [(text, true)]. cbn. repeat split; try lia; discriminate.
  - destruct (IH next (said ++ [(text, false)]))
      as [more [H1 [H2 [_ [H4 [H5 [H6 _]]]]]]].
    exists ((text, false) :: more).
    rewrite H1, <- app_assoc. cbn [app length filter snd hd_error].
    split; [reflexivity|]. split; [lia|]. split; [reflexivity|].
    split; [exact H4|]. split; [exact H5|]. split; [exact H6|].
    discriminate.
Qed.

Section Runs.

Variable file : outcome (list Row.t).
Variable post : str -> reply (option str).
Variable tags : reply (option (list str)).
Variable books : str.
Variable wave : str.
Variable slack : list (str * bool) -> str -> reply unit.

Lemma message_handler_ignores (event : SlackEvent.t) (chat : Chat.t) :
  truthy (SlackEvent.bot_id event) = true \/ addressed event = false ->
  message_handler file post tags books wave slack event chat
  = (Returned tt, chat).
Proof.
  unfold message_handler, addressed, Chat.try_catch. cbv zeta.
  intros [H|H]; rewrite H; [reflexivity|].
  destruct (truthy (SlackEvent.bot_id event)); reflexivity.
Qed.

Lemma message_handler_greets (event : SlackEvent.t) (this : RAGPipeline.t) :
  truthy (SlackEvent.bot_id event) = false ->
  addressed event = true ->
  has_greeting (or_default (SlackEvent.text event) []) = true ->
  message_handler file post tags books wave slack event (Chat.start this)
  = (fst (say_with_retries slack
            (lit "Hi there! " ++ wave
             ++ lit " Ask me anything about the platform knowledge base!")
            [sorry_message] []),
     {| Chat.pipeline := this;
        Chat.said :=
          snd (say_with_retries slack
                 (lit "Hi there! " ++ wave
                  ++ lit " Ask me anything about the platform knowledge base!")
                 [sorry_message] []) |}).
Proof.
  unfold message_handler, addressed, has_greeting. cbv zeta.
  intros -> -> ->. unfold Chat.try_catch, say, Chat.start.
  cbn [Chat.said Chat.pipeline say_with_retries app].
  destruct (slack [] _) as [u|e]; [reflexivity|].
  cbn [Chat.said Chat.pipeline]. fold sorry_message.
  destruct (slack _ sorry_message); reflexivity.
Qed.

Lemma message_handler_answers (event : SlackEvent.t) (this : RAGPipeline.t) :
  truthy (SlackEvent.bot_id event) = false ->
  addressed event = true ->
  has_greeting (or_default (SlackEvent.text event) []) = false ->
  message_handler file post tags books wave slack event (Chat.start this)
  = match getBotResponse file post tags books
            (or_default (SlackEvent.text event) []) this with
    | (Returned response, this') =>
      (fst (say_with_retries slack response [sorry_message; sorry_message]
              []),
       {| Chat.pipeline := this';
          Chat.said :=
            snd (say_with_retries slack response
                   [sorry_message; sorry_message] []) |})
    | (Thrown e, this') =>
      (fst (say_with_retries slack sorry_message [sorry_message] []),
       {| Chat.pipeline := this';
          Chat.said :=
            snd (say_with_retries slack sorry_message [sorry_message] []) |})
    | (Uncaught e, this') =>
      (Uncaught e, {| Chat.pipeline := this'; Chat.said := [] |})
    end.
Proof.
  unfold message_handler, addressed, has_greeting. cbv zeta.
  intros -> -> ->.
  unfold Chat.try_catch, Chat.bind, Chat.on_pipeline, say, Chat.start.
  cbn [Chat.said Chat.pipeline].
  destruct (getBotResponse file post tags books
              (or_default (SlackEvent.text event) []) this)
    as [[response|e|e] this']; cbn [Chat.said Chat.pipeline say_with_retries app];
    fold sorry_message.
  - destruct (slack [] response) as [u|e1]; [reflexivity|].
    cbn [Chat.said Chat.pipeline].
    destruct (slack _ sorry_message) as [u|e2]; [reflexivity|].
    cbn [Chat.said Chat.pipeline app].
    destruct (slack _ sorry_message) as [u|e3]; reflexivity.
  - destruct (slack [] sorry_message) as [u|e1]; [reflexivity|].
    cbn [Chat.said Chat.pipeline app].
    destruct (slack _ sorry_message) as [u|e2]; reflexivity.
  - reflexivity.
Qed.

End Runs.

Section MentionRuns.

Variable file : outcome (list Row.t).
Variable post : str -> reply (option str).
Variable tags : reply (option (list str)).
Variable books : str.
Variable wave : str.
Variable slack : list (str * bool) -> str -> reply unit.

Lemma app_mention_handler_helps (event : SlackEvent.t) (this : RAGPipeline.t) :
  trim (remove_mentions (or_default (SlackEvent.text event) [])) = [] ->
  app_mention_handler file post tags books wave slack event (Chat.start this)
  = (fst (say_with_retries slack
            (lit "<@" ++ or_default (SlackEvent.user event) []
             ++ lit "> Hi! How can I help you with the platform knowledge base?")
            [lit "Sorry, I encountered an error."] []),
     {| Chat.pipeline := this;
        Chat.said :=
          snd (say_with_retries slack
                 (lit "<@" ++ or_default (SlackEvent.user event) []
                  ++ lit "> Hi! How can I help you with the platform knowledge base?")
                 [lit "Sorry, I encountered an error."] []) |}).
Proof.
  unfold app_mention_handler. cbv zeta. intros ->.
  unfold Chat.try_catch, say, Chat.start.
  cbn [truthy Chat.said Chat.pipeline say_with_retries app].
  destruct (slack [] _) as [u|e]; [reflexivity|].
  cbn [Chat.said Chat.pipeline].
  destruct (slack _ _); reflexivity.
Qed.

Lemma app_mention_handler_greets (event : SlackEvent.t)
    (this : RAGPipeline.t) :
  trim (remove_mentions (or_default (SlackEvent.text event) [])) <> [] ->
  has_greeting (trim (remove_mentions (or_default (SlackEvent.text event) [])))
  = true ->
  app_mention_handler file post tags books wave slack event (Chat.start this)
  = (fst (say_with_retries slack
            (lit "Hi there! " ++ wave
             ++ lit " How can I assist you with the platform knowledge base?")
            [lit "Sorry, I encountered an error."] []),
     {| Chat.pipeline := this;
        Chat.said :=
          snd (say_with_retries slack
                 (lit "Hi there! " ++ wave
                  ++ lit " How can I assist you with the platform knowledge base?")
                 [lit "Sorry, I encountered an error."] []) |}).
Proof.
  unfold app_mention_handler, has_greeting. cbv zeta. intros Hne ->.
  destruct (trim (remove_mentions (or_default (SlackEvent.text event) [])))
    as [|c rest]; [contradiction|].
  unfold Chat.try_catch, say, Chat.start.
  cbn [truthy Chat.said Chat.pipeline say_with_retries app].
  destruct (slack [] _) as [u|e]; [reflexivity|].
  cbn [Chat.said Chat.pipeline].
  destruct (slack _ _); reflexivity.
Qed.

Lemma app_mention_handler_answers (event : SlackEvent.t)
    (this : RAGPipeline.t) :
  trim (remove_mentions (or_default (SlackEvent.text event) [])) <> [] ->
  has_greeting (trim (remove_mentions (or_default (SlackEvent.text event) [])))
  = false ->
  app_mention_handler file post tags books wave slack event (Chat.start this)
  = match getBotResponse file post tags books
            (trim (remove_mentions (or_default (SlackEvent.text event) [])))
            this with
    | (Returned response, this') =>
      (fst (say_with_retries slack
              (lit "<@" ++ or_default (SlackEvent.user event) [] ++ lit "> "
               ++ remove_double_asterisks response)
              [lit "<@" ++ or_default (SlackEvent.user event) []
               ++ lit "> Sorry, I encountered an error processing your request.";
               lit "Sorry, I encountered an error."] []),
       {| Chat.pipeline := this';
          Chat.said :=
            snd (say_with_retries slack
                   (lit "<@" ++ or_default (SlackEvent.user event) []
                    ++ lit "> " ++ remove_double_asterisks response)
                   [lit "<@" ++ or_default (SlackEvent.user event) []
                    ++ lit "> Sorry, I encountered an error processing your request.";
                    lit "Sorry, I encountered an error."] []) |})
    | (Thrown e, this') =>
      (fst (say_with_retries slack
              (lit "<@" ++ or_default (SlackEvent.user event) []
               ++ lit "> Sorry, I encountered an error processing your request.")
              [lit "Sorry, I encountered an error."] []),
       {| Chat.pipeline := this';
          Chat.said :=
            snd (say_with_retries slack
                   (lit "<@" ++ or_default (SlackEvent.user event) []
                    ++ lit "> Sorry, I encountered an error processing your request.")
                   [lit "Sorry, I encountered an error."] []) |})
    | (Uncaught e, this') =>
      (Uncaught e, {| Chat.pipeline := this'; Chat.said := [] |})
    end.
Proof.
  unfold app_mention_handler, has_greeting. cbv zeta. intros Hne ->.
  destruct (trim (remove_mentions (or_default (SlackEvent.text event) [])))
    as [|c rest]; [contradiction|].
  unfold Chat.try_catch, Chat.bind, Chat.on_pipeline, say, Chat.start.
  cbn [truthy Chat.said Chat.pipeline].
  destruct (getBotResponse file post tags books (c :: rest) this)
    as [[response|e|e] this'];
    cbn [Chat.said Chat.pipeline say_with_retries app].
  - destruct (slack [] _) as [u|e1]; [reflexivity|].
    cbn [Chat.said Chat.pipeline].
    destruct (slack _ _) as [u|e2]; [reflexivity|].
    cbn [Chat.said Chat.pipeline app].
    destruct (slack _ _) as [u|e3]; reflexivity.
  - destruct (slack [] _) as [u|e1]; [reflexivity|].
    cbn [Chat.said Chat.pipeline app].
    destruct (slack _ _) as [u|e2]; reflexivity.
  - reflexivity.
Qed.

End MentionRuns.

Lemma delivered_said (this : RAGPipeline.t) (said : list (str * bool)) :
  Chat.delivered {| Chat.pipeline := this; Chat.said := said |}
  = map fst (filter snd said).
Proof. reflexivity. Qed.

(** What every run that posts [text] and then the apologies has in
    common. *)
Lemma retries_summary slack text retries (this : RAGPipeline.t) :
  length retries <= 2 ->
  let run := say_with_retries slack text retries [] in
  let chat := {| Chat.pipeline := this; Chat.said := snd run |} in
  length (Chat.said chat) <= 3
  /\ length (Chat.delivered chat) <= 1
  /\ (forall e, fst run = Thrown e -> Chat.delivered chat = [])
  /\ (forall e, fst run <> Uncaught e)
  /\ hd_error (Chat.said chat) = Some (text, accepted (slack [] text))
  /\ (accepted (slack [] text) = true ->
      (fst run, chat)
      = (Returned tt,
         {| Chat.pipeline := this; Chat.said := [(text, true)] |})).
Proof.
  intro Hlen. cbv zeta.
  destruct (say_with_retries_said slack retries text [])
    as [more [H1 [H2 [H3 [H4 [H5 [H6 H7]]]]]]].
  cbn [app] in H1, H7. rewrite delivered_said. cbn [Chat.said].
  rewrite H1. rewrite length_map.
  split; [lia|]. split; [exact H4|].
  split; [intros e He; rewrite (H5 e He); reflexivity|].
  split; [exact H6|]. split; [exact H3|].
  intro Ha. rewrite <- H1, (H7 Ha). reflexivity.
Qed.

(** X27.  The handler of [message] events, where a post to Slack may be
    refused.  A run posts at most three times (the reply, and one apology
    from each handler that catches a refused post), Slack accepts at most
    one of the posts, and a run that ends in a thrown error has had none
    accepted.  The handler posts nothing, and leaves the pipeline alone,
    for a message of a bot and for a message that is neither a direct
    message nor contains "<@".  Otherwise, when the lower-cased text
    contains "hello" or "hi" anywhere, its first post is the greeting, the
    knowledge base is not consulted, and when Slack accepts that post the
    run returns with nothing else posted.  In the remaining case, when
    [getBotResponse] returns a response, the first post is that response,
    and when Slack accepts it the run returns with nothing else posted;
    when [getBotResponse] ends in the uncaught error of the read stream,
    so does the handler, with nothing posted. *)
Theorem message_handler_replies (file : outcome (list Row.t))
    (post : str -> reply (option str)) (tags : reply (option (list str)))
    (books wave : str) (slack : list (str * bool) -> str -> reply unit)
    (event : SlackEvent.t) (this : RAGPipeline.t) :
  let run :=
    message_handler file post tags books wave slack event (Chat.start this) in
  let greeting :=
    lit "Hi there! " ++ wave
    ++ lit " Ask me anything about the platform knowledge base!" in
  length (Chat.said (snd run)) <= 3
  /\ length (Chat.delivered (snd run)) <= 1
  /\ (forall e, fst run = Thrown e -> Chat.delivered (snd run) = [])
  /\ (truthy (SlackEvent.bot_id event) = true \/ addressed event = false ->
      run = (Returned tt, Chat.start this))
  /\ (truthy (SlackEvent.bot_id event) = false ->
      addressed event = true ->
      has_greeting (or_default (SlackEvent.text event) []) = true ->
      Chat.pipeline (snd run) = this
      /\ hd_error (Chat.said (snd run))
         = Some (greeting, accepted (slack [] greeting))
      /\ (accepted (slack [] greeting) = true ->
          run = (Returned tt,
                 {| Chat.pipeline := this;
                    Chat.said := [(greeting, true)] |})))
  /\ (truthy (SlackEvent.bot_id event) = false ->
      addressed event = true ->
      has_greeting (or_default (SlackEvent.text event) []) = false ->
      (forall response this',
         getBotResponse file post tags books
           (or_default (SlackEvent.text event) []) this
         = (Returned response, this') ->
         Chat.pipeline (snd run) = this'
         /\ hd_error (Chat.said (snd run))
            = Some (response, accepted (slack [] response))
         /\ (accepted (slack [] response) = true ->
             run = (Returned tt,
                    {| Chat.pipeline := this';
                       Chat.said := [(response, true)] |})))
      /\ (forall e this',
            getBotResponse file post tags books
              (or_default (SlackEvent.text event) []) this
            = (Uncaught e, this') ->
            run = (Uncaught e,
                   {| Chat.pipeline := this'; Chat.said := [] |}))).
Proof.
  cbv zeta.
  destruct (truthy (SlackEvent.bot_id event)) eqn:Hbot;
    [|destruct (addressed event) eqn:Haddr;
      [destruct (has_greeting (or_default (SlackEvent.text event) []))
         eqn:Hgreet|]].
  - rewrite (message_handler_ignores _ _ _ _ _ _ event _ (or_introl Hbot)).
    cbn. repeat split; try lia; try discriminate.
  - rewrite (message_handler_greets _ _ _ _ _ _ event this Hbot Haddr Hgreet).
    cbn [fst snd].
    destruct (retries_summary slack
                (lit "Hi there! " ++ wave
                 ++ lit " Ask me anything about the platform knowledge base!")
                [sorry_message] this) as [H1 [H2 [H3 [_ [H5 H6]]]]];
      [cbn; lia|].
    split; [exact H1|]. split; [exact H2|]. split; [exact H3|].
    split; [intros [H|H]; discriminate H|].
    split; [|intros _ _ H; discriminate H].
    intros _ _ _. split; [reflexivity|]. split; [exact H5 | exact H6].
  - rewrite (message_handler_answers _ _ _ _ _ _ event this Hbot Haddr Hgreet).
    destruct (getBotResponse_outcome file post tags books
                (or_default (SlackEvent.text event) []) this)
      as [[response [this' E]]|[e [this' E]]]; rewrite E; cbn [fst snd].
    + destruct (retries_summary slack response
                  [sorry_message; sorry_message] this')
        as [H1 [H2 [H3 [_ [H5 H6]]]]]; [cbn; lia|].
      split; [exact H1|]. split; [exact H2|]. split; [exact H3|].
      split; [intros [H|H]; discriminate H|].
      split; [intros _ _ H; discriminate H|].
      intros _ _ _. split.
      * intros r t Hr. injection Hr as <- <-.
        split; [reflexivity|]. split; [exact H5 | exact H6].
      * intros e t Hr. discriminate Hr.
    + cbn. split; [lia|]. split; [lia|].
      split; [intros e0 H; discriminate H|].
      split; [intros [H|H]; discriminate H|].
      split; [intros _ _ H; discriminate H|].
      intros _ _ _. split.
      * intros r t Hr. discriminate Hr.
      * intros e0 t Hr. injection Hr as <- <-. reflexivity.
  - rewrite (message_handler_ignores _ _ _ _ _ _ event _ (or_intror Haddr)).
    cbn. repeat split; try lia; try discriminate.
Qed.

Lemma message_handler_replies_witness :
  message_handler (Returned gapped_corpus)
    (fun _ => Resolved (Some (lit "The platform team.")))
    (Rejected ECONNREFUSED) (lit "[books]") (lit "[wave]")
    (fun _ _ => Resolved tt)
    {| SlackEvent.text := Some (lit "Which team owns the build cluster?");
       SlackEvent.channel_type := Some (lit "im");
       SlackEvent.user := Some (lit "U04ABC123");
       SlackEvent.bot_id := None |}
    (Chat.start RAGPipeline.new)
  = (Returned tt,
     {| Chat.pipeline := RAGPipeline.new;
        Chat.said :=
          [(lit "Hi there! [wave] Ask me anything about the platform knowledge base!",
            true)] |}).
Proof.
  pose proof (message_handler_replies (Returned gapped_corpus)
                (fun _ => Resolved (Some (lit "The platform team.")))
                (Rejected ECONNREFUSED) (lit "[books]") (lit "[wave]")
                (fun _ _ => Resolved tt)
                {| SlackEvent.text :=
                     Some (lit "Which team owns the build cluster?");
                   SlackEvent.channel_type := Some (lit "im");
                   SlackEvent.user := Some (lit "U04ABC123");
                   SlackEvent.bot_id := None |}
                RAGPipeline.new) as H.
  cbv zeta in H. destruct H as [_ [_ [_ [_ [H _]]]]].
  specialize (H eq_refl eq_refl eq_refl). destruct H as [_ [_ H]].
  apply H. reflexivity.
Defined.

(** X28.  The handler of [app_mention] events, where a post to Slack may be
    refused.  A run posts at most three times, Slack accepts at most one of
    the posts, a run that ends in a thrown error has had none accepted, and
    a run that does not end in an uncaught error has posted.  With the
    mentions removed and the text trimmed: for an empty text the first post
    is the offer of help addressed to the user; for a text that contains
    "hello" or "hi" it is the greeting; in both cases the knowledge base is
    not consulted.  Otherwise, when [getBotResponse] returns a response,
    the first post is the response with every pair of asterisks removed,
    addressed to the user; when [getBotResponse] ends in the uncaught error
    of the read stream, so does the handler, with nothing posted.  In every
    case where Slack accepts the first post the run returns with nothing
    else posted. *)
Theorem app_mention_handler_replies (file : outcome (list Row.t))
    (post : str -> reply (option str)) (tags : reply (option (list str)))
    (books wave : str) (slack : list (str * bool) -> str -> reply unit)
    (event : SlackEvent.t) (this : RAGPipeline.t) :
  let run :=
    app_mention_handler file post tags books wave slack event
      (Chat.start this) in
  let cleanText :=
    trim (remove_mentions (or_default (SlackEvent.text event) [])) in
  let user := or_default (SlackEvent.user event) [] in
  let help :=
    lit "<@" ++ user
    ++ lit "> Hi! How can I help you with the platform knowledge base?" in
  let greeting :=
    lit "Hi there! " ++ wave
    ++ lit " How can I assist you with the platform knowledge base?" in
  length (Chat.said (snd run)) <= 3
  /\ length (Chat.delivered (snd run)) <= 1
  /\ (forall e, fst run = Thrown e -> Chat.delivered (snd run) = [])
  /\ ((forall e, fst run <> Uncaught e) -> Chat.said (snd run) <> [])
  /\ (cleanText = [] ->
      Chat.pipeline (snd run) = this
      /\ hd_error (Chat.said (snd run))
         = Some (help, accepted (slack [] help))
      /\ (accepted (slack [] help) = true ->
          run = (Returned tt,
                 {| Chat.pipeline := this; Chat.said := [(help, true)] |})))
  /\ (cleanText <> [] -> has_greeting cleanText = true ->
      Chat.pipeline (snd run) = this
      /\ hd_error (Chat.said (snd run))
         = Some (greeting, accepted (slack [] greeting))
      /\ (accepted (slack [] greeting) = true ->
          run = (Returned tt,
                 {| Chat.pipeline := this;
                    Chat.said := [(greeting, true)] |})))
  /\ (cleanText <> [] -> has_greeting cleanText = false ->
      (forall response this',
         getBotResponse file post tags books cleanText this
         = (Returned response, this') ->
         includes (remove_double_asterisks response) (lit "**") = false
         /\ Chat.pipeline (snd run) = this'
         /\ hd_error (Chat.said (snd run))
            = Some (lit "<@" ++ user ++ lit "> "
                    ++ remove_double_asterisks response,
                    accepted
                      (slack []
                         (lit "<@" ++ user ++ lit "> "
                          ++ remove_double_asterisks response)))
         /\ (accepted
               (slack []
                  (lit "<@" ++ user ++ lit "> "
                   ++ remove_double_asterisks response)) = true ->
             run = (Returned tt,
                    {| Chat.pipeline := this';
                       Chat.said :=
                         [(lit "<@" ++ user ++ lit "> "
                           ++ remove_double_asterisks response, true)] |})))
      /\ (forall e this',
            getBotResponse file post tags books cleanText this
            = (Uncaught e, this') ->
            run = (Uncaught e,
                   {| Chat.pipeline := this'; Chat.said := [] |}))).
Proof.
  cbv zeta.
  assert (Hsaid : forall (o : outcome unit) (t : RAGPipeline.t) text retries,
    hd_error (snd (say_with_retries slack text retries []))
      = Some (text, accepted (slack [] text)) ->
    snd (say_with_retries slack text retries []) <> []).
  { intros _ _ text retries H E. rewrite E in H. discriminate H. }
  destruct (trim (remove_mentions (or_default (SlackEvent.text event) [])))
    as [|c rest] eqn:Hclean.
  - rewrite (app_mention_handler_helps _ _ _ _ _ _ event this Hclean).
    cbn [fst snd].
    destruct (retries_summary slack
                (lit "<@" ++ or_default (SlackEvent.user event) []
                 ++ lit "> Hi! How can I help you with the platform knowledge base?")
                [lit "Sorry, I encountered an error."] this)
      as [H1 [H2 [H3 [_ [H5 H6]]]]]; [cbn; lia|].
    split; [exact H1|]. split; [exact H2|]. split; [exact H3|].
    split; [intros _; apply (Hsaid (Returned tt) this); exact H5|].
    split; [intros _; split; [reflexivity|]; split; [exact H5 | exact H6]|].
    split; intros H; contradiction H; reflexivity.
  - assert (Hne : trim (remove_mentions (or_default (SlackEvent.text event) []))
                  <> []) by (rewrite Hclean; discriminate).
    destruct (has_greeting (c :: rest)) eqn:Hgreet.
    + rewrite <- Hclean in Hgreet.
      rewrite (app_mention_handler_greets _ _ _ _ _ _ event this Hne Hgreet).
      cbn [fst snd].
      destruct (retries_summary slack
                  (lit "Hi there! " ++ wave
                   ++ lit " How can I assist you with the platform knowledge base?")
                  [lit "Sorry, I encountered an error."] this)
        as [H1 [H2 [H3 [_ [H5 H6]]]]]; [cbn; lia|].
      split; [exact H1|]. split; [exact H2|]. split; [exact H3|].
      split; [intros _; apply (Hsaid (Returned tt) this); exact H5|].
      split; [intro H; discriminate H|].
      split; [intros _ _; split; [reflexivity|]; split; [exact H5 | exact H6]|].
      intros _ H. discriminate H.
    + rewrite <- Hclean in Hgreet.
      rewrite (app_mention_handler_answers _ _ _ _ _ _ event this Hne Hgreet).
      rewrite Hclean.
      destruct (getBotResponse_outcome file post tags books (c :: rest) this)
        as [[response [this' E]]|[e [this' E]]]; rewrite E; cbn [fst snd].
      * destruct (retries_summary slack
                    (lit "<@" ++ or_default (SlackEvent.user event) []
                     ++ lit "> " ++ remove_double_asterisks response)
                    [lit "<@" ++ or_default (SlackEvent.user event) []
                     ++ lit "> Sorry, I encountered an error processing your request.";
                     lit "Sorry, I encountered an error."] this')
          as [H1 [H2 [H3 [_ [H5 H6]]]]]; [cbn; lia|].
        split; [exact H1|]. split; [exact H2|]. split; [exact H3|].
        split; [intros _; apply (Hsaid (Returned tt) this'); exact H5|].
        split; [intro H; discriminate H|].
        split; [intros _ H; discriminate H|].
        intros _ _. split.
        -- intros r t Hr. injection Hr as <- <-.
           split; [apply remove_double_asterisks_none|].
           split; [reflexivity|]. split; [exact H5 | exact H6].
        -- intros e t Hr. discriminate Hr.
      * cbn. split; [lia|]. split; [lia|].
        split; [intros e0 H; discriminate H|].
        split; [intro H; contradiction (H e); reflexivity|].
        split; [intro H; discriminate H|].
        split; [intros _ H; discriminate H|].
        intros _ _. split.
        -- intros r t Hr. discriminate Hr.
        -- intros e0 t Hr. injection Hr as <- <-. reflexivity.
Qed.

Lemma app_mention_handler_replies_witness :
  app_mention_handler (Uncaught ENOENT) (fun _ => Resolved None)
    (Rejected ECONNREFUSED) (lit "[books]") (lit "[wave]")
    (fun _ _ => Resolved tt)
    {| SlackEvent.text := Some (lit "<@U04BOT001> ");
       SlackEvent.channel_type := Some (lit "channel");
       SlackEvent.user := Some (lit "U04ABC123");
       SlackEvent.bot_id := None |}
    (Chat.start RAGPipeline.new)
  = (Returned tt,
     {| Chat.pipeline := RAGPipeline.new;
        Chat.said :=
          [(lit "<@U04ABC123> Hi! How can I help you with the platform knowledge base?",
            true)] |}).
Proof.
  pose proof (app_mention_handler_replies (Uncaught ENOENT)
                (fun _ => Resolved None) (Rejected ECONNREFUSED) (lit "[books]")
                (lit "[wave]") (fun _ _ => Resolved tt)
                {| SlackEvent.text := Some (lit "<@U04BOT001> ");
                   SlackEvent.channel_type := Some (lit "channel");
                   SlackEvent.user := Some (lit "U04ABC123");
                   SlackEvent.bot_id := None |}
                RAGPipeline.new) as H.
  cbv zeta in H. destruct H as [_ [_ [_ [_ [H _]]]]].
  specialize (H eq_refl). destruct H as [_ [_ H]].
  apply H. reflexivity.
Defined.
